(** * bot.py: the IVASMS OTP bot, its ledger store and its inbox matcher

    A shallow embedding of [src/bot.py].  The SQLite tables become fields of
    a record, every DB helper becomes a function from store to store (one
    function per committed transaction), the two regular expressions become
    executable matchers over lists of characters, and the coroutines of the
    bot become the steps of a small transition system whose steps are the
    stretches of code between two [await]s.

    Modelling conventions.
    - Text is a list of characters; a character is a code point below 256
      (Rocq's [ascii]), classified as Python's [re] does for [str] patterns.
    - Money ([REAL] columns, Python floats) is IEEE 754 binary64: Rocq's
      primitive floats, whose operations are the processor's and are
      specified by [Floats] (round to nearest, ties to even).  SQLite
      stores NULL in place of a NaN, which Python then refuses to compare;
      the model keeps the NaN and compares it as a double.  The convention
      matters only once a balance has overflowed: with a reward that is at
      least zero and requested amounts below infinity, every balance of
      every reachable state is a number.
    - Clock readings ([CURRENT_TIMESTAMP], [datetime.now]) are inputs.
    - The remote portal is an input: an HTTP response or a failure. *)

From Stdlib Require Import ssreflect Ascii String ZArith QArith Lia Floats.
From stdpp Require Import gmap list.

#[local] Set Warnings "-rewrite-rw".
#[local] Set Warnings "-inexact-float".

Local Open Scope nat_scope.

(** ** Text *)

Definition str := list ascii.

(** A string literal as a list of characters. *)
Definition lit (s : string) : str := list_ascii_of_string s.

Arguments lit : simpl never.

Definition code (c : ascii) : nat := nat_of_ascii c.

(** [\d] of a [str] pattern: a decimal digit.  Below 256 these are 0-9. *)
Definition is_digit (c : ascii) : bool :=
  (48 <=? code c) && (code c <=? 57).

(** [\w] of a [str] pattern: alphanumeric or underscore.  Below 256 the
    alphanumerics are 0-9, A-Z, a-z, the letters of Latin-1 and its
    superscript digits and vulgar fractions. *)
Definition is_word (c : ascii) : bool :=
  let n := code c in
  is_digit c
  || ((65 <=? n) && (n <=? 90))
  || ((97 <=? n) && (n <=? 122))
  || (n =? 95)
  || (n =? 170) || (n =? 178) || (n =? 179) || (n =? 181)
  || (n =? 185) || (n =? 186)
  || ((188 <=? n) && (n <=? 190))
  || ((192 <=? n) && (n <=? 214))
  || ((216 <=? n) && (n <=? 246))
  || ((248 <=? n) && (n <=? 255)).

(** Number of leading characters of [s] that are digits. *)
Fixpoint digit_run (s : str) : nat :=
  match s with
  | c :: r => if is_digit c then S (digit_run r) else 0
  | [] => 0
  end.

(** Python's slice [s[i:j]] for [0 <= i]. *)
Definition slice (s : str) (i j : nat) : str := take (j - i) (drop i s).

(** Python's [s[-n:]] for [0 < n]. *)
Definition last_n (n : nat) (s : str) : str := drop (length s - n) s.

(** ** The phone-number pattern [(?:\+?\d{6,15})] *)

(** Length of the match of [\d{6,15}] at the head of [s]: the quantifier
    is greedy and nothing follows it, so it takes up to 15 digits. *)
Definition match_digits_6_15 (s : str) : option nat :=
  let d := digit_run s in
  if 6 <=? d then Some (Nat.min d 15) else None.

(** Length of the match of the whole pattern at the head of [s].  [\+?]
    first takes the plus sign; when the digits fail after it the engine
    retries without the sign, and then [\d] fails on the sign itself. *)
Definition match_number (s : str) : option nat :=
  match s with
  | "+"%char :: r =>
      match match_digits_6_15 r with
      | Some k => Some (S k)
      | None => match_digits_6_15 s
      end
  | _ => match_digits_6_15 s
  end.

(** [re.finditer]: the non-overlapping matches, leftmost first, as pairs
    [(m.start(), m.end())].  [pos] is the offset of [s] in the text and
    [skip] counts the characters still covered by the last match. *)
Fixpoint finditer_from (s : str) (pos skip : nat) : list (nat * nat) :=
  match s with
  | [] => []
  | _ :: r =>
      match skip with
      | S k => finditer_from r (S pos) k
      | O =>
          match match_number s with
          | Some n => (pos, pos + n) :: finditer_from r (S pos) (n - 1)
          | None => finditer_from r (S pos) 0
          end
      end
  end.

Definition finditer_number (text : str) : list (nat * nat) :=
  finditer_from text 0 0.

(** [re.findall]: the matched substrings. *)
Definition findall_number (text : str) : list str :=
  map (fun m => slice text (fst m) (snd m)) (finditer_number text).

(** The shape test of the claims: the pattern matches the whole string. *)
Definition phone_shaped (s : str) : bool :=
  match match_number s with
  | Some n => n =? length s
  | None => false
  end.

(** ** The code pattern [OTP_RE = \b(\d{4,8})\b] *)

Definition is_word_opt (c : option ascii) : bool :=
  match c with Some c => is_word c | None => false end.

(** [\b] between two neighbours ([None] is an end of the searched string). *)
Definition word_boundary (prev next : option ascii) : bool :=
  xorb (is_word_opt prev) (is_word_opt next).

(** The greedy quantifier [\d{4,8}] followed by [\b]: the engine tries the
    counts in [ks] in order and keeps the first after which [\b] holds. *)
Fixpoint first_count (s : str) (ks : list nat) : option nat :=
  match ks with
  | [] => None
  | k :: ks' =>
      if (k <=? digit_run s)
         && word_boundary (s !! (k - 1)) (s !! k)
      then Some k else first_count s ks'
  end.

(** The match of [OTP_RE] that starts at the head of [s], where [prev] is
    the character before it: group 1. *)
Definition otp_match_at (prev : option ascii) (s : str) : option str :=
  if word_boundary prev (head s) then
    match first_count s [8; 7; 6; 5; 4] with
    | Some k => Some (take k s)
    | None => None
    end
  else None.

Fixpoint otp_search_from (prev : option ascii) (s : str) : option str :=
  match otp_match_at prev s with
  | Some m => Some m
  | None =>
      match s with
      | [] => None
      | c :: r => otp_search_from (Some c) r
      end
  end.

(** [OTP_RE.search(w)], reduced to [otp_m.group(1)]. *)
Definition otp_search (w : str) : option str := otp_search_from None w.

(** ** The ledger store: the five tables of [init_db] *)

Definition Time := nat.

(** A row of [available_numbers]; [assigned_to] is nullable. *)
Record NumberRow := mkNumberRow {
  nr_number : str;
  nr_country : str;
  nr_assigned_to : option Z;
  nr_added_at : Time
}.

(** A row of [otps]; [id] is [AUTOINCREMENT]. *)
Record OtpRow := mkOtpRow {
  o_id : nat;
  o_number : str;
  o_otp : str;
  o_full_msg : str;
  o_service : str;
  o_country : str;
  o_fetched_at : Time
}.

(** The [status] column of [withdrawals]: the code writes only the default
    ['pending'] and ['approved']. *)
Inductive Status := pending | approved.

Record WithdrawalRow := mkWithdrawalRow {
  w_id : nat;
  w_user_id : Z;
  w_amount : float;
  w_method : str;
  w_target : str;
  w_status : Status;
  w_requested_at : Time
}.

(** [users] and [earnings] are keyed by their primary key [user_id]; the
    other tables are kept in row order ([rowid], that is insertion order). *)
Record DB := mkDB {
  users : gmap Z (option str * Time);
  earnings : gmap Z float;
  available_numbers : list NumberRow;
  otps : list OtpRow;
  withdrawals : list WithdrawalRow
}.

(** The store right after [init_db] on a new file. *)
Definition init_db : DB :=
  {| users := ∅; earnings := ∅; available_numbers := [];
     otps := []; withdrawals := [] |}.

Definition Status_eqb (a b : Status) : bool :=
  match a, b with
  | pending, pending | approved, approved => true
  | _, _ => false
  end.

Definition str_eqb (a b : str) : bool := bool_decide (a = b).

(** [INSERT OR IGNORE] into a table keyed by [user_id]. *)
Definition insert_or_ignore {V} (k : Z) (v : V) (t : gmap Z V) : gmap Z V :=
  match t !! k with
  | Some _ => t
  | None => <[k := v]> t
  end.

Definition set_users
    (f : gmap Z (option str * Time) -> gmap Z (option str * Time))
    (db : DB) : DB :=
  {| users := f (users db); earnings := earnings db;
     available_numbers := available_numbers db;
     otps := otps db; withdrawals := withdrawals db |}.

Definition set_earnings (f : gmap Z float -> gmap Z float) (db : DB) : DB :=
  {| users := users db; earnings := f (earnings db);
     available_numbers := available_numbers db;
     otps := otps db; withdrawals := withdrawals db |}.

Definition set_available_numbers (f : list NumberRow -> list NumberRow)
    (db : DB) : DB :=
  {| users := users db; earnings := earnings db;
     available_numbers := f (available_numbers db);
     otps := otps db; withdrawals := withdrawals db |}.

Definition set_otps (f : list OtpRow -> list OtpRow) (db : DB) : DB :=
  {| users := users db; earnings := earnings db;
     available_numbers := available_numbers db;
     otps := f (otps db); withdrawals := withdrawals db |}.

Definition set_withdrawals (f : list WithdrawalRow -> list WithdrawalRow)
    (db : DB) : DB :=
  {| users := users db; earnings := earnings db;
     available_numbers := available_numbers db;
     otps := otps db; withdrawals := f (withdrawals db) |}.

(** *** DB helpers: one function per committed transaction *)

Definition ensure_user (now : Time) (user_id : Z) (username : option str)
    (db : DB) : DB :=
  set_earnings (insert_or_ignore user_id 0%float)
    (set_users (insert_or_ignore user_id (username, now)) db).

Definition get_balance (user_id : Z) (db : DB) : float :=
  match earnings db !! user_id with
  | Some b => b
  | None => 0%float
  end.

Definition credit_user (user_id : Z) (amount : float) (db : DB) : DB :=
  set_earnings
    (fun e => alter (fun b => (b + amount)%float) user_id
                (insert_or_ignore user_id 0%float e)) db.

Definition debit_user (user_id : Z) (amount : float) (db : DB)
    : DB * bool :=
  match earnings db !! user_id with
  | None => (db, false)
  | Some b =>
      if (b <? amount)%float then (db, false)
      else
        (set_earnings (alter (fun b => (b - amount)%float) user_id) db, true)
  end.

Definition find_number (number : str) (rows : list NumberRow)
    : option NumberRow :=
  List.find (fun r => str_eqb (nr_number r) number) rows.

(** [number] is the primary key: [INSERT OR IGNORE] adds a row only when no
    row has that number; [assigned_to] takes its default [NULL]. *)
Definition add_available_number (now : Time) (number country : str)
    (db : DB) : DB :=
  match find_number number (available_numbers db) with
  | Some _ => db
  | None =>
      set_available_numbers
        (fun rows => rows ++ [mkNumberRow number country None now]) db
  end.

Definition is_free (r : NumberRow) : bool :=
  match nr_assigned_to r with None => true | Some _ => false end.

Definition assign_row (user_id : Z) (number : str) (r : NumberRow)
    : NumberRow :=
  if str_eqb (nr_number r) number
  then mkNumberRow (nr_number r) (nr_country r) (Some user_id) (nr_added_at r)
  else r.

(** [SELECT ... WHERE assigned_to IS NULL LIMIT 1] scans the table in row
    order: it picks the oldest free row. *)
Definition assign_number_to_user (user_id : Z) (db : DB)
    : DB * option str :=
  match List.find is_free (available_numbers db) with
  | None => (db, None)
  | Some row =>
      let number := nr_number row in
      (set_available_numbers (map (assign_row user_id number)) db,
       Some number)
  end.

Definition get_user_by_number (number : str) (db : DB) : option Z :=
  match find_number number (available_numbers db) with
  | Some row => nr_assigned_to row
  | None => None
  end.

Definition otp_exists (number otp : str) (db : DB) : bool :=
  existsb (fun r => str_eqb (o_number r) number && str_eqb (o_otp r) otp)
    (otps db).

Definition save_otp (now : Time) (number otp full_msg service country : str)
    (db : DB) : DB :=
  set_otps
    (fun rows =>
       rows ++ [mkOtpRow (S (length rows)) number otp full_msg service
                  country now]) db.

(** Returns the store and [c.lastrowid]. *)
Definition create_withdrawal (now : Time) (user_id : Z) (amount : float)
    (method target : str) (db : DB) : DB * nat :=
  let wid := S (length (withdrawals db)) in
  (set_withdrawals
     (fun rows =>
        rows ++ [mkWithdrawalRow wid user_id amount method target pending
                   now]) db,
   wid).

Definition is_pending_id (wid : nat) (r : WithdrawalRow) : bool :=
  (w_id r =? wid) && Status_eqb (w_status r) pending.

Definition list_pending_withdrawals (db : DB) : list WithdrawalRow :=
  List.filter (fun r => Status_eqb (w_status r) pending) (withdrawals db).

Definition approve_row (wid : nat) (r : WithdrawalRow) : WithdrawalRow :=
  if w_id r =? wid
  then mkWithdrawalRow (w_id r) (w_user_id r) (w_amount r) (w_method r)
         (w_target r) approved (w_requested_at r)
  else r.

(** Both [UPDATE]s are followed by a single [commit]: the function returns
    either the untouched store or the store with both applied. *)
Definition approve_withdrawal (wid : nat) (db : DB) : DB * bool :=
  match List.find (is_pending_id wid) (withdrawals db) with
  | None => (db, false)
  | Some row =>
      let user_id := w_user_id row in
      let amount := w_amount row in
      match earnings db !! user_id with
      | None => (db, false)
      | Some bal =>
          if (bal <? amount)%float then (db, false)
          else
            (set_withdrawals (map (approve_row wid))
               (set_earnings (alter (fun b => (b - amount)%float) user_id)
                  db),
             true)
      end
  end.

(** ** The inbox matcher *)

(** [str.lower] on a code point below 256. *)
Definition lower_char (c : ascii) : ascii :=
  let n := code c in
  if ((65 <=? n) && (n <=? 90))
     || ((192 <=? n) && (n <=? 222) && negb (n =? 215))
  then ascii_of_nat (n + 32) else c.

Definition upper_char (c : ascii) : ascii :=
  let n := code c in
  if (97 <=? n) && (n <=? 122) then ascii_of_nat (n - 32) else c.

Definition lower (s : str) : str := map lower_char s.

(** [str.capitalize] on the ASCII keywords below. *)
Definition capitalize (s : str) : str :=
  match s with
  | [] => []
  | c :: r => upper_char c :: lower r
  end.

Fixpoint starts_with (p s : str) : bool :=
  match p, s with
  | [], _ => true
  | a :: p', b :: s' => bool_decide (a = b) && starts_with p' s'
  | _ :: _, [] => false
  end.

(** Python's [p in s] on strings. *)
Fixpoint contains (p s : str) : bool :=
  starts_with p s ||
  match s with
  | [] => false
  | _ :: s' => contains p s'
  end.

Definition services : list str :=
  map lit ["whatsapp"; "facebook"; "telegram"; "google"; "instagram";
           "tiktok"; "netflix"; "clerk"]%string.

Definition detect_service (text : str) : str :=
  let t := lower text in
  match List.find (fun s => contains s t) services with
  | Some s => capitalize s
  | None => lit "Service"
  end.

(** The tuple [(number, otp, snippet, svc, country)] appended to [results]. *)
Record Event := mkEvent {
  ev_number : str;
  ev_otp : str;
  ev_snippet : str;
  ev_service : str;
  ev_country : str
}.

Definition truthy (s : str) : bool :=
  match s with [] => false | _ :: _ => true end.

Definition py_or (a b : str) : str := if truthy a then a else b.

(** [(window[:300] or back_window[-300:]) if window or back_window else ""] *)
Definition snippet_of (window back_window : str) : str :=
  if truthy window || truthy back_window
  then py_or (take 300 window) (last_n 300 back_window)
  else [].

(** The body of the [for m in re.finditer(...)] loop up to [otp = ...], for
    the occurrence [m = (m.start(), m.end())]: the number, the code and the
    snippet, or [None] where the loop says [continue].  When the forward
    search succeeds [window] is not empty, so the snippet expression never
    reads [back_window]. *)
Definition occurrence (text : str) (m : nat * nat)
    : option (str * str * str) :=
  let number := slice text (fst m) (snd m) in
  let start := snd m in
  let window := slice text start (start + 400) in
  match otp_search window with
  | Some otp => Some (number, otp, snippet_of window [])
  | None =>
      let back_window := slice text (fst m - 200) (fst m) in
      match otp_search back_window with
      | Some otp => Some (number, otp, snippet_of window back_window)
      | None => None
      end
  end.

(** The loop of [process_incoming_otps_single_scraper] over the remaining
    occurrences [ms]; [clock i] is the clock reading at iteration [i]. *)
Fixpoint otp_loop (clock : nat -> Time) (text : str) (ms : list (nat * nat))
    (i : nat) (db : DB) (results : list Event) : DB * list Event :=
  match ms with
  | [] => (db, results)
  | m :: ms' =>
      match occurrence text m with
      | None => otp_loop clock text ms' (S i) db results
      | Some (number, otp, snippet) =>
          if otp_exists number otp db
          then otp_loop clock text ms' (S i) db results
          else
            let svc := detect_service snippet in
            let country := lit "UNKNOWN" in
            otp_loop clock text ms' (S i)
              (save_otp (clock i) number otp snippet svc country db)
              (results ++ [mkEvent number otp snippet svc country])
      end
  end.

(** What [scraper.get] gives: [None] stands for an exception. *)
Record Response := mkResponse { status_code : nat; r_text : str }.

Definition process_incoming_otps_single_scraper (clock : nat -> Time)
    (resp : option Response) (db : DB) : DB * list Event :=
  match resp with
  | None => (db, [])
  | Some r =>
      if negb (status_code r =? 200) then (db, [])
      else otp_loop clock (r_text r) (finditer_number (r_text r)) 0 db []
  end.

(** ** Inventory sync *)

(** The loop [for num in set(found)] over the remaining numbers. *)
Fixpoint sync_loop (clock : nat -> Time) (nums : list str) (i : nat)
    (db : DB) (added : nat) : DB * nat :=
  match nums with
  | [] => (db, added)
  | num :: rest =>
      sync_loop clock rest (S i)
        (add_available_number (clock i) num (lit "UNKNOWN") db) (S added)
  end.

(** [set_iter found] is the order in which Python iterates [set(found)];
    the language fixes only that every element comes once. *)
Definition sync_numbers_from_ivasms (set_iter : list str -> list str)
    (clock : nat -> Time) (resp : option Response) (db : DB) : DB * nat :=
  match resp with
  | None => (db, 0)
  | Some r =>
      let found := findall_number (r_text r) in
      sync_loop clock (set_iter found) 0 db 0
  end.

(** One admissible iteration order: first occurrences, left to right. *)
Fixpoint first_occurrences (l : list str) : list str :=
  match l with
  | [] => []
  | x :: r =>
      x :: List.filter (fun y => negb (str_eqb y x)) (first_occurrences r)
  end.

(** ** The bot: handlers and background loop as a transition system *)

(** The values of the [user_states] dictionary. *)
Inductive UserState := awaiting_withdraw.

(** Besides the store, the process holds the [user_states] dictionary and,
    while [otp_poll_loop] walks through [results], the tuples it has not
    reached yet. *)
Record State := mkState {
  st_db : DB;
  user_states : gmap Z UserState;
  poll_results : list Event
}.

Definition set_db (f : DB -> DB) (st : State) : State :=
  {| st_db := f (st_db st); user_states := user_states st;
     poll_results := poll_results st |}.

Definition set_user_states (f : gmap Z UserState -> gmap Z UserState)
    (st : State) : State :=
  {| st_db := st_db st; user_states := f (user_states st);
     poll_results := poll_results st |}.

(** Python's [if owner:] for [owner : int | None]. *)
Definition truthy_owner (owner : option Z) : option Z :=
  match owner with
  | Some u => if (u =? 0)%Z then None else Some u
  | None => None
  end.

(** A step is what runs between two suspension points of the event loop.
    Sending a notification is a suspension point and changes no state. *)
Inductive Op :=
  | Startup (clock : nat -> Time) (resp : option Response)
  | CmdStart (now : Time) (user_id : Z) (username : option str)
  | CbGetNumber (now : Time) (user_id : Z) (username : option str)
  | CbAccount (now : Time) (user_id : Z) (username : option str)
  | CbWithdraw (now : Time) (user_id : Z) (username : option str)
      (delivered : bool)
  | HandleWithdrawText (now : Time) (user_id : Z) (method target : str)
      (amount : float) (finished : bool)
  | CmdSync (clock : nat -> Time) (sender : Z) (resp : option Response)
  | CmdApprove (sender : Z) (wid : nat)
  | PollFetch (clock : nat -> Time) (resp : option Response)
  | PollCredit.

Section Bot.

(** The configuration read from [.env]. *)
Variable ADMIN_ID : Z.
Variable EARN_PER_SMS : float.
Variable MIN_WITHDRAWAL : float.

(** The iteration order of Python sets. *)
Variable set_iter : list str -> list str.

(** [on_startup] of a new process: the dictionary and the poll loop start
    afresh, the store is the file left by earlier runs. *)
Definition on_startup (clock : nat -> Time) (resp : option Response)
    (st : State) : State :=
  let db1 := ensure_user (clock 0) ADMIN_ID (Some (lit "admin")) (st_db st) in
  let db2 := fst (sync_numbers_from_ivasms set_iter (fun i => clock (S i))
                    resp db1) in
  {| st_db := db2; user_states := ∅; poll_results := [] |}.

Definition cmd_start (now : Time) (user_id : Z) (username : option str)
    (st : State) : State :=
  set_db (ensure_user now user_id username) st.

Definition cb_get_number (now : Time) (user_id : Z) (username : option str)
    (st : State) : State :=
  set_db (fun db => fst (assign_number_to_user user_id
                           (ensure_user now user_id username db))) st.

Definition cb_account (now : Time) (user_id : Z) (username : option str)
    (st : State) : State :=
  set_db (ensure_user now user_id username) st.

(** [delivered] tells whether [edit_text] returned; when it raises, the
    assignment to [user_states] after it is not reached. *)
Definition cb_withdraw (now : Time) (user_id : Z) (username : option str)
    (delivered : bool) (st : State) : State :=
  let st1 := set_db (ensure_user now user_id username) st in
  let bal := get_balance user_id (st_db st1) in
  if (bal <? MIN_WITHDRAWAL)%float then st1
  else if delivered
       then set_user_states (<[user_id := awaiting_withdraw]>) st1
       else st1.

(** The handler runs on messages matching
    [^(bkash|nagad|rocket|bank),\s*\d+,\s*\d+(\.\d+)?$]; [method], [target]
    and [amount] are the three parsed fields, and the filter lets only
    unsigned numerals through.  [finished] tells whether the handler
    reached its last line, [user_states.pop]; it does not when a reply
    raises outside the [try], or while it is suspended in a reply. *)
Definition handle_withdraw_text (now : Time) (user_id : Z)
    (method target : str) (amount : float) (finished : bool) (st : State)
    : State :=
  if negb (0 <=? amount)%float then st
  else
    match user_states st !! user_id with
    | None => st
    | Some awaiting_withdraw =>
        let bal := get_balance user_id (st_db st) in
        let st1 :=
          if (bal <? amount)%float then st
          else set_db (fun db => fst (create_withdrawal now user_id amount
                                        (lower method) target db)) st in
        if finished then set_user_states (delete user_id) st1 else st1
    end.

Definition cmd_sync (clock : nat -> Time) (sender : Z)
    (resp : option Response) (st : State) : State :=
  if negb (sender =? ADMIN_ID)%Z then st
  else set_db (fun db => fst (sync_numbers_from_ivasms set_iter clock
                                resp db)) st.

Definition cmd_approve (sender : Z) (wid : nat) (st : State) : State :=
  if negb (sender =? ADMIN_ID)%Z then st
  else set_db (fun db => fst (approve_withdrawal wid db)) st.

(** The head of an iteration of [otp_poll_loop]: it is entered only when
    the previous iteration has gone through all its results. *)
Definition poll_fetch (clock : nat -> Time) (resp : option Response)
    (st : State) : State :=
  match poll_results st with
  | _ :: _ => st
  | [] =>
      let '(db', results) :=
        process_incoming_otps_single_scraper clock resp (st_db st) in
      {| st_db := db'; user_states := user_states st;
         poll_results := results |}
  end.

(** The call of [credit_user] made for the tuple [ev], if any. *)
Definition credit_of (ev : Event) (db : DB) : option Z :=
  truthy_owner (get_user_by_number (ev_number ev) db).

(** The body of [for number, otp, ... in results] for the next tuple: the
    owner lookup and the credit, which no suspension point separates. *)
Definition poll_credit (st : State) : State :=
  match poll_results st with
  | [] => st
  | ev :: rest =>
      let db' :=
        match credit_of ev (st_db st) with
        | Some owner => credit_user owner EARN_PER_SMS (st_db st)
        | None => st_db st
        end in
      {| st_db := db'; user_states := user_states st; poll_results := rest |}
  end.

Definition step (op : Op) (st : State) : State :=
  match op with
  | Startup clock resp => on_startup clock resp st
  | CmdStart now u n => cmd_start now u n st
  | CbGetNumber now u n => cb_get_number now u n st
  | CbAccount now u n => cb_account now u n st
  | CbWithdraw now u n d => cb_withdraw now u n d st
  | HandleWithdrawText now u m t a f => handle_withdraw_text now u m t a f st
  | CmdSync clock s resp => cmd_sync clock s resp st
  | CmdApprove s wid => cmd_approve s wid st
  | PollFetch clock resp => poll_fetch clock resp st
  | PollCredit => poll_credit st
  end.

Fixpoint run (ops : list Op) (st : State) : State :=
  match ops with
  | [] => st
  | op :: ops' => run ops' (step op st)
  end.

(** The calls [credit_user(owner, EARN_PER_SMS)] made along a run, oldest
    first, each with the tuple it was made for. *)
Definition step_credit (op : Op) (st : State) : list (Z * Event) :=
  match op with
  | PollCredit =>
      match poll_results st with
      | ev :: _ =>
          match credit_of ev (st_db st) with
          | Some owner => [(owner, ev)]
          | None => []
          end
      | [] => []
      end
  | _ => []
  end.

Fixpoint credit_calls (ops : list Op) (st : State) : list (Z * Event) :=
  match ops with
  | [] => []
  | op :: ops' => step_credit op st ++ credit_calls ops' (step op st)
  end.

(** The statements that change a balance, as ledger entries: the
    [UPDATE ... balance + ?] of a [credit_user] call of the poll loop, with
    the tuple it was made for, and the [UPDATE ... balance - ?] of an
    approval, with the id and the amount of the request. *)
Inductive Entry :=
  | Credit (ev : Event)
  | Debit (wid : nat) (amount : float).

(** The entries a step makes, each with the user whose balance it
    changes. *)
Definition step_ledger (op : Op) (st : State) : list (Z * Entry) :=
  match op with
  | PollCredit =>
      map (fun c => (fst c, Credit (snd c))) (step_credit op st)
  | CmdApprove sender wid =>
      if negb (sender =? ADMIN_ID)%Z then []
      else
        match List.find (is_pending_id wid) (withdrawals (st_db st)) with
        | Some row =>
            if snd (approve_withdrawal wid (st_db st))
            then [(w_user_id row, Debit wid (w_amount row))]
            else []
        | None => []
        end
  | _ => []
  end.

(** The ledger of a run, oldest entry first. *)
Fixpoint ledger (ops : list Op) (st : State) : list (Z * Entry) :=
  match ops with
  | [] => []
  | op :: ops' => step_ledger op st ++ ledger ops' (step op st)
  end.

(** What an entry does to a balance, in double arithmetic. *)
Definition apply_entry (b : float) (e : Entry) : float :=
  match e with
  | Credit _ => (b + EARN_PER_SMS)%float
  | Debit _ amount => (b - amount)%float
  end.

(** The balance that the entries of [u] in [log] make of 0, applied in
    the order of the log. *)
Definition replay (u : Z) (log : list (Z * Entry)) : float :=
  fold_left apply_entry
    (map snd (List.filter (fun c => (fst c =? u)%Z) log)) 0%float.

End Bot.

(** The state of a process started on a new store, before [on_startup]. *)
Definition init_state : State :=
  {| st_db := init_db; user_states := ∅; poll_results := [] |}.

(** ** Vocabulary of the properties *)

(** The deduplication key of a history record and of an emitted tuple. *)
Definition otp_key (r : OtpRow) : str * str := (o_number r, o_otp r).
Definition ev_key (e : Event) : str * str := (ev_number e, ev_otp e).

(** Referential consistency of a store: balances and users have the same
    keys, owners and requesters are registered, request ids are the row
    numbers, and inventory numbers are distinct. *)
Definition db_consistent (db : DB) : Prop :=
  (forall u, is_Some (earnings db !! u) <-> is_Some (users db !! u))
  /\ (forall r u, r ∈ available_numbers db -> nr_assigned_to r = Some u ->
        is_Some (users db !! u))
  /\ (forall w, w ∈ withdrawals db -> is_Some (earnings db !! w_user_id w))
  /\ map w_id (withdrawals db) = seq 1 (length (withdrawals db))
  /\ NoDup (map nr_number (available_numbers db)).

Definition state_consistent (st : State) : Prop :=
  db_consistent (st_db st)
  /\ forall u, is_Some (user_states st !! u) ->
       is_Some (earnings (st_db st) !! u).

(** [row] is the pending request that [wid] names in [db]. *)
Definition names_pending (wid : nat) (db : DB) (row : WithdrawalRow) : Prop :=
  row ∈ withdrawals db /\ w_id row = wid /\ w_status row = pending.


(** Number of calls of [credit_user] for [u] in a list of calls. *)
Definition credited (u : Z) (log : list (Z * Event)) : nat :=
  length (List.filter (fun c => (fst c =? u)%Z) log).

(** No balance compares below zero. *)
Definition balances_nonneg (db : DB) : Prop :=
  forall u, (get_balance u db <? 0)%float = false.

(** Every balance is a number, not a NaN, and at least zero; and every
    requested amount is below infinity. *)
Definition ledger_numbers (db : DB) : Prop :=
  (forall u, (0 <=? get_balance u db)%float = true)
  /\ (forall row, row ∈ withdrawals db ->
                  (w_amount row <? infinity)%float = true).

(** A step other than a withdrawal message whose amount, as a double, is
    infinite: [float] gives infinity for a decimal of some 309 digits or
    more. *)
Definition finite_request (op : Op) : bool :=
  match op with
  | HandleWithdrawText _ _ _ _ amount _ => (amount <? infinity)%float
  | _ => true
  end.

(** The request [row] of [db] is approved, and it is the request [wid] of
    the user [u] for the amount [a]. *)
Definition approved_request (db : DB) (u : Z) (wid : nat) (a : float)
    : Prop :=
  exists row, row ∈ withdrawals db /\ w_id row = wid /\ w_user_id row = u
              /\ w_amount row = a /\ w_status row = approved.

(** The ids of the debit entries of a ledger. *)
Definition debit_ids (log : list (Z * Entry)) : list nat :=
  omap (fun c => match snd c with
                 | Debit wid _ => Some wid
                 | Credit _ => None
                 end) log.

(** The rational number that a finite double stands for. *)
Definition exact_value (x : float) : Q :=
  match Prim2SF x with
  | S754_finite s m e => (inject_Z (cond_Zopp s (Zpos m)) * 2 ^ e)%Q
  | _ => 0%Q
  end.

(** The handlers of messages and callbacks, as opposed to the start of
    the process and the steps of the poll loop. *)
Definition is_handler (op : Op) : bool :=
  match op with
  | Startup _ _ | PollFetch _ _ | PollCredit => false
  | _ => true
  end.

(** Every credit call was made for a recorded tuple of a number that its
    receiver owns, and the tuples the poll loop still holds are recorded. *)
Definition credits_justified (st : State) (log : list (Z * Event)) : Prop :=
  (forall u ev, (u, ev) ∈ log ->
     get_user_by_number (ev_number ev) (st_db st) = Some u
     /\ ev_key ev ∈ map otp_key (otps (st_db st)))
  /\ (forall ev, ev ∈ poll_results st ->
        ev_key ev ∈ map otp_key (otps (st_db st))).

(** What Python fixes about iterating [set(l)]: each element of [l] comes
    exactly once. *)
Definition set_order (f : list str -> list str) : Prop :=
  forall l, NoDup (f l) /\ forall x, x ∈ f l <-> x ∈ l.

(** The numbers held by the inventory. *)
Definition inventory (db : DB) : list str :=
  map nr_number (available_numbers db).

(** The end-to-end scenario of the specification as a run: the inventory
    gets the number 1555000111, user 7 is assigned it, and two poll
    iterations fetch the same text. *)
Definition scenario_response : option Response :=
  Some (mkResponse 200 (lit "1555000111 ... OTP 9321")).

Definition scenario_ops : list Op :=
  [Startup (fun i => i) scenario_response;
   CbGetNumber 5 7%Z None;
   PollFetch (fun i => 10 + i) scenario_response; PollCredit;
   PollFetch (fun i => 20 + i) scenario_response; PollCredit].

(** *** What a code is, said without the search *)

(** The character before offset [i] of [w], if any. *)
Definition char_before (w : str) (i : nat) : option ascii :=
  match i with
  | 0 => None
  | S j => w !! j
  end.

(** In the string [w], the [k] characters from offset [i] are a code: 4 to
    8 digits with no word character next to them in [w].  The ends of [w]
    count as delimiters. *)
Definition code_at (w : str) (i k : nat) : Prop :=
  4 <= k <= 8
  /\ length (take k (drop i w)) = k
  /\ Forall (fun c => is_digit c = true) (take k (drop i w))
  /\ is_word_opt (char_before w i) = false
  /\ is_word_opt (w !! (i + k)) = false.

(** The leftmost code of [w]. *)
Definition first_code_at (w : str) (i k : nat) : Prop :=
  code_at w i k /\ forall j k', j < i -> ~ code_at w j k'.

(** [code_at] at the head of [s], as a test; [prev] is the character
    before [s]. *)
Definition code_here (prev : option ascii) (s : str) : bool :=
  let d := digit_run s in
  (4 <=? d) && (d <=? 8) && negb (is_word_opt prev)
  && negb (is_word_opt (s !! d)).

(** [code_here] at offset [i] of [s], where [prev] is the character
    before [s]. *)
Definition code_from (prev : option ascii) (s : str) (i : nat) : bool :=
  code_here (match i with 0 => prev | S j => s !! j end) (drop i s).

(** The two texts of the window-policy example of the specification, and
    the occurrence of the number at their head. *)
Definition near_code_text : str :=
  lit "+8801700000000 ... Your code is 4821 ...".

Definition far_code_text : str :=
  lit "+8801700000000" ++ repeat " "%char 500 ++ lit "4821 ...".

Definition head_occurrence : nat * nat := (0, 14).

(** The store [db'] differs from [db] at most in the inventory. *)
Definition same_but_numbers (db db' : DB) : Prop :=
  users db' = users db /\ earnings db' = earnings db
  /\ otps db' = otps db /\ withdrawals db' = withdrawals db.

(** The store [db'] differs from [db] at most in the OTP history. *)
Definition same_but_otps (db db' : DB) : Prop :=
  users db' = users db /\ earnings db' = earnings db
  /\ available_numbers db' = available_numbers db
  /\ withdrawals db' = withdrawals db.


(** *** Vocabulary of the further properties *)

(** The matches come left to right and do not overlap. *)
Fixpoint chained (ms : list (nat * nat)) : Prop :=
  match ms with
  | m1 :: rest =>
      match rest with
      | m2 :: _ => snd m1 <= fst m2
      | [] => True
      end /\ chained rest
  | [] => True
  end.


(** The stored fields of a history record, and the same fields of an
    emitted tuple. *)
Definition otp_fields (r : OtpRow) : str * str * str * str * str :=
  (o_number r, o_otp r, o_full_msg r, o_service r, o_country r).

Definition ev_fields (e : Event) : str * str * str * str * str :=
  (ev_number e, ev_otp e, ev_snippet e, ev_service e, ev_country e).


(** *** The read-only views of the handlers *)

(** The three counts of [cmd_stats]: all numbers, free numbers, users. *)
Definition count_free (db : DB) : nat :=
  length (List.filter is_free (available_numbers db)).

Definition stats (db : DB) : nat * nat * nat :=
  (length (available_numbers db), count_free db, size (users db)).

(** [cmd_stats] answers the admin only. *)
Definition cmd_stats (ADMIN_ID sender : Z) (st : State)
    : option (nat * nat * nat) :=
  if negb (sender =? ADMIN_ID)%Z then None else Some (stats (st_db st)).

(** [WHERE assigned_to=?]: a [NULL] owner matches no user. *)
Definition owned_by (u : Z) (r : NumberRow) : bool :=
  match nr_assigned_to r with
  | Some v => (v =? u)%Z
  | None => false
  end.

(** The query of [cb_account]: the numbers assigned to the user. *)
Definition account_numbers (u : Z) (db : DB) : list str :=
  map nr_number (List.filter (owned_by u) (available_numbers db)).


(** An inventory with two free numbers, as a sync leaves it. *)
Definition two_numbers_db : DB :=
  fst (sync_numbers_from_ivasms first_occurrences (fun i => i)
         (Some (mkResponse 200 (lit "+8801700000000 and 1555000111")))
         init_db).


(** The scenario continued at a reward of 300: user 7 opens the withdrawal
    dialogue and two messages asking for 200 each are handled before the
    dialogue is closed. *)
Definition two_requests_ops : list Op :=
  scenario_ops
  ++ [CbWithdraw 30 7%Z None true;
      HandleWithdrawText 31 7%Z (lit "bkash") (lit "017") 200%float false;
      HandleWithdrawText 32 7%Z (lit "nagad") (lit "018") 200%float true].


(** The columns of a request that no statement of the code updates. *)
Definition w_core (r : WithdrawalRow)
    : nat * Z * float * str * str * Time :=
  (w_id r, w_user_id r, w_amount r, w_method r, w_target r,
   w_requested_at r).

(** The columns of an inventory row that no statement updates. *)
Definition nr_core (r : NumberRow) : str * str * Time :=
  (nr_number r, nr_country r, nr_added_at r).

(** Nothing of [db] is missing in [db']: history records, inventory rows
    and requests are still there in the same order, with at most the
    owner and the status changed, and so are the users and the balance
    rows. *)
Definition db_grows (db db' : DB) : Prop :=
  (otps db `prefix_of` otps db')
  /\ (map nr_core (available_numbers db)
        `prefix_of` map nr_core (available_numbers db'))
  /\ (map w_core (withdrawals db) `prefix_of` map w_core (withdrawals db'))
  /\ users db ⊆ users db'
  /\ (forall u, is_Some (earnings db !! u) -> is_Some (earnings db' !! u)).


(** *** The session probe of [login_and_get_scraper] *)

Definition BASE : str := lit "https://www.ivasms.com".
Definition MY_SMS_URL : str := BASE ++ lit "/portal/live/my_sms".
Definition LOGIN_URL : str := BASE ++ lit "/login".

(** The test applied to the response [r] of a fetch of [MY_SMS_URL], on
    [r.status_code], [r.text] and the final [r.url]:
    [r.status_code == 200 and ("otp" in r.text.lower() or "sms" in
    r.text.lower() or "my_sms" in r.url or "portal" in r.url)]. *)
Definition session_valid (status : nat) (text url : str) : bool :=
  (status =? 200)
  && (contains (lit "otp") (lower text)
      || contains (lit "sms") (lower text)
      || contains (lit "my_sms") url
      || contains (lit "portal") url).

(** *** Vocabulary of the rounding lemmas *)

(** The second half of [binary_round_aux], the rounding of the
    specification of the doubles: the renormalisation after a bit was
    added to the mantissa, and the overflow test. *)
Definition finish (s : bool) (m e : Z) : spec_float :=
  let '(mrs, e') := shr_fexp prec emax m e loc_Exact in
  match shr_m mrs with
  | Z0 => S754_zero s
  | Zpos p =>
      if Z.leb e' (emax - prec) then S754_finite s p e' else S754_infinity s
  | Zneg _ => S754_nan
  end.

(** The result [R] has the sign [s] and at least, or at most, the magnitude
    of the valid double with mantissa [mb] and exponent [eb]. *)
Definition mag_ge (s : bool) (R : spec_float) (mb : positive) (eb : Z)
    : Prop :=
  R = S754_infinity s
  \/ exists m e, R = S754_finite s m e
                 /\ (eb < e \/ (e = eb /\ Zpos mb <= Zpos m))%Z.

Definition mag_le (s : bool) (R : spec_float) (mb : positive) (eb : Z)
    : Prop :=
  R = S754_zero s
  \/ exists m e, R = S754_finite s m e
                 /\ (e < eb \/ (e = eb /\ Zpos m <= Zpos mb))%Z.

(** *** Vocabulary of the ledger *)

(** The debit entries of [log] are the approved requests of [db]. *)
Definition debits_match (db : DB) (log : list (Z * Entry)) : Prop :=
  forall u wid a, (u, Debit wid a) ∈ log <-> approved_request db u wid a.

(** The credit entries of a ledger, as credit calls. *)
Definition credit_entries (log : list (Z * Entry)) : list (Z * Event) :=
  omap (fun c => match snd c with
                 | Credit ev => Some (fst c, ev)
                 | Debit _ _ => None
                 end) log.

(** *** The claims as the specification words them *)

(** The maximal runs of digits of a text, as pairs of offset and length;
    [pos] is the offset of [s] in the text and [skip] counts the digits
    still covered by the last run. *)
Fixpoint digit_runs_from (s : str) (pos skip : nat) : list (nat * nat) :=
  match s with
  | [] => []
  | _ :: r =>
      match skip with
      | S k => digit_runs_from r (S pos) k
      | O =>
          match digit_run s with
          | O => digit_runs_from r (S pos) 0
          | S d => (pos, S d) :: digit_runs_from r (S pos) d
          end
      end
  end.

(** The 4-8 digit runs of a text. *)
Definition runs_4_8 (text : str) : list (nat * nat) :=
  List.filter (fun r => (4 <=? snd r) && (snd r <=? 8))
    (digit_runs_from text 0 0).

(** A text whose only 4-8 digit run starts 406 characters after the number
    at its head, behind a run of nine digits that the window of 400
    characters cuts; and a text with a 4-8 digit run right after letters. *)
Definition cut_run_text : str :=
  lit "+8801700000000" ++ repeat " "%char 396 ++ lit "123456789 4821".

Definition glued_code_text : str := lit "+8801700000000 OTP4821".

(** Three polls that find a new code for the number of user 7 each, at a
    reward of 0.1, and then a request for 0.3 that the admin, user 1,
    approves. *)
Definition rounding_ops : list Op :=
  [Startup (fun i => i) scenario_response;
   CbGetNumber 5 7%Z None;
   PollFetch (fun i => 10 + i)
     (Some (mkResponse 200 (lit "1555000111 ... OTP 1111")));
   PollCredit;
   PollFetch (fun i => 20 + i)
     (Some (mkResponse 200 (lit "1555000111 ... OTP 2222")));
   PollCredit;
   PollFetch (fun i => 30 + i)
     (Some (mkResponse 200 (lit "1555000111 ... OTP 3333")));
   PollCredit;
   CbWithdraw 40 7%Z None true;
   HandleWithdrawText 41 7%Z (lit "bkash") (lit "017") 0.3%float true;
   CmdApprove 1%Z 1].

(** While a tuple for the number of user 7 waits in the poll loop, at a
    reward of 300, the user asks for 200 and the admin approves. *)
Definition interleaved_ops : list Op :=
  scenario_ops
  ++ [CbWithdraw 30 7%Z None true;
      HandleWithdrawText 31 7%Z (lit "bkash") (lit "017") 200%float true;
      PollFetch (fun i => 40 + i)
        (Some (mkResponse 200 (lit "1555000111 ... OTP 4444")));
      CmdApprove 1%Z 1].

(** * Properties *)

(** ** Double arithmetic

    The facts about the doubles that the ledger rests on, proved from the
    specification of the primitive operations: subtracting an amount from
    a balance that is not below it gives a result that is not below zero;
    adding an amount that is at least zero to a balance that is not below
    zero gives such a result again; adding such an amount does not lower a
    balance; and on numbers that are at least zero these operations give
    such numbers, never a NaN. *)

Section Doubles.

Local Open Scope Z_scope.

(** *** Signs *)

Lemma binary_round_aux_false m e l :
  SFltb (binary_round_aux prec emax false m e l) (S754_zero false) = false.
Proof.
  rewrite /binary_round_aux.
  destruct (shr_fexp prec emax m e l) as [mrs' e'].
  destruct (shr_fexp prec emax _ e' loc_Exact) as [mrs'' e''].
  destruct (shr_m mrs''); [done| |done].
  by destruct (Z.leb _ _).
Qed.

Lemma binary_round_false m e :
  SFltb (binary_round prec emax false m e) (S754_zero false) = false.
Proof.
  rewrite /binary_round. destruct (shl_align _ _ _) as [mz ez].
  apply binary_round_aux_false.
Qed.

Lemma binary_normalize_nonneg m e :
  (0 <= m)%Z ->
  SFltb (binary_normalize prec emax m e false) (S754_zero false) = false.
Proof.
  intros H. destruct m as [|p|p]; [done| |lia]. apply binary_round_false.
Qed.

(** The number of binary digits of a mantissa. *)
Lemma digits2_pos_bounds m :
  2 ^ (Zpos (digits2_pos m) - 1) <= Zpos m < 2 ^ Zpos (digits2_pos m).
Proof.
  induction m as [p IH|p IH|]; simpl digits2_pos.
  - rewrite Pos2Z.inj_succ. replace (Z.succ (Zpos (digits2_pos p)) - 1)
      with (Z.succ (Zpos (digits2_pos p) - 1)) by lia.
    rewrite !Z.pow_succ_r; lia.
  - rewrite Pos2Z.inj_succ. replace (Z.succ (Zpos (digits2_pos p)) - 1)
      with (Z.succ (Zpos (digits2_pos p) - 1)) by lia.
    rewrite !Z.pow_succ_r; lia.
  - simpl. lia.
Qed.

Lemma iter_xO_pow m d : Zpos (Pos.iter xO m d) = Zpos m * 2 ^ Zpos d.
Proof.
  induction d as [|d IH] using Pos.peano_ind.
  - simpl. lia.
  - rewrite Pos.iter_succ Pos2Z.inj_succ Z.pow_succ_r; [lia|].
    rewrite Pos2Z.inj_xO IH. lia.
Qed.

Lemma shl_align_value m e ez :
  ez <= e -> Zpos (fst (shl_align m e ez)) = Zpos m * 2 ^ (e - ez).
Proof.
  intros H. rewrite /shl_align.
  destruct (ez - e) as [|d|d] eqn:Hd; simpl.
  - replace (e - ez) with 0 by lia. lia.
  - lia.
  - rewrite iter_xO_pow. replace (e - ez) with (Zpos d) by lia. done.
Qed.

(** What validity says about a finite double. *)
Lemma bounded_facts m e :
  bounded prec emax m e = true ->
  -1074 <= e <= 971
  /\ Zpos (digits2_pos m) <= 53
  /\ (-1074 < e -> Zpos (digits2_pos m) = 53).
Proof.
  rewrite /bounded /canonical_mantissa /fexp /SpecFloat.emin /prec /emax.
  intros [H1 H2]%andb_prop. apply Z.eqb_eq in H1. apply Z.leb_le in H2. lia.
Qed.

Lemma pow2_53 : 2 ^ 53 = 2 * 2 ^ 52.
Proof. reflexivity. Qed.

(** On valid doubles of one sign the comparison by exponent, then by
    mantissa, is the comparison of the values. *)
Lemma aligned_compare m1 e1 m2 e2 :
  bounded prec emax m1 e1 = true -> bounded prec emax m2 e2 = true ->
  Z.compare (Zpos (fst (shl_align m1 e1 (Z.min e1 e2))))
            (Zpos (fst (shl_align m2 e2 (Z.min e1 e2))))
  = match Z.compare e1 e2 with
    | Lt => Lt
    | Gt => Gt
    | Eq => Pos.compare_cont Eq m1 m2
    end.
Proof.
  intros (Hb1 & Hd1 & Hn1)%bounded_facts (Hb2 & Hd2 & Hn2)%bounded_facts.
  rewrite !shl_align_value; [lia..|].
  pose proof (digits2_pos_bounds m1) as B1.
  pose proof (digits2_pos_bounds m2) as B2.
  destruct (Z.compare_spec e1 e2) as [He|He|He].
  - subst. by rewrite Z.min_id Z.sub_diag Z.pow_0_r !Z.mul_1_r.
  - rewrite Z.min_l; [lia|]. rewrite Z.sub_diag Z.pow_0_r Z.mul_1_r.
    apply Z.compare_lt_iff.
    rewrite Hn2 in B2; [lia|].
    assert (2 ^ 53 <= Zpos m2 * 2 ^ (e2 - e1)).
    { replace (e2 - e1) with (Z.succ (e2 - e1 - 1)) by lia.
      rewrite Z.pow_succ_r; [lia|].
      assert (1 <= 2 ^ (e2 - e1 - 1))
        by (apply Z.pow_le_mono_r with (b:=0); lia).
      change (53 - 1) with 52 in B2. rewrite pow2_53. nia. }
    assert (Zpos m1 < 2 ^ 53).
    { eapply Z.lt_le_trans; [apply B1|]. apply Z.pow_le_mono_r; lia. }
    lia.
  - rewrite Z.min_r; [lia|]. rewrite Z.sub_diag Z.pow_0_r Z.mul_1_r.
    apply Z.compare_gt_iff.
    rewrite Hn1 in B1; [lia|].
    assert (2 ^ 53 <= Zpos m1 * 2 ^ (e1 - e2)).
    { replace (e1 - e2) with (Z.succ (e1 - e2 - 1)) by lia.
      rewrite Z.pow_succ_r; [lia|].
      assert (1 <= 2 ^ (e1 - e2 - 1))
        by (apply Z.pow_le_mono_r with (b:=0); lia).
      change (53 - 1) with 52 in B1. rewrite pow2_53. nia. }
    assert (Zpos m2 < 2 ^ 53).
    { eapply Z.lt_le_trans; [apply B2|]. apply Z.pow_le_mono_r; lia. }
    lia.
Qed.

Lemma SFsub_not_below x y :
  valid_binary x = true -> valid_binary y = true ->
  SFltb x y = false ->
  SFltb (SF64sub x y) (S754_zero false) = false.
Proof.
  destruct x as [sx|sx| |sx mx ex], y as [sy|sy| |sy my ey];
    try done; try (by destruct sx, sy); try (by destruct sx);
    try (by destruct sy).
  intros Hx Hy. simpl in Hx, Hy.
  pose proof (aligned_compare mx ex my ey Hx Hy) as Hc.
  rewrite /SFltb /SFcompare /SF64sub /SFsub. intros Hlt.
  apply binary_normalize_nonneg.
  change (Pos.compare_cont Eq mx my)
    with (PosDef.Pos.compare_cont Eq mx my) in Hc.
  destruct sx, sy; simpl; try done; try lia;
    destruct (Z.compare ex ey);
    try destruct (PosDef.Pos.compare_cont Eq mx my); simpl in Hlt;
    try done;
    match type of Hc with
    | (?X ?= ?Y)%Z = _ =>
        pose proof (Z.compare_spec X Y) as Hs; rewrite Hc in Hs;
        inversion Hs; lia
    end.
Qed.

Lemma SFadd_not_below x y :
  SFltb x (S754_zero false) = false ->
  SFleb (S754_zero false) y = true ->
  SFltb (SF64add x y) (S754_zero false) = false.
Proof.
  destruct x as [sx|sx| |sx mx ex], y as [sy|sy| |sy my ey];
    try done; try (by destruct sx, sy); try (by destruct sx);
    try (by destruct sy).
  destruct sx; [done|]. destruct sy; [done|]. intros _ _.
  rewrite /SF64add /SFadd. apply binary_normalize_nonneg. simpl. lia.
Qed.

Lemma SFcompare_refl x : x <> S754_nan -> SFcompare x x = Some Eq.
Proof.
  destruct x as [s|s| |s m e]; try done; intros _; simpl.
  - by destruct s.
  - rewrite Z.compare_refl.
    assert (H : Pos.compare_cont Eq m m = Eq) by apply Pos.compare_refl.
    rewrite H. by destruct s.
Qed.

Lemma SFltb_irrefl x : SFltb x x = false.
Proof.
  rewrite /SFltb. destruct x as [s|s| |s m e]; [..|done|];
    by rewrite SFcompare_refl.
Qed.

(** *** Rounding *)

Lemma pow2_pos k : 0 <= k -> 0 < 2 ^ k.
Proof. intros. by apply Z.pow_pos_nonneg. Qed.

Lemma shr_1_m mrs : 0 <= shr_m mrs -> shr_m (shr_1 mrs) = shr_m mrs / 2.
Proof.
  destruct mrs as [m r s]. simpl. intros Hm.
  destruct m as [|[p|p|]|p]; simpl; try done; try lia.
  - rewrite Pos2Z.inj_xI. apply Z.div_unique with (r:=1); lia.
  - rewrite (Pos2Z.inj_xO p). apply Z.div_unique with (r:=0); lia.
Qed.

Lemma iter_shr_m p : forall mrs,
  0 <= shr_m mrs ->
  shr_m (SpecFloat.iter_pos shr_1 p mrs) = shr_m mrs / 2 ^ Zpos p.
Proof.
  induction p as [p IH|p IH|]; intros mrs Hm; simpl SpecFloat.iter_pos.
  - assert (H1 : 0 <= shr_m (shr_1 mrs)).
    { rewrite shr_1_m //. apply Z.div_pos; lia. }
    assert (H2 : 0 <= shr_m (SpecFloat.iter_pos shr_1 p (shr_1 mrs))).
    { rewrite IH //. apply Z.div_pos; [done|]. by apply pow2_pos. }
    rewrite IH // IH // shr_1_m //.
    rewrite !Z.div_div; try lia; try (by apply pow2_pos).
    f_equal. rewrite (Pos2Z.inj_xI p).
    replace (2 * Zpos p + 1) with (1 + Zpos p + Zpos p) by lia.
    rewrite !Z.pow_add_r; lia.
  - assert (H2 : 0 <= shr_m (SpecFloat.iter_pos shr_1 p mrs)).
    { rewrite IH //. apply Z.div_pos; [done|]. by apply pow2_pos. }
    rewrite IH // IH //.
    rewrite !Z.div_div; try lia; try (by apply pow2_pos).
    f_equal. rewrite (Pos2Z.inj_xO p).
    replace (2 * Zpos p) with (Zpos p + Zpos p) by lia.
    rewrite !Z.pow_add_r; lia.
  - rewrite shr_1_m //.
Qed.

(** A shift that loses no bit reports an exact result. *)
Lemma shr_1_exact mrs :
  0 <= shr_m mrs -> shr_r mrs = false -> shr_s mrs = false ->
  (2 | shr_m mrs) ->
  shr_r (shr_1 mrs) = false /\ shr_s (shr_1 mrs) = false.
Proof.
  destruct mrs as [m r s]. simpl. intros Hm -> -> [q Hq].
  destruct m as [|[p|p|]|p]; simpl; try done; lia.
Qed.

Lemma iter_shr_exact p : forall mrs,
  0 <= shr_m mrs -> shr_r mrs = false -> shr_s mrs = false ->
  (2 ^ Zpos p | shr_m mrs) ->
  shr_r (SpecFloat.iter_pos shr_1 p mrs) = false
  /\ shr_s (SpecFloat.iter_pos shr_1 p mrs) = false.
Proof.
  induction p as [p IH|p IH|]; intros mrs Hm Hr Hs Hd; simpl SpecFloat.iter_pos.
  - rewrite (Pos2Z.inj_xI p) in Hd.
    replace (2 * Zpos p + 1) with (1 + Zpos p + Zpos p) in Hd by lia.
    rewrite !Z.pow_add_r in Hd; try lia. destruct Hd as [q Hq].
    assert (H1 : 0 <= shr_m (shr_1 mrs)).
    { rewrite shr_1_m //. apply Z.div_pos; lia. }
    assert (E1 : shr_m (shr_1 mrs) = q * 2 ^ Zpos p * 2 ^ Zpos p).
    { rewrite shr_1_m // Hq. symmetry. apply Z.div_unique with (r:=0); lia. }
    destruct (shr_1_exact mrs Hm Hr Hs) as [Hr1 Hs1].
    { exists (q * 2 ^ Zpos p * 2 ^ Zpos p). lia. }
    assert (H2 : 0 <= shr_m (SpecFloat.iter_pos shr_1 p (shr_1 mrs))).
    { rewrite iter_shr_m //. apply Z.div_pos; [done|]. by apply pow2_pos. }
    destruct (IH (shr_1 mrs) H1 Hr1 Hs1) as [Hr2 Hs2].
    { exists (q * 2 ^ Zpos p). lia. }
    apply IH; try done.
    rewrite iter_shr_m // E1. exists q.
    rewrite Z.div_mul; [|done]. pose proof (pow2_pos (Zpos p)). lia.
  - rewrite (Pos2Z.inj_xO p) in Hd.
    replace (2 * Zpos p) with (Zpos p + Zpos p) in Hd by lia.
    rewrite !Z.pow_add_r in Hd; try lia. destruct Hd as [q Hq].
    assert (H2 : 0 <= shr_m (SpecFloat.iter_pos shr_1 p mrs)).
    { rewrite iter_shr_m //. apply Z.div_pos; [done|]. by apply pow2_pos. }
    destruct (IH mrs Hm Hr Hs) as [Hr2 Hs2].
    { exists (q * 2 ^ Zpos p). lia. }
    apply IH; try done.
    rewrite iter_shr_m // Hq. exists q.
    rewrite Z.mul_assoc Z.div_mul; [|done]. pose proof (pow2_pos (Zpos p)). lia.
  - by apply shr_1_exact.
Qed.

Lemma round_nearest_even_bounds m l :
  m <= round_nearest_even m l <= m + 1
  /\ (l = loc_Exact -> round_nearest_even m l = m).
Proof.
  destruct l as [|[| |]]; simpl; try destruct (Z.even m); split; try done; lia.
Qed.

Lemma digits2_pos_unique p k :
  2 ^ (k - 1) <= Zpos p < 2 ^ k -> Zpos (digits2_pos p) = k.
Proof.
  intros [H1 H2]. pose proof (digits2_pos_bounds p) as [B1 B2].
  destruct (Z.lt_trichotomy (Zpos (digits2_pos p)) k) as [Hlt|[Heq|Hgt]];
    [|done|].
  - assert (2 ^ Zpos (digits2_pos p) <= 2 ^ (k - 1))
      by (apply Z.pow_le_mono_r; lia). lia.
  - assert (2 ^ k <= 2 ^ (Zpos (digits2_pos p) - 1)).
    { apply Z.pow_le_mono_r; [lia|]. lia. }
    lia.
Qed.

Lemma digits2_pos_shift p q k :
  0 <= k -> Zpos q = Zpos p * 2 ^ k ->
  Zpos (digits2_pos q) = Zpos (digits2_pos p) + k.
Proof.
  intros Hk Hq. pose proof (digits2_pos_bounds p) as [B1 B2].
  pose proof (pow2_pos k Hk) as Hp.
  apply digits2_pos_unique. rewrite Hq.
  replace (Zpos (digits2_pos p) + k - 1) with (Zpos (digits2_pos p) - 1 + k)
    by lia.
  rewrite (Z.pow_add_r 2 (Zpos (digits2_pos p) - 1) k); [lia..|].
  rewrite (Z.pow_add_r 2 (Zpos (digits2_pos p)) k); [lia..|].
  split; [apply Z.mul_le_mono_nonneg_r; lia|apply Z.mul_lt_mono_pos_r; lia].
Qed.

(** More digits for a larger value, fewer for a smaller one. *)
Lemma digits2_pos_ge a b k :
  0 <= k -> Zpos b * 2 ^ k <= Zpos a ->
  Zpos (digits2_pos b) + k <= Zpos (digits2_pos a).
Proof.
  intros Hk H. pose proof (digits2_pos_bounds a) as [A1 A2].
  pose proof (digits2_pos_bounds b) as [B1 B2].
  pose proof (pow2_pos k Hk) as Hp.
  assert (H3 : 2 ^ (Zpos (digits2_pos b) - 1 + k) < 2 ^ Zpos (digits2_pos a)).
  { rewrite (Z.pow_add_r 2 (Zpos (digits2_pos b) - 1) k); [lia..|].
    eapply Z.le_lt_trans; [|exact A2]. eapply Z.le_trans; [|exact H].
    apply Z.mul_le_mono_nonneg_r; lia. }
  apply Z.pow_lt_mono_r_iff in H3; lia.
Qed.

Lemma digits2_pos_le a b k :
  0 <= k -> Zpos a <= Zpos b * 2 ^ k ->
  Zpos (digits2_pos a) <= Zpos (digits2_pos b) + k.
Proof.
  intros Hk H. pose proof (digits2_pos_bounds a) as [A1 A2].
  pose proof (digits2_pos_bounds b) as [B1 B2].
  pose proof (pow2_pos k Hk) as Hp.
  assert (H3 : 2 ^ (Zpos (digits2_pos a) - 1) < 2 ^ (Zpos (digits2_pos b) + k)).
  { rewrite (Z.pow_add_r 2 (Zpos (digits2_pos b)) k); [lia..|].
    eapply Z.le_lt_trans; [exact A1|]. eapply Z.le_lt_trans; [exact H|].
    apply Z.mul_lt_mono_pos_r; lia. }
  apply Z.pow_lt_mono_r_iff in H3; lia.
Qed.

Lemma binary_round_aux_finish s m e l :
  binary_round_aux prec emax s m e l
  = finish s
      (round_nearest_even (shr_m (fst (shr_fexp prec emax m e l)))
         (loc_of_shr_record (fst (shr_fexp prec emax m e l))))
      (snd (shr_fexp prec emax m e l)).
Proof.
  rewrite /binary_round_aux /finish. by destruct (shr_fexp _ _ m e l).
Qed.

Lemma fexp_eq z : fexp prec emax z = Z.max (z - 53) (-1074).
Proof. reflexivity. Qed.

Lemma finish_zero s e : -1074 <= e -> finish s 0 e = S754_zero s.
Proof.
  intros He. rewrite /finish /shr_fexp fexp_eq /= /shr.
  by destruct (Z.max _ _ - _) eqn:Hn; [| lia |].
Qed.

Lemma finish_small s p e :
  -1074 <= e -> Zpos (digits2_pos p) <= 53 ->
  finish s (Zpos p) e
  = if Z.leb e 971 then S754_finite s p e else S754_infinity s.
Proof.
  intros He Hd. rewrite /finish /shr_fexp fexp_eq /= /shr.
  by destruct (Z.max _ _ - _) eqn:Hn; [| lia |].
Qed.

Lemma finish_large s p e :
  -1074 <= e -> 53 < Zpos (digits2_pos p) ->
  exists q,
    2 ^ 52 <= Zpos q
    /\ Zpos q = Zpos p / 2 ^ (Zpos (digits2_pos p) - 53)
    /\ finish s (Zpos p) e
       = if Z.leb (e + (Zpos (digits2_pos p) - 53)) 971
         then S754_finite s q (e + (Zpos (digits2_pos p) - 53))
         else S754_infinity s.
Proof.
  intros He Hd. rewrite /finish /shr_fexp fexp_eq /= /shr.
  pose proof (digits2_pos_bounds p) as [B1 B2].
  destruct (Z.max _ _ - _) as [|k|k] eqn:Hn; [lia| |lia].
  assert (Hk : Zpos k = Zpos (digits2_pos p) - 53) by lia.
  rewrite iter_shr_m /=; [lia|]. rewrite -Hk.
  assert (Hq : 2 ^ 52 <= Zpos p / 2 ^ Zpos k).
  { apply Z.div_le_lower_bound; [by apply pow2_pos|].
    rewrite -Z.pow_add_r; [lia..|].
    replace (Zpos k + 52) with (Zpos (digits2_pos p) - 1) by lia. done. }
  destruct (Zpos p / 2 ^ Zpos k) as [|q|q] eqn:Hdiv; [lia| |lia].
  exists q. done.
Qed.

Lemma shl_align_snd m e ez : ez <= e -> snd (shl_align m e ez) = ez.
Proof.
  intros H. rewrite /shl_align.
  destruct (ez - e) as [|d|d] eqn:Hd; simpl; lia.
Qed.

Lemma shl_align_above m e ez : e < ez -> shl_align m e ez = (m, e).
Proof.
  intros H. rewrite /shl_align.
  destruct (ez - e) as [|d|d] eqn:Hd; [done..|lia].
Qed.

Lemma loc_of_exact mrs :
  shr_r mrs = false -> shr_s mrs = false -> loc_of_shr_record mrs = loc_Exact.
Proof. destruct mrs as [m r s]. simpl. by intros -> ->. Qed.

(** [binary_round] on the mantissa [M] at the exponent [ez]: the target
    exponent is [f]; the mantissa is scaled to it exactly when [f <= ez], and
    else cut to it and rounded, which adds at most one and nothing when no
    bit is lost. *)
Lemma binary_round_cases s M ez :
  let f := fexp prec emax (Zpos (digits2_pos M) + ez) in
  exists m2,
    binary_round prec emax s M ez = finish s m2 f
    /\ (f <= ez -> m2 = Zpos M * 2 ^ (ez - f))
    /\ (ez < f ->
        Zpos M / 2 ^ (f - ez) <= m2 <= Zpos M / 2 ^ (f - ez) + 1
        /\ ((2 ^ (f - ez) | Zpos M) -> m2 = Zpos M / 2 ^ (f - ez))).
Proof.
  intros f. rewrite /binary_round. fold f.
  destruct (Z_le_gt_dec f ez) as [Hle|Hgt].
  - pose proof (shl_align_value M ez f Hle) as Hv.
    pose proof (shl_align_snd M ez f Hle) as Hs.
    destruct (shl_align M ez f) as [mz ez']. simpl in Hv, Hs. subst ez'.
    exists (Zpos mz). split; [|split; [done|lia]].
    rewrite binary_round_aux_finish.
    assert (Hd : Zpos (digits2_pos mz) + f = Zpos (digits2_pos M) + ez).
    { rewrite (digits2_pos_shift M mz (ez - f)); [lia|done|lia]. }
    assert (Hsh : shr_fexp prec emax (Zpos mz) f loc_Exact
                  = ({| shr_m := Zpos mz; shr_r := false; shr_s := false |},
                     f)).
    { rewrite /shr_fexp /= Hd. fold f. by rewrite Z.sub_diag. }
    by rewrite Hsh.
  - rewrite shl_align_above; [lia|].
    rewrite binary_round_aux_finish.
    assert (Hsh : exists k, Zpos k = f - ez
                  /\ shr_fexp prec emax (Zpos M) ez loc_Exact
                     = (SpecFloat.iter_pos shr_1 k
                          {| shr_m := Zpos M; shr_r := false;
                             shr_s := false |}, f)).
    { rewrite /shr_fexp /=. fold f. rewrite /shr.
      destruct (f - ez) as [|k|k] eqn:Hk; [lia| |lia].
      exists k. split; [done|]. f_equal. lia. }
    destruct Hsh as (k & Hk & ->). simpl fst. simpl snd.
    rewrite -Hk.
    pose proof (iter_shr_m k {| shr_m := Zpos M; shr_r := false;
                                shr_s := false |}) as Hm.
    simpl in Hm. rewrite Hm; [lia|].
    eexists. split; [reflexivity|]. split; [lia|]. intros _.
    split; [apply round_nearest_even_bounds|].
    intros Hdiv. apply round_nearest_even_bounds.
    apply loc_of_exact; by apply iter_shr_exact.
Qed.

Lemma bounded_canonical m e :
  bounded prec emax m e = true ->
  Z.max (Zpos (digits2_pos m) + e - 53) (-1074) = e.
Proof.
  rewrite /bounded /canonical_mantissa fexp_eq.
  intros [H1 _]%andb_prop. by apply Z.eqb_eq in H1.
Qed.

Lemma finish_ge s q f mb eb :
  -1074 <= f -> eb <= 971 ->
  eb < f \/ (f = eb /\ Zpos mb <= Zpos q) ->
  mag_ge s (finish s (Zpos q) f) mb eb.
Proof.
  intros Hf He H.
  destruct (Z_le_gt_dec (Zpos (digits2_pos q)) 53) as [Hd|Hd].
  - rewrite finish_small //. destruct (Z.leb_spec f 971); [|by left].
    right. exists q, f. split; [done|]. lia.
  - destruct (finish_large s q f Hf) as (q' & H1 & H2 & ->); [lia|].
    destruct (Z.leb_spec (f + (Zpos (digits2_pos q) - 53)) 971); [|by left].
    right. eexists _, _. split; [done|]. lia.
Qed.

Lemma round_mag_ge s M ez mb eb :
  bounded prec emax mb eb = true -> ez <= eb ->
  Zpos mb * 2 ^ (eb - ez) <= Zpos M ->
  mag_ge s (binary_round prec emax s M ez) mb eb.
Proof.
  intros Hb Hez HM.
  pose proof (bounded_canonical _ _ Hb) as Hcan.
  apply bounded_facts in Hb as (Hb & Hd & Hn).
  pose proof (digits2_pos_ge M mb (eb - ez) ltac:(lia) HM) as Hdg.
  pose proof (digits2_pos_bounds M) as [M1 M2].
  destruct (binary_round_cases s M ez) as (m2 & -> & Hex & Hcut).
  rewrite fexp_eq in Hex, Hcut |- *.
  set (f := Z.max (Zpos (digits2_pos M) + ez - 53) (-1074)) in *.
  assert (Hf : eb <= f) by lia.
  destruct (Z_le_gt_dec f ez) as [Hle|Hgt].
  - rewrite (Hex Hle). assert (f = ez) by lia. assert (ez = eb) by lia.
    replace (ez - f) with 0 by lia. rewrite Z.pow_0_r Z.mul_1_r.
    apply finish_ge; [lia..|]. right. split; [lia|].
    replace (eb - ez) with 0 in HM by lia. lia.
  - destruct (Hcut ltac:(lia)) as [[Hlo Hhi] _].
    pose proof (pow2_pos (f - ez) ltac:(lia)) as Hp.
    destruct (Z.eq_dec f eb) as [Hfe|Hfe].
    + assert (Hm1 : Zpos mb <= Zpos M / 2 ^ (f - ez)).
      { apply Z.div_le_lower_bound; [done|]. rewrite Hfe. lia. }
      destruct m2 as [|q|q]; [lia| |lia].
      apply finish_ge; [lia..|]. right. lia.
    + assert (Hm1 : 2 ^ 52 <= Zpos M / 2 ^ (f - ez)).
      { apply Z.div_le_lower_bound; [done|].
        rewrite -Z.pow_add_r; [lia..|].
        replace (f - ez + 52) with (Zpos (digits2_pos M) - 1) by lia. done. }
      destruct m2 as [|q|q]; [lia| |lia].
      apply finish_ge; [lia..|]. left. lia.
Qed.

Lemma pow2_53_value : 2 ^ 53 = 9007199254740992.
Proof. reflexivity. Qed.

Lemma pow2_52_value : 2 ^ 52 = 4503599627370496.
Proof. reflexivity. Qed.

Lemma round_mag_le s M ez mb eb :
  bounded prec emax mb eb = true -> ez <= eb ->
  Zpos M <= Zpos mb * 2 ^ (eb - ez) ->
  mag_le s (binary_round prec emax s M ez) mb eb.
Proof.
  intros Hb Hez HM.
  pose proof (bounded_canonical _ _ Hb) as Hcan.
  apply bounded_facts in Hb as (Hb & Hd & Hn).
  pose proof (digits2_pos_le M mb (eb - ez) ltac:(lia) HM) as Hdg.
  pose proof (digits2_pos_bounds M) as [M1 M2].
  pose proof (digits2_pos_bounds mb) as [B1 B2].
  destruct (binary_round_cases s M ez) as (m2 & -> & Hex & Hcut).
  rewrite fexp_eq in Hex, Hcut |- *.
  set (f := Z.max (Zpos (digits2_pos M) + ez - 53) (-1074)) in *.
  assert (Hf : f <= eb) by lia.
  destruct (Z_le_gt_dec f ez) as [Hle|Hgt].
  - rewrite (Hex Hle).
    pose proof (pow2_pos (ez - f) ltac:(lia)) as Hp.
    destruct (Zpos M * 2 ^ (ez - f)) as [|q|q] eqn:Hq; [lia| |lia].
    symmetry in Hq.
    pose proof (digits2_pos_shift M q (ez - f) ltac:(lia) Hq) as Hdq.
    rewrite finish_small; [lia..|].
    destruct (Z.leb_spec f 971); [|lia].
    right. exists q, f. split; [done|].
    destruct (Z.eq_dec f eb) as [Hfe|Hfe]; [right|left; lia].
    split; [done|]. replace (ez - f) with 0 in Hq by lia.
    replace (eb - ez) with 0 in HM by lia. rewrite Z.pow_0_r in Hq, HM.
    lia.
  - destruct (Hcut ltac:(lia)) as [[Hlo Hhi] Hexact].
    pose proof (pow2_pos (f - ez) ltac:(lia)) as Hp.
    assert (Hm1 : Zpos M / 2 ^ (f - ez) < 2 ^ 53).
    { apply Z.div_lt_upper_bound; [done|].
      rewrite -Z.pow_add_r; [lia..|].
      eapply Z.lt_le_trans; [exact M2|]. apply Z.pow_le_mono_r; lia. }
    assert (Hm0 : 0 <= Zpos M / 2 ^ (f - ez)) by (apply Z.div_pos; lia).
    destruct m2 as [|q|q]; [left; apply finish_zero; lia| |lia].
    pose proof (digits2_pos_bounds q) as [Q1 Q2].
    destruct (Z.eq_dec f eb) as [Hfe|Hfe].
    + assert (Hq : Zpos q <= Zpos mb).
      { assert (Hup : Zpos M / 2 ^ (f - ez) <= Zpos mb).
        { apply Z.div_le_upper_bound; [done|]. rewrite Hfe. lia. }
        destruct (Z.eq_dec (Zpos M / 2 ^ (f - ez)) (Zpos mb)) as [He|He];
          [|lia].
        rewrite Hexact; [|lia].
        exists (Zpos mb).
        pose proof (Z.mul_div_le (Zpos M) (2 ^ (f - ez)) Hp) as Hmd.
        rewrite He in Hmd. rewrite -Hfe in HM. lia. }
      pose proof (digits2_pos_le q mb 0 ltac:(lia)) as Hdq.
      rewrite Z.pow_0_r Z.mul_1_r in Hdq. specialize (Hdq Hq).
      rewrite finish_small; [lia..|].
      destruct (Z.leb_spec f 971); [|lia].
      right. exists q, f. split; [done|]. right. done.
    + destruct (Z_le_gt_dec (Zpos (digits2_pos q)) 53) as [Hdq|Hdq].
      * rewrite finish_small; [lia..|].
        destruct (Z.leb_spec f 971); [|lia].
        right. exists q, f. split; [done|]. left. lia.
      * assert (Hq53 : Zpos q = 2 ^ 53).
        { assert (2 ^ 53 <= 2 ^ (Zpos (digits2_pos q) - 1))
            by (apply Z.pow_le_mono_r; lia). lia. }
        assert (Hd54 : Zpos (digits2_pos q) = 54).
        { apply digits2_pos_unique. rewrite Hq53. split; [done|].
          apply Z.pow_lt_mono_r; lia. }
        destruct (finish_large s q f ltac:(lia) ltac:(lia))
          as (q' & H1 & H2 & ->).
        rewrite Hd54 in H2 |- *. replace (54 - 53) with 1 in * by lia.
        destruct (Z.leb_spec (f + 1) 971); [|lia].
        right. exists q', (f + 1). split; [done|].
        destruct (Z.eq_dec (f + 1) eb) as [Hfe1|Hfe1]; [right|left; lia].
        split; [done|]. rewrite Hq53 in H2.
        assert (Hq' : Zpos q' = 2 ^ 52).
        { rewrite H2. symmetry. apply Z.div_unique with (r:=0); [lia|].
          rewrite pow2_53_value pow2_52_value. lia. }
        rewrite Hq'. rewrite Hn in B1; [lia|]. exact B1.
Qed.

Lemma mag_ge_not_below R mb eb :
  mag_ge false R mb eb -> SFltb R (S754_finite false mb eb) = false.
Proof.
  intros [->|(m & e & -> & H)]; [done|]. rewrite /SFltb /=.
  destruct H as [H|[-> H]].
  - apply Z.compare_gt_iff in H. by rewrite H.
  - rewrite Z.compare_refl.
    change (PosDef.Pos.compare_cont Eq m mb) with (Pos.compare m mb).
    destruct (Pos.compare_spec m mb); [done|lia|done].
Qed.

Lemma mag_le_not_below R mb eb :
  mag_le true R mb eb -> SFltb R (S754_finite true mb eb) = false.
Proof.
  intros [->|(m & e & -> & H)]; [done|]. rewrite /SFltb /=.
  destruct H as [H|[-> H]].
  - apply Z.compare_lt_iff in H. by rewrite H.
  - rewrite Z.compare_refl.
    change (PosDef.Pos.compare_cont Eq m mb) with (Pos.compare m mb).
    destruct (Pos.compare_spec m mb); [done|done|lia].
Qed.

Lemma not_below_zero_negative R m e :
  SFltb R (S754_zero false) = false ->
  SFltb R (S754_finite true m e) = false.
Proof. destruct R as [s|s| |s p q]; try done; by destruct s. Qed.

Lemma SFadd_not_lower B E :
  valid_binary B = true -> valid_binary E = true ->
  SFleb (S754_zero false) E = true ->
  SFltb (SF64add B E) B = false.
Proof.
  destruct B as [sb|sb| |sb mb eb], E as [se|se| |se me ee];
    try done; try (by intros; apply SFltb_irrefl);
    try (by destruct sb, se); try (by destruct sb); try (by destruct se).
  destruct se; [done|]. intros HB HE _. simpl in HB, HE.
  rewrite /SF64add /SFadd.
  pose proof (shl_align_value mb eb (Z.min eb ee) ltac:(lia)) as HX.
  pose proof (shl_align_value me ee (Z.min eb ee) ltac:(lia)) as HY.
  destruct sb; simpl cond_Zopp.
  - destruct (- Zpos (fst (shl_align mb eb (Z.min eb ee)))
              + Zpos (fst (shl_align me ee (Z.min eb ee)))) as [|M|M] eqn:HM;
      simpl.
    + done.
    + apply not_below_zero_negative, binary_round_false.
    + apply mag_le_not_below, round_mag_le; [done|lia|]. lia.
  - destruct (Zpos (fst (shl_align mb eb (Z.min eb ee)))
              + Zpos (fst (shl_align me ee (Z.min eb ee)))) as [|M|M] eqn:HM;
      simpl; [lia| |lia].
    apply mag_ge_not_below, round_mag_ge; [done|lia|]. lia.
Qed.

(** *** Results that are numbers *)

Lemma finish_number m e :
  0 <= m -> -1074 <= e ->
  SFleb (S754_zero false) (finish false m e) = true.
Proof.
  intros Hm He. destruct m as [|p|p]; [by rewrite finish_zero| |lia].
  destruct (Z_le_gt_dec (Zpos (digits2_pos p)) 53) as [Hd|Hd].
  - rewrite finish_small //. by destruct (Z.leb e 971).
  - destruct (finish_large false p e He) as (q & _ & _ & ->); [lia|].
    by destruct (Z.leb _ 971).
Qed.

Lemma binary_round_number M ez :
  SFleb (S754_zero false) (binary_round prec emax false M ez) = true.
Proof.
  destruct (binary_round_cases false M ez) as (m2 & -> & Hex & Hcut).
  rewrite fexp_eq in Hex, Hcut |- *.
  set (f := Z.max (Zpos (digits2_pos M) + ez - 53) (-1074)) in *.
  apply finish_number; [|lia].
  destruct (Z_le_gt_dec f ez) as [Hle|Hgt].
  - rewrite (Hex Hle). apply Z.mul_nonneg_nonneg; [lia|].
    apply Z.pow_nonneg. lia.
  - destruct (Hcut ltac:(lia)) as [[H _] _].
    eapply Z.le_trans; [|apply H]. apply Z.div_pos; [lia|].
    apply pow2_pos. lia.
Qed.

Lemma binary_normalize_number m e :
  0 <= m ->
  SFleb (S754_zero false) (binary_normalize prec emax m e false) = true.
Proof.
  intros H. destruct m as [|p|p]; [done| |lia]. apply binary_round_number.
Qed.

Lemma SFadd_number x y :
  SFleb (S754_zero false) x = true -> SFleb (S754_zero false) y = true ->
  SFleb (S754_zero false) (SF64add x y) = true.
Proof.
  destruct x as [sx|sx| |sx mx ex], y as [sy|sy| |sy my ey];
    try done; try (by destruct sx, sy); try (by destruct sx);
    try (by destruct sy).
  destruct sx; [done|]. destruct sy; [done|]. intros _ _.
  rewrite /SF64add /SFadd. apply binary_normalize_number. simpl. lia.
Qed.

Lemma SFsub_number x y :
  valid_binary x = true -> valid_binary y = true ->
  SFleb (S754_zero false) x = true ->
  SFltb y (S754_infinity false) = true ->
  SFltb x y = false ->
  SFleb (S754_zero false) (SF64sub x y) = true.
Proof.
  destruct x as [sx|sx| |sx mx ex], y as [sy|sy| |sy my ey];
    try done; try (by destruct sx, sy); try (by destruct sx);
    try (by destruct sy).
  intros Hx Hy. simpl in Hx, Hy.
  pose proof (aligned_compare mx ex my ey Hx Hy) as Hc.
  destruct sx; [done|]. intros _ _.
  rewrite /SFltb /SFcompare /SF64sub /SFsub. intros Hlt.
  apply binary_normalize_number.
  change (Pos.compare_cont Eq mx my)
    with (PosDef.Pos.compare_cont Eq mx my) in Hc.
  destruct sy; simpl; try done; try lia;
    destruct (Z.compare ex ey);
    try destruct (PosDef.Pos.compare_cont Eq mx my); simpl in Hlt;
    try done;
    match type of Hc with
    | (?X ?= ?Y)%Z = _ =>
        pose proof (Z.compare_spec X Y) as Hs; rewrite Hc in Hs;
        inversion Hs; lia
    end.
Qed.

(** *** The facts, on the primitive doubles *)

(** Subtracting an amount from a balance that is not below it leaves a
    result that is not below zero. *)
Lemma sub_not_below (b a : float) :
  (b <? a)%float = false -> (b - a <? 0)%float = false.
Proof.
  rewrite !ltb_spec sub_spec. apply SFsub_not_below; apply Prim2SF_valid.
Qed.

(** Adding an amount that is at least zero to a balance that is not below
    zero leaves a result that is not below zero. *)
Lemma add_not_below (b e : float) :
  (b <? 0)%float = false -> (0 <=? e)%float = true ->
  (b + e <? 0)%float = false.
Proof. rewrite !ltb_spec leb_spec add_spec. apply SFadd_not_below. Qed.

(** Adding an amount that is at least zero does not lower a balance. *)
Lemma add_not_lower (b e : float) :
  (0 <=? e)%float = true -> (b + e <? b)%float = false.
Proof.
  rewrite leb_spec ltb_spec add_spec.
  apply SFadd_not_lower; apply Prim2SF_valid.
Qed.

Lemma ltb_irrefl (x : float) : (x <? x)%float = false.
Proof. rewrite ltb_spec. apply SFltb_irrefl. Qed.

(** The same for numbers: adding a number that is at least zero to such a
    number gives such a number, never a NaN; and so does subtracting an
    amount below infinity from a number that is at least zero and not
    below the amount. *)
Lemma add_number (b e : float) :
  (0 <=? b)%float = true -> (0 <=? e)%float = true ->
  (0 <=? b + e)%float = true.
Proof. rewrite !leb_spec add_spec. apply SFadd_number. Qed.

Lemma sub_number (b a : float) :
  (0 <=? b)%float = true -> (a <? infinity)%float = true ->
  (b <? a)%float = false -> (0 <=? b - a)%float = true.
Proof.
  rewrite !leb_spec !ltb_spec sub_spec.
  apply SFsub_number; apply Prim2SF_valid.
Qed.

End Doubles.

(** ** Frame lemmas: which tables a helper leaves alone *)

Lemma ensure_user_frame now u n db :
  available_numbers (ensure_user now u n db) = available_numbers db
  /\ otps (ensure_user now u n db) = otps db
  /\ withdrawals (ensure_user now u n db) = withdrawals db.
Proof. by rewrite /ensure_user. Qed.

Lemma credit_user_frame u a db :
  users (credit_user u a db) = users db
  /\ available_numbers (credit_user u a db) = available_numbers db
  /\ otps (credit_user u a db) = otps db
  /\ withdrawals (credit_user u a db) = withdrawals db.
Proof. by rewrite /credit_user. Qed.

Lemma add_available_number_frame now num c db :
  same_but_numbers db (add_available_number now num c db).
Proof. rewrite /add_available_number. by destruct (find_number _ _). Qed.

Lemma sync_loop_frame clock nums : forall i db added,
  same_but_numbers db (fst (sync_loop clock nums i db added)).
Proof.
  induction nums as [|num rest IH]; intros i db added; simpl; [done|].
  destruct (IH (S i) (add_available_number (clock i) num (lit "UNKNOWN") db)
              (S added)) as (H1 & H2 & H3 & H4).
  destruct (add_available_number_frame (clock i) num (lit "UNKNOWN") db)
    as (G1 & G2 & G3 & G4).
  split; [|split; [|split]]; congruence.
Qed.

Lemma sync_frame set_iter clock resp db :
  same_but_numbers db
    (fst (sync_numbers_from_ivasms set_iter clock resp db)).
Proof.
  rewrite /sync_numbers_from_ivasms. destruct resp; [|done].
  apply sync_loop_frame.
Qed.

Lemma assign_frame u db :
  same_but_numbers db (fst (assign_number_to_user u db)).
Proof. rewrite /assign_number_to_user. by destruct (List.find _ _). Qed.

Lemma create_withdrawal_frame now u a m t db :
  users (fst (create_withdrawal now u a m t db)) = users db
  /\ earnings (fst (create_withdrawal now u a m t db)) = earnings db
  /\ available_numbers (fst (create_withdrawal now u a m t db))
     = available_numbers db
  /\ otps (fst (create_withdrawal now u a m t db)) = otps db.
Proof. done. Qed.

Lemma approve_frame wid db :
  users (fst (approve_withdrawal wid db)) = users db
  /\ available_numbers (fst (approve_withdrawal wid db))
     = available_numbers db
  /\ otps (fst (approve_withdrawal wid db)) = otps db.
Proof.
  rewrite /approve_withdrawal. destruct (List.find _ _); [|done].
  destruct (earnings db !! _); [|done]. by destruct (PrimFloat.ltb _ _).
Qed.

Lemma save_otp_frame now n o f s c db :
  same_but_otps db (save_otp now n o f s c db).
Proof. done. Qed.

Lemma otp_loop_frame clock text ms : forall i db results,
  same_but_otps db (fst (otp_loop clock text ms i db results)).
Proof.
  induction ms as [|m ms IH]; intros i db results; simpl; [done|].
  destruct (occurrence text m) as [[[number otp] snippet]|]; [|apply IH].
  destruct (otp_exists number otp db); [apply IH|].
  destruct (IH (S i)
              (save_otp (clock i) number otp snippet
                 (detect_service snippet) (lit "UNKNOWN") db)
              (results ++ [mkEvent number otp snippet
                             (detect_service snippet) (lit "UNKNOWN")]))
    as (H1 & H2 & H3 & H4).
  split; [|split; [|split]]; [rewrite H1|rewrite H2|rewrite H3|rewrite H4];
    done.
Qed.

Lemma process_frame clock resp db :
  same_but_otps db
    (fst (process_incoming_otps_single_scraper clock resp db)).
Proof.
  rewrite /process_incoming_otps_single_scraper. destruct resp; [|done].
  destruct (negb _); [done|]. apply otp_loop_frame.
Qed.

(** ** The OTP history holds each (number, otp) pair once *)

Lemma otp_exists_true number otp db :
  otp_exists number otp db = true <-> (number, otp) ∈ map otp_key (otps db).
Proof.
  rewrite /otp_exists existsb_exists list_elem_of_fmap. split.
  - intros (r & Hin & Hb). exists r. apply andb_prop in Hb as [H1 H2].
    apply bool_decide_eq_true in H1, H2. rewrite /otp_key H1 H2.
    split; [done|]. by apply list_elem_of_In.
  - intros (r & Hk & Hin). exists r. split; [by apply list_elem_of_In|].
    rewrite /otp_key in Hk. injection Hk as -> ->.
    rewrite /str_eqb !bool_decide_true //.
Qed.

(** The loop keeps the history free of duplicates, and so the results. *)
Lemma otp_loop_unique clock text ms : forall i db results,
  NoDup (map otp_key (otps db)) ->
  NoDup (map ev_key results) ->
  (forall k, k ∈ map ev_key results -> k ∈ map otp_key (otps db)) ->
  NoDup (map otp_key (otps (fst (otp_loop clock text ms i db results))))
  /\ NoDup (map ev_key (snd (otp_loop clock text ms i db results)))
  /\ (forall k,
        k ∈ map ev_key (snd (otp_loop clock text ms i db results)) ->
        k ∈ map otp_key
              (otps (fst (otp_loop clock text ms i db results)))).
Proof.
  induction ms as [|m ms IH]; intros i db results Hdb Hres Hsub; simpl;
    [done|].
  destruct (occurrence text m) as [[[number otp] snippet]|];
    [|by apply IH].
  destruct (otp_exists number otp db) eqn:Hex; [by apply IH|].
  assert (Hnew : (number, otp) ∉ map otp_key (otps db)).
  { intros Hin. apply otp_exists_true in Hin. congruence. }
  apply IH; simpl.
  - rewrite map_app. apply NoDup_app. split; [done|]. split.
    + intros k Hk Hk'. apply list_elem_of_singleton in Hk'. by subst.
    + apply NoDup_singleton.
  - rewrite map_app. apply NoDup_app. split; [done|]. split.
    + intros k Hk Hk'. apply list_elem_of_singleton in Hk'. subst.
      by apply Hnew, Hsub.
    + apply NoDup_singleton.
  - intros k. rewrite !map_app !elem_of_app. intros [Hk|Hk]; [|by right].
    left. by apply Hsub.
Qed.

Lemma process_unique clock resp db :
  NoDup (map otp_key (otps db)) ->
  NoDup (map otp_key
           (otps (fst (process_incoming_otps_single_scraper clock resp db))))
  /\ NoDup (map ev_key
              (snd (process_incoming_otps_single_scraper clock resp db))).
Proof.
  intros Hdb. rewrite /process_incoming_otps_single_scraper.
  destruct resp as [r|]; [|split; [done|apply NoDup_nil_2]].
  destruct (negb _); [split; [done|apply NoDup_nil_2]|].
  destruct (otp_loop_unique clock (r_text r) (finditer_number (r_text r))
              0 db []) as (H1 & H2 & _); try done.
  - apply NoDup_nil_2.
  - intros k Hk. by apply elem_of_nil in Hk.
Qed.

(** ** Referential consistency of the store *)

Lemma insert_or_ignore_is_Some {V} k (v : V) (t : gmap Z V) j :
  is_Some (insert_or_ignore k v t !! j) <-> j = k \/ is_Some (t !! j).
Proof.
  rewrite /insert_or_ignore. destruct (t !! k) eqn:Hk.
  - split; [by right|]. intros [->|Hj]; [by rewrite Hk|done].
  - rewrite lookup_insert. case_decide; subst.
    + split; [by left|done].
    + split; [by right|]. by intros [->|Hj].
Qed.

Lemma insert_or_ignore_present {V} k (v : V) (t : gmap Z V) :
  is_Some (t !! k) -> insert_or_ignore k v t = t.
Proof. rewrite /insert_or_ignore. by intros [x ->]. Qed.

Lemma find_number_None n rows :
  find_number n rows = None <-> n ∉ map nr_number rows.
Proof.
  rewrite /find_number. induction rows as [|r rows IH]; simpl.
  - split; [|done]. intros _ H. by apply elem_of_nil in H.
  - rewrite /str_eqb. case_bool_decide as Hr.
    + split; [done|]. intros H. exfalso. apply H. rewrite Hr. left.
    + rewrite IH not_elem_of_cons. intuition congruence.
Qed.

Lemma find_number_Some n rows r :
  find_number n rows = Some r -> r ∈ rows /\ nr_number r = n.
Proof.
  rewrite /find_number. intros H. apply find_some in H as [Hin Hb].
  apply bool_decide_eq_true in Hb. split; [by apply list_elem_of_In|done].
Qed.

Lemma db_consistent_frame db db' :
  users db' = users db -> earnings db' = earnings db ->
  available_numbers db' = available_numbers db ->
  withdrawals db' = withdrawals db ->
  db_consistent db -> db_consistent db'.
Proof. rewrite /db_consistent. by intros -> -> -> ->. Qed.

Lemma ensure_user_consistent now u n db :
  db_consistent db -> db_consistent (ensure_user now u n db).
Proof.
  intros (Hk & Hn & Hw & Hid & Hnd). rewrite /db_consistent /ensure_user /=.
  repeat split; try done.
  - rewrite !insert_or_ignore_is_Some. rewrite Hk. tauto.
  - rewrite !insert_or_ignore_is_Some. rewrite Hk. tauto.
  - intros r v Hr Hv. rewrite insert_or_ignore_is_Some. right. by eapply Hn.
  - intros w Hin. rewrite insert_or_ignore_is_Some. right. by apply Hw.
Qed.

Lemma ensure_user_registered now u n db :
  is_Some (users (ensure_user now u n db) !! u)
  /\ is_Some (earnings (ensure_user now u n db) !! u).
Proof.
  rewrite /ensure_user /= !insert_or_ignore_is_Some. by split; left.
Qed.

Lemma add_available_number_consistent now num c db :
  db_consistent db -> db_consistent (add_available_number now num c db).
Proof.
  intros (Hk & Hn & Hw & Hid & Hnd). rewrite /add_available_number.
  destruct (find_number num (available_numbers db)) eqn:Hf; [done|].
  apply find_number_None in Hf.
  rewrite /db_consistent /=. repeat split; try done; try apply Hk.
  - intros r u. rewrite elem_of_app list_elem_of_singleton.
    intros [Hr| ->] Hu; [by eapply Hn|done].
  - rewrite map_app. apply NoDup_app. split; [done|]. split.
    + intros x Hx Hx'. apply list_elem_of_singleton in Hx'. by subst.
    + apply NoDup_singleton.
Qed.

Lemma sync_loop_consistent clock nums : forall i db added,
  db_consistent db -> db_consistent (fst (sync_loop clock nums i db added)).
Proof.
  induction nums as [|num rest IH]; intros i db added H; simpl; [done|].
  by apply IH, add_available_number_consistent.
Qed.

Lemma sync_consistent iter clock resp db :
  db_consistent db ->
  db_consistent (fst (sync_numbers_from_ivasms iter clock resp db)).
Proof.
  rewrite /sync_numbers_from_ivasms. destruct resp; [|done].
  apply sync_loop_consistent.
Qed.

Lemma assign_row_number u n r : nr_number (assign_row u n r) = nr_number r.
Proof. rewrite /assign_row. by destruct (str_eqb _ _). Qed.

Lemma assign_consistent u db :
  is_Some (users db !! u) ->
  db_consistent db -> db_consistent (fst (assign_number_to_user u db)).
Proof.
  intros Hu (Hk & Hn & Hw & Hid & Hnd). rewrite /assign_number_to_user.
  destruct (List.find is_free (available_numbers db)) as [row|]; [|done].
  rewrite /db_consistent /=. repeat split; try done; try apply Hk.
  - intros r v Hr Hv. apply list_elem_of_fmap in Hr as (r0 & -> & Hr0).
    rewrite /assign_row in Hv. destruct (str_eqb _ _).
    + simpl in Hv. by injection Hv as <-.
    + by eapply Hn.
  - rewrite map_map (map_ext _ nr_number) //.
    intros r. apply assign_row_number.
Qed.

Lemma credit_consistent u a db :
  is_Some (users db !! u) ->
  db_consistent db -> db_consistent (credit_user u a db).
Proof.
  intros Hu (Hk & Hn & Hw & Hid & Hnd).
  assert (He : is_Some (earnings db !! u)) by by apply Hk.
  rewrite /db_consistent /credit_user /= insert_or_ignore_present //.
  repeat split; try done.
  - rewrite lookup_alter_is_Some. apply Hk.
  - rewrite lookup_alter_is_Some. apply Hk.
  - intros w Hin. rewrite lookup_alter_is_Some. by apply Hw.
Qed.

Lemma create_withdrawal_consistent now u a m t db :
  is_Some (earnings db !! u) ->
  db_consistent db ->
  db_consistent (fst (create_withdrawal now u a m t db)).
Proof.
  intros Hu (Hk & Hn & Hw & Hid & Hnd).
  rewrite /db_consistent /=. repeat split; try done; try apply Hk.
  - intros w. rewrite elem_of_app list_elem_of_singleton.
    intros [Hin| ->]; [by apply Hw|done].
  - by rewrite map_app length_app /= seq_app Hid.
Qed.

Lemma approve_row_fields wid r :
  w_id (approve_row wid r) = w_id r
  /\ w_user_id (approve_row wid r) = w_user_id r
  /\ w_amount (approve_row wid r) = w_amount r.
Proof. rewrite /approve_row. by destruct (_ =? _). Qed.

Lemma approve_consistent wid db :
  db_consistent db -> db_consistent (fst (approve_withdrawal wid db)).
Proof.
  intros (Hk & Hn & Hw & Hid & Hnd). rewrite /approve_withdrawal.
  destruct (List.find _ _) as [row|]; [|done].
  destruct (earnings db !! w_user_id row); [|done].
  destruct (PrimFloat.ltb _ _); [done|].
  rewrite /db_consistent /=. repeat split; try done.
  - rewrite lookup_alter_is_Some. apply Hk.
  - rewrite lookup_alter_is_Some. apply Hk.
  - intros w Hin. apply list_elem_of_fmap in Hin as (w0 & -> & Hin).
    destruct (approve_row_fields wid w0) as (_ & -> & _).
    rewrite lookup_alter_is_Some. by apply Hw.
  - rewrite length_map -Hid map_map. apply map_ext.
    intros r. by destruct (approve_row_fields wid r) as (-> & _).
Qed.

Lemma process_consistent clock resp db :
  db_consistent db ->
  db_consistent (fst (process_incoming_otps_single_scraper clock resp db)).
Proof.
  destruct (process_frame clock resp db) as (H1 & H2 & H3 & H4).
  by apply db_consistent_frame.
Qed.

(** The owner found by the poll loop is a registered user. *)
Lemma credit_of_registered ev db u :
  db_consistent db -> credit_of ev db = Some u -> is_Some (users db !! u).
Proof.
  intros (_ & Hn & _) H. rewrite /credit_of /get_user_by_number in H.
  destruct (find_number _ _) as [row|] eqn:Hf; [|done].
  apply find_number_Some in Hf as [Hin _].
  destruct (nr_assigned_to row) as [v|] eqn:Hv; [|done]. simpl in H.
  destruct (v =? 0)%Z; [done|]. injection H as <-. by eapply Hn.
Qed.

(** ** Approval of a withdrawal *)

Lemma Status_eqb_eq a b : Status_eqb a b = true <-> a = b.
Proof. by destruct a, b. Qed.

Lemma find_pending_Some wid db row :
  List.find (is_pending_id wid) (withdrawals db) = Some row ->
  names_pending wid db row.
Proof.
  intros H. apply find_some in H as [Hin Hb].
  apply andb_prop in Hb as [H1 H2]. apply Nat.eqb_eq in H1.
  apply Status_eqb_eq in H2. split; [by apply list_elem_of_In|done].
Qed.

Lemma find_pending_None wid db :
  List.find (is_pending_id wid) (withdrawals db) = None ->
  forall row, ~ names_pending wid db row.
Proof.
  intros H row (Hin & Hid & Hst).
  apply list_elem_of_In in Hin.
  pose proof (find_none _ _ H _ Hin) as Hb.
  by rewrite /is_pending_id Hid Hst Nat.eqb_refl in Hb.
Qed.

(** Request ids are row numbers, so an id names at most one row. *)
Lemma withdrawal_id_unique db r1 r2 :
  db_consistent db ->
  r1 ∈ withdrawals db -> r2 ∈ withdrawals db -> w_id r1 = w_id r2 ->
  r1 = r2.
Proof.
  intros (_ & _ & _ & Hid & _) H1 H2 Heq.
  apply list_elem_of_lookup in H1 as [i Hi], H2 as [j Hj].
  assert (Hnd : NoDup (map w_id (withdrawals db))).
  { rewrite Hid. apply NoDup_ListNoDup, List.seq_NoDup. }
  assert (i = j); [|by simplify_eq].
  eapply NoDup_lookup; [exact Hnd|..].
  - by rewrite list_lookup_fmap Hi.
  - by rewrite list_lookup_fmap Hj /= Heq.
Qed.



(** ** The ledger *)

Lemma get_balance_ensure_user now u n v db :
  get_balance v (ensure_user now u n db) = get_balance v db.
Proof.
  rewrite /get_balance /ensure_user /= /insert_or_ignore.
  destruct (earnings db !! u) eqn:Hu; [done|].
  rewrite lookup_insert. case_decide; [|done]. subst. by rewrite Hu.
Qed.

Lemma get_balance_credit u a v db :
  get_balance v (credit_user u a db)
  = if (v =? u)%Z then (get_balance u db + a)%float else get_balance v db.
Proof.
  rewrite /get_balance /credit_user /= /insert_or_ignore.
  destruct (Z.eqb_spec v u) as [Hv|Hv].
  - subst. destruct (earnings db !! u) eqn:Hu.
    + by rewrite lookup_alter_eq Hu.
    + by rewrite lookup_alter_eq lookup_insert_eq.
  - rewrite lookup_alter_ne; [done|].
    destruct (earnings db !! u); [done|]. by rewrite lookup_insert_ne.
Qed.

Lemma get_balance_ext db db' :
  earnings db' = earnings db -> forall u, get_balance u db' = get_balance u db.
Proof. intros He u. by rewrite /get_balance He. Qed.

(** The balances after an approval: the requester's is lowered by the
    amount when the approval succeeds, and nothing else changes. *)
Lemma get_balance_approve wid db v :
  get_balance v (fst (approve_withdrawal wid db))
  = match List.find (is_pending_id wid) (withdrawals db) with
    | Some row =>
        if snd (approve_withdrawal wid db) && (v =? w_user_id row)%Z
        then (get_balance v db - w_amount row)%float
        else get_balance v db
    | None => get_balance v db
    end.
Proof.
  rewrite /approve_withdrawal.
  destruct (List.find _ _) as [row|]; [|done].
  destruct (earnings db !! w_user_id row) as [bal|] eqn:Hb; [|done].
  destruct (PrimFloat.ltb _ _); [done|]. rewrite /get_balance /=.
  destruct (Z.eqb_spec v (w_user_id row)) as [->|Hne].
  - by rewrite lookup_alter_eq Hb.
  - by rewrite lookup_alter_ne.
Qed.

Lemma ensure_user_nonneg now u n db :
  balances_nonneg db -> balances_nonneg (ensure_user now u n db).
Proof. intros H v. rewrite get_balance_ensure_user. apply H. Qed.

Lemma balances_nonneg_frame db db' :
  earnings db' = earnings db -> balances_nonneg db -> balances_nonneg db'.
Proof. intros He H v. rewrite (get_balance_ext _ _ He). apply H. Qed.

Lemma credit_nonneg u a db :
  (0 <=? a)%float = true ->
  balances_nonneg db -> balances_nonneg (credit_user u a db).
Proof.
  intros Ha H v. rewrite get_balance_credit.
  destruct (v =? u)%Z; [|apply H]. by apply add_not_below.
Qed.

Lemma approve_nonneg wid db :
  balances_nonneg db -> balances_nonneg (fst (approve_withdrawal wid db)).
Proof.
  intros H. rewrite /approve_withdrawal.
  destruct (List.find _ _) as [row|]; [|done].
  destruct (earnings db !! w_user_id row) as [bal|] eqn:Hb; [|done].
  destruct (PrimFloat.ltb _ _) eqn:Hlt; [done|].
  intros u. specialize (H u). rewrite /get_balance /= in H |- *.
  destruct (Z.eqb_spec (w_user_id row) u) as [<-|Hne].
  - rewrite lookup_alter_eq Hb /=. by apply sub_not_below.
  - by rewrite lookup_alter_ne.
Qed.

(** *** Balances that are numbers *)

Lemma ledger_numbers_frame db db' :
  earnings db' = earnings db -> withdrawals db' = withdrawals db ->
  ledger_numbers db -> ledger_numbers db'.
Proof.
  intros He Hw [Hb Ha]. split.
  - intros u. rewrite (get_balance_ext _ _ He). apply Hb.
  - by rewrite Hw.
Qed.

Lemma ensure_user_numbers now u n db :
  ledger_numbers db -> ledger_numbers (ensure_user now u n db).
Proof.
  intros [Hb Ha]. split; [|done].
  intros v. rewrite get_balance_ensure_user. apply Hb.
Qed.

Lemma credit_numbers u a db :
  (0 <=? a)%float = true ->
  ledger_numbers db -> ledger_numbers (credit_user u a db).
Proof.
  intros Hpos [Hb Ha]. split; [|done].
  intros v. rewrite get_balance_credit.
  destruct (v =? u)%Z; [|apply Hb]. by apply add_number.
Qed.

Lemma create_withdrawal_numbers now u a m t db :
  (a <? infinity)%float = true ->
  ledger_numbers db ->
  ledger_numbers (fst (create_withdrawal now u a m t db)).
Proof.
  intros Hfin [Hb Ha]. split; [done|].
  intros row [Hin|Hin]%elem_of_app; [by apply Ha|].
  apply list_elem_of_singleton in Hin. by subst row.
Qed.

Lemma approve_numbers wid db :
  ledger_numbers db -> ledger_numbers (fst (approve_withdrawal wid db)).
Proof.
  intros [Hb Ha]. rewrite /approve_withdrawal.
  destruct (List.find _ _) as [row|] eqn:Hf; [|done].
  destruct (earnings db !! w_user_id row) as [bal|] eqn:He; [|done].
  destruct (PrimFloat.ltb _ _) eqn:Hlt; [done|].
  apply find_pending_Some in Hf as [Hrow _].
  split.
  - intros u. specialize (Hb u). rewrite /get_balance /= in Hb |- *.
    destruct (Z.eqb_spec (w_user_id row) u) as [<-|Hne].
    + rewrite lookup_alter_eq He /=. rewrite He /= in Hb.
      apply sub_number; [done|by apply Ha|done].
    + by rewrite lookup_alter_ne.
  - simpl. intros r (r0 & -> & Hr0)%list_elem_of_fmap.
    destruct (approve_row_fields wid r0) as (_ & _ & ->). by apply Ha.
Qed.

(** *** Approved requests *)

Lemma approved_request_frame db db' u wid a :
  withdrawals db' = withdrawals db ->
  approved_request db' u wid a <-> approved_request db u wid a.
Proof. intros Hw. by rewrite /approved_request Hw. Qed.

(** A new request is pending: it adds nothing to the approved ones. *)
Lemma approved_request_create now v a0 m t db u wid a :
  approved_request (fst (create_withdrawal now v a0 m t db)) u wid a
  <-> approved_request db u wid a.
Proof.
  rewrite /approved_request /=. split.
  - intros (row & Hin & H). apply elem_of_app in Hin as [Hin|Hin].
    + by exists row.
    + apply list_elem_of_singleton in Hin. subst row.
      by destruct H as (_ & _ & _ & H).
  - intros (row & Hin & H). exists row. split; [|done].
    apply elem_of_app. by left.
Qed.

(** ** Owners and history records are permanent *)

Lemma get_user_by_number_ext db db' :
  available_numbers db' = available_numbers db ->
  forall n, get_user_by_number n db' = get_user_by_number n db.
Proof. intros He n. by rewrite /get_user_by_number He. Qed.

Lemma find_number_app n rows1 rows2 :
  find_number n (rows1 ++ rows2)
  = match find_number n rows1 with
    | Some r => Some r
    | None => find_number n rows2
    end.
Proof.
  rewrite /find_number. induction rows1 as [|r rows1 IH]; simpl; [done|].
  by destruct (str_eqb (nr_number r) n).
Qed.

Lemma add_available_number_owner now num c db n u :
  get_user_by_number n db = Some u ->
  get_user_by_number n (add_available_number now num c db) = Some u.
Proof.
  rewrite /add_available_number.
  destruct (find_number num (available_numbers db)); [done|].
  rewrite /get_user_by_number /= find_number_app.
  by destruct (find_number n (available_numbers db)).
Qed.

Lemma sync_loop_owner clock nums n u : forall i db added,
  get_user_by_number n db = Some u ->
  get_user_by_number n (fst (sync_loop clock nums i db added)) = Some u.
Proof.
  induction nums as [|num rest IH]; intros i db added H; simpl; [done|].
  by apply IH, add_available_number_owner.
Qed.

Lemma sync_owner iter clock resp db n u :
  get_user_by_number n db = Some u ->
  get_user_by_number n
    (fst (sync_numbers_from_ivasms iter clock resp db)) = Some u.
Proof.
  rewrite /sync_numbers_from_ivasms. destruct resp; [|done].
  apply sync_loop_owner.
Qed.

Lemma find_number_map_assign v c n rows :
  find_number n (map (assign_row v c) rows)
  = option_map (assign_row v c) (find_number n rows).
Proof.
  rewrite /find_number. induction rows as [|r rows IH]; simpl; [done|].
  rewrite assign_row_number. by destruct (str_eqb (nr_number r) n).
Qed.

(** A number that has an owner is not the one [assign_number_to_user]
    picks, so its row is left as it is. *)
Lemma assign_owner v db n u :
  db_consistent db ->
  get_user_by_number n db = Some u ->
  get_user_by_number n (fst (assign_number_to_user v db)) = Some u.
Proof.
  intros (_ & _ & _ & _ & Hnd) H. rewrite /assign_number_to_user.
  destruct (List.find is_free (available_numbers db)) as [row|] eqn:Hf;
    [|done].
  rewrite /get_user_by_number /= find_number_map_assign.
  rewrite /get_user_by_number in H.
  destruct (find_number n (available_numbers db)) as [r|] eqn:Hr; [|done].
  simpl. rewrite /assign_row /str_eqb. case_bool_decide as Heq; [|done].
  exfalso. apply find_number_Some in Hr as [Hrin Hrn].
  apply find_some in Hf as [Hin Hfree]. apply list_elem_of_In in Hin.
  assert (r = row).
  { apply list_elem_of_lookup in Hrin as [i Hi], Hin as [j Hj].
    assert (i = j); [|by simplify_eq].
    eapply NoDup_lookup; [exact Hnd|..].
    - by rewrite list_lookup_fmap Hi.
    - by rewrite list_lookup_fmap Hj /= Heq. }
  subst. rewrite /is_free H in Hfree. done.
Qed.

Lemma otp_loop_history clock text ms k : forall i db results,
  k ∈ map otp_key (otps db) ->
  k ∈ map otp_key (otps (fst (otp_loop clock text ms i db results))).
Proof.
  induction ms as [|m ms IH]; intros i db results H; simpl; [done|].
  destruct (occurrence text m) as [[[number otp] snippet]|]; [|by apply IH].
  destruct (otp_exists number otp db); [by apply IH|].
  apply IH. simpl. rewrite map_app elem_of_app. by left.
Qed.

Lemma process_history clock resp db k :
  k ∈ map otp_key (otps db) ->
  k ∈ map otp_key
        (otps (fst (process_incoming_otps_single_scraper clock resp db))).
Proof.
  rewrite /process_incoming_otps_single_scraper. destruct resp; [|done].
  destruct (negb _); [done|]. apply otp_loop_history.
Qed.

Lemma process_results_recorded clock resp db ev :
  ev ∈ snd (process_incoming_otps_single_scraper clock resp db) ->
  ev_key ev ∈ map otp_key
    (otps (fst (process_incoming_otps_single_scraper clock resp db))).
Proof.
  rewrite /process_incoming_otps_single_scraper.
  destruct resp as [r|]; [|by intros H%elem_of_nil].
  destruct (negb _); [by intros H%elem_of_nil|]. intros Hev.
  assert (Hsub : forall k, k ∈ map ev_key
      (snd (otp_loop clock (r_text r) (finditer_number (r_text r)) 0 db []))
    -> k ∈ map otp_key (otps
      (fst (otp_loop clock (r_text r) (finditer_number (r_text r)) 0 db
              [])))).
  { clear Hev. generalize (finditer_number (r_text r)) 0.
    assert (Hgen : forall ms i db0 res0,
      (forall k, k ∈ map ev_key res0 -> k ∈ map otp_key (otps db0)) ->
      forall k, k ∈ map ev_key (snd (otp_loop clock (r_text r) ms i db0 res0))
        -> k ∈ map otp_key
             (otps (fst (otp_loop clock (r_text r) ms i db0 res0)))).
    { induction ms as [|m ms IH]; intros i db0 res0 H0; simpl; [done|].
      destruct (occurrence (r_text r) m) as [[[number otp] snippet]|];
        [|by apply IH].
      destruct (otp_exists number otp db0); [by apply IH|].
      apply IH. intros k. simpl. rewrite !map_app !elem_of_app.
      intros [Hk|Hk]; [left; by apply H0|by right]. }
    intros ms i. apply Hgen. by intros k H%elem_of_nil. }
  apply Hsub. apply list_elem_of_fmap. by exists ev.
Qed.

Lemma credit_of_owner ev db u :
  credit_of ev db = Some u -> get_user_by_number (ev_number ev) db = Some u.
Proof.
  rewrite /credit_of. destruct (get_user_by_number _ _) as [v|]; [|done].
  simpl. destruct (v =? 0)%Z; [done|]. by intros [= ->].
Qed.

(** The loop credits the owner of the number, unless it is user 0. *)
Lemma credit_of_spec ev db u :
  credit_of ev db = Some u
  <-> get_user_by_number (ev_number ev) db = Some u /\ u <> 0%Z.
Proof.
  rewrite /credit_of. destruct (get_user_by_number _ _) as [v|]; simpl.
  - destruct (Z.eqb_spec v 0) as [->|Hv]; split.
    + done.
    + by intros [[= <-] H].
    + by intros [= ->].
    + by intros [[= ->] _].
  - split; [done|]. by intros [? _].
Qed.



(** What [approve_withdrawal] does on a consistent store. *)
Lemma approve_withdrawal_cases wid db :
  db_consistent db ->
  match List.find (is_pending_id wid) (withdrawals db) with
  | None =>
      (forall row, ~ names_pending wid db row)
      /\ approve_withdrawal wid db = (db, false)
  | Some row =>
      names_pending wid db row
      /\ if (get_balance (w_user_id row) db <? w_amount row)%float
         then approve_withdrawal wid db = (db, false)
         else approve_withdrawal wid db
              = (set_withdrawals (map (approve_row wid))
                   (set_earnings
                      (alter (fun b => (b - w_amount row)%float)
                         (w_user_id row)) db), true)
  end.
Proof.
  intros Hc. rewrite /approve_withdrawal.
  destruct (List.find _ _) as [row|] eqn:Hf.
  - pose proof (find_pending_Some _ _ _ Hf) as Hp. split; [done|].
    destruct Hc as (_ & _ & Hw & _). destruct Hp as (Hin & _).
    destruct (Hw row Hin) as [bal Hb]. rewrite /get_balance Hb.
    by destruct (PrimFloat.ltb _ _).
  - split; [|done]. by apply find_pending_None.
Qed.

Lemma credit_of_ext db db' ev :
  available_numbers db' = available_numbers db ->
  credit_of ev db' = credit_of ev db.
Proof.
  intros H. by rewrite /credit_of (get_user_by_number_ext _ _ H).
Qed.

(** ** Runs of the bot *)

Section Runs.

(** The configuration and the set iteration order are fixed but
    arbitrary. *)
Variable ADMIN_ID : Z.
Variable EARN_PER_SMS : float.
Variable MIN_WITHDRAWAL : float.
Variable set_iter : list str -> list str.

Local Abbreviation step :=
  (step ADMIN_ID EARN_PER_SMS MIN_WITHDRAWAL set_iter).
Local Abbreviation run :=
  (run ADMIN_ID EARN_PER_SMS MIN_WITHDRAWAL set_iter).
Local Abbreviation credit_calls :=
  (credit_calls ADMIN_ID EARN_PER_SMS MIN_WITHDRAWAL set_iter).

(** *** The history along a run *)

(** Only the head of a poll iteration writes to the OTP history. *)
Lemma step_otps op st :
  otps (st_db (step op st)) = otps (st_db st)
  \/ exists clock resp,
       op = PollFetch clock resp
       /\ st_db (step op st)
          = fst (process_incoming_otps_single_scraper clock resp (st_db st)).
Proof.
  destruct op; simpl.
  - left. rewrite /on_startup /=.
    by destruct (sync_frame set_iter (fun i => clock (S i)) resp
      (ensure_user (clock 0) ADMIN_ID (Some (lit "admin")) (st_db st)))
      as (_ & _ & -> & _).
  - by left.
  - left. rewrite /cb_get_number /=.
    by destruct (assign_frame user_id
      (ensure_user now user_id username (st_db st))) as (_ & _ & -> & _).
  - by left.
  - left. rewrite /cb_withdraw. destruct (PrimFloat.ltb _ _); [done|].
    by destruct delivered.
  - left. rewrite /handle_withdraw_text. destruct (negb _); [done|].
    destruct (user_states st !! user_id) as [[]|]; [|done].
    by destruct (PrimFloat.ltb _ _), finished.
  - left. rewrite /cmd_sync. destruct (negb _); [done|]. simpl.
    by destruct (sync_frame set_iter clock resp (st_db st))
      as (_ & _ & -> & _).
  - left. rewrite /cmd_approve. destruct (negb _); [done|]. simpl.
    by destruct (approve_frame wid (st_db st)) as (_ & _ & ->).
  - rewrite /poll_fetch. destruct (poll_results st); [|by left].
    right. exists clock, resp. split; [done|].
    by destruct (process_incoming_otps_single_scraper _ _ _).
  - left. rewrite /poll_credit. destruct (poll_results st); [done|]. simpl.
    by destruct (credit_of _ _).
Qed.

Lemma step_unique op st :
  NoDup (map otp_key (otps (st_db st))) ->
  NoDup (map otp_key (otps (st_db (step op st)))).
Proof.
  intros H. destruct (step_otps op st) as [->|(clock & resp & _ & ->)];
    [done|].
  by apply process_unique.
Qed.

Lemma run_unique ops : forall st,
  NoDup (map otp_key (otps (st_db st))) ->
  NoDup (map otp_key (otps (st_db (run ops st)))).
Proof.
  induction ops as [|op ops IH]; intros st H; simpl; [done|].
  by apply IH, step_unique.
Qed.

(** C1. Along any run of the bot from a new store, whatever snapshots the
    poll iterations are fed (the same one again, or overlapping ones), the
    OTP history never holds two records with the same (number, otp) pair;
    and the result list of one processing call, run from any store so
    reached, holds each (number, otp) pair at most once. *)
Theorem otp_history_pairs_unique :
  forall ops,
    let st := run ops init_state in
    NoDup (map otp_key (otps (st_db st)))
    /\ forall clock resp,
         let r := process_incoming_otps_single_scraper clock resp (st_db st) in
         NoDup (map otp_key (otps (fst r))) /\ NoDup (map ev_key (snd r)).
Proof.
  intros ops st.
  assert (H : NoDup (map otp_key (otps (st_db st)))).
  { apply run_unique. apply NoDup_nil_2. }
  split; [done|]. intros clock resp r. by apply process_unique.
Qed.

(** *** Consistency along a run *)

Lemma init_consistent : state_consistent init_state.
Proof.
  rewrite /state_consistent /db_consistent /=.
  split; [split|].
  - intros u. rewrite !lookup_empty. split; by intros [x Hx].
  - split; [|split; [|split; [done|apply NoDup_nil_2]]].
    + intros r u H. by apply elem_of_nil in H.
    + intros w H. by apply elem_of_nil in H.
  - intros u. rewrite lookup_empty. by intros [x Hx].
Qed.

Lemma step_consistent op st :
  state_consistent st -> state_consistent (step op st).
Proof.
  intros [Hdb Hus]. destruct op; simpl.
  - split; simpl.
    + by apply sync_consistent, ensure_user_consistent.
    + intros u. rewrite lookup_empty. by intros [x Hx].
  - split; simpl; [by apply ensure_user_consistent|].
    intros u Hu. rewrite insert_or_ignore_is_Some. right. by apply Hus.
  - split; simpl.
    + apply assign_consistent; [|by apply ensure_user_consistent].
      apply ensure_user_registered.
    + intros u Hu.
      destruct (assign_frame user_id
        (ensure_user now user_id username (st_db st))) as (_ & -> & _).
      rewrite insert_or_ignore_is_Some. right. by apply Hus.
  - split; simpl; [by apply ensure_user_consistent|].
    intros u Hu. rewrite insert_or_ignore_is_Some. right. by apply Hus.
  - rewrite /cb_withdraw.
    assert (Hc : state_consistent
                   (set_db (ensure_user now user_id username) st)).
    { split; simpl; [by apply ensure_user_consistent|].
      intros u Hu. rewrite insert_or_ignore_is_Some. right. by apply Hus. }
    destruct (PrimFloat.ltb _ _); [done|]. destruct delivered; [|done].
    destruct Hc as [Hc1 Hc2]. split; [done|]. simpl. intros u.
    rewrite lookup_insert_is_Some. intros [<-|[_ Hu]].
    + apply insert_or_ignore_is_Some. by left.
    + rewrite insert_or_ignore_is_Some. right. by apply Hus.
  - rewrite /handle_withdraw_text. destruct (negb _); [done|].
    destruct (user_states st !! user_id) as [[]|] eqn:Hst; [|done].
    assert (Hc : state_consistent
      (if (get_balance user_id (st_db st) <? amount)%float then st
       else set_db (fun db => fst (create_withdrawal now user_id amount
                                     (lower method) target db)) st)).
    { destruct (PrimFloat.ltb _ _); [done|]. split.
      - apply create_withdrawal_consistent; [|done]. apply Hus.
        by rewrite Hst.
      - done. }
    destruct finished; [|done]. destruct Hc as [Hc1 Hc2].
    split; [done|]. simpl. intros u. rewrite lookup_delete_is_Some.
    intros [_ Hu]. by apply Hc2.
  - rewrite /cmd_sync. destruct (negb _); [done|]. split; simpl.
    + by apply sync_consistent.
    + intros u Hu.
      destruct (sync_frame set_iter clock resp (st_db st))
        as (_ & -> & _).
      by apply Hus.
  - rewrite /cmd_approve. destruct (negb _); [done|]. split; simpl.
    + by apply approve_consistent.
    + intros u Hu. pose proof (approve_consistent wid _ Hdb) as (Hk & _).
      destruct (approve_frame wid (st_db st)) as (Hu' & _).
      apply Hk. rewrite Hu'. destruct Hdb as (Hk0 & _). by apply Hk0, Hus.
  - rewrite /poll_fetch. destruct (poll_results st); [|done].
    pose proof (process_consistent clock resp _ Hdb) as Hc.
    destruct (process_frame clock resp (st_db st)) as (_ & He & _).
    destruct (process_incoming_otps_single_scraper _ _ _) as [db' res].
    split; [done|]. simpl in *. intros u Hu. rewrite He. by apply Hus.
  - rewrite /poll_credit. destruct (poll_results st) as [|ev rest]; [done|].
    destruct (credit_of ev (st_db st)) as [owner|] eqn:Ho; [|done].
    pose proof (credit_of_registered _ _ _ Hdb Ho) as Hreg.
    split; simpl; [by apply credit_consistent|].
    intros u Hu. rewrite lookup_alter_is_Some insert_or_ignore_is_Some.
    right. by apply Hus.
Qed.

Lemma run_consistent ops : forall st,
  state_consistent st -> state_consistent (run ops st).
Proof.
  induction ops as [|op ops IH]; intros st H; simpl; [done|].
  by apply IH, step_consistent.
Qed.

Lemma reachable_consistent ops : state_consistent (run ops init_state).
Proof. apply run_consistent, init_consistent. Qed.

(** C10. In every store the bot can reach, registering a user id that is
    already present changes nothing at all, whatever username is passed:
    the stored username, creation time and balance stay as they are.
    Registering an absent id adds one [users] row with the given username
    and time and one [earnings] row with balance 0, and touches no other
    row or table. *)
Theorem ensure_user_keeps_existing :
  forall ops now user_id username,
    let db := st_db (run ops init_state) in
    let db' := ensure_user now user_id username db in
    available_numbers db' = available_numbers db
    /\ otps db' = otps db
    /\ withdrawals db' = withdrawals db
    /\ match users db !! user_id with
       | Some row =>
           db' = db
           /\ users db' !! user_id = Some row
           /\ get_balance user_id db' = get_balance user_id db
       | None =>
           earnings db !! user_id = None
           /\ users db' = <[user_id := (username, now)]> (users db)
           /\ earnings db' = <[user_id := 0%float]> (earnings db)
           /\ size (users db') = S (size (users db))
           /\ size (earnings db') = S (size (earnings db))
           /\ get_balance user_id db' = 0%float
       end.
Proof.
  intros ops now u n db db'.
  destruct (reachable_consistent ops) as [(Hk & _) _].
  fold db in Hk. do 3 (split; [done|]).
  destruct (users db !! u) as [row|] eqn:Hu.
  - assert (He : is_Some (earnings db !! u)) by (apply Hk; by rewrite Hu).
    assert (Heq : db' = db).
    { rewrite /db' /ensure_user /set_earnings /set_users /=.
      rewrite !insert_or_ignore_present //; [by rewrite Hu..|].
      by destruct db. }
    by rewrite Heq.
  - assert (He : earnings db !! u = None).
    { apply eq_None_not_Some. intros H. apply Hk in H. rewrite Hu in H.
      by destruct H. }
    rewrite /db' /ensure_user /get_balance /= /insert_or_ignore Hu He.
    rewrite lookup_insert_eq !map_size_insert_None //.
Qed.

(** *** The ledger along a run *)

Local Abbreviation ledger :=
  (ledger ADMIN_ID EARN_PER_SMS MIN_WITHDRAWAL set_iter).
Local Abbreviation step_ledger := (step_ledger ADMIN_ID).
Local Abbreviation replay := (replay EARN_PER_SMS).
Local Abbreviation apply_entry := (apply_entry EARN_PER_SMS).

Lemma replay_app u log1 log2 :
  replay u (log1 ++ log2)
  = fold_left apply_entry
      (map snd (List.filter (fun c => (fst c =? u)%Z) log2)) (replay u log1).
Proof. by rewrite /replay List.filter_app map_app fold_left_app. Qed.

(** The balances are what the ledger makes of them, step after step. *)
Lemma step_replay op st log :
  (forall u, get_balance u (st_db st) = replay u log) ->
  forall u, get_balance u (st_db (step op st))
            = replay u (log ++ step_ledger op st).
Proof.
  intros H u. rewrite replay_app -H.
  assert (Hsame : forall db',
    earnings db' = earnings (st_db st) ->
    get_balance u db' = get_balance u (st_db st)).
  { intros db' He. by apply get_balance_ext. }
  destruct op; simpl.
  - rewrite -(get_balance_ensure_user (clock 0) ADMIN_ID
               (Some (lit "admin")) u (st_db st)).
    apply get_balance_ext.
    by destruct (sync_frame set_iter (fun i => clock (S i)) resp
      (ensure_user (clock 0) ADMIN_ID (Some (lit "admin")) (st_db st)))
      as (_ & -> & _).
  - apply get_balance_ensure_user.
  - rewrite -(get_balance_ensure_user now user_id username u (st_db st)).
    apply get_balance_ext.
    by destruct (assign_frame user_id
      (ensure_user now user_id username (st_db st))) as (_ & -> & _).
  - apply get_balance_ensure_user.
  - rewrite /cb_withdraw. destruct (PrimFloat.ltb _ _); [|destruct delivered];
      apply get_balance_ensure_user.
  - rewrite /handle_withdraw_text. destruct (negb _); [done|].
    destruct (user_states st !! user_id) as [[]|]; [|done].
    by destruct (PrimFloat.ltb _ _), finished.
  - rewrite /cmd_sync. destruct (negb _); [done|]. apply Hsame. simpl.
    by destruct (sync_frame set_iter clock resp (st_db st))
      as (_ & -> & _).
  - rewrite /cmd_approve. destruct (negb _); [done|]. simpl.
    rewrite get_balance_approve.
    destruct (List.find _ _) as [row|]; [|done].
    destruct (snd (approve_withdrawal wid (st_db st))); [|done]. simpl.
    rewrite (Z.eqb_sym (w_user_id row) u).
    by destruct (u =? w_user_id row)%Z.
  - rewrite /poll_fetch. destruct (poll_results st); [|done].
    destruct (process_frame clock resp (st_db st)) as (_ & He & _).
    destruct (process_incoming_otps_single_scraper _ _ _).
    by apply Hsame.
  - rewrite /poll_credit. destruct (poll_results st) as [|ev rest]; [done|].
    destruct (credit_of ev (st_db st)) as [owner|]; simpl; [|done].
    rewrite get_balance_credit (Z.eqb_sym owner u).
    destruct (Z.eqb_spec u owner) as [->|_]; done.
Qed.

Lemma run_replay ops : forall st log,
  (forall u, get_balance u (st_db st) = replay u log) ->
  forall u, get_balance u (st_db (run ops st))
            = replay u (log ++ ledger ops st).
Proof.
  induction ops as [|op ops IH]; intros st log H u; simpl.
  - by rewrite app_nil_r.
  - rewrite app_assoc. apply IH. by apply step_replay.
Qed.

(** The credit entries of the ledger are the credit calls. *)
Lemma step_credit_entries op st :
  credit_entries (step_ledger op st) = step_credit op st.
Proof.
  destruct op; simpl; try done.
  - destruct (negb _); [done|]. destruct (List.find _ _); [|done].
    by destruct (snd _).
  - destruct (poll_results st) as [|ev rest]; [done|].
    by destruct (credit_of ev (st_db st)).
Qed.

Lemma credit_entries_app log1 log2 :
  credit_entries (log1 ++ log2) = credit_entries log1 ++ credit_entries log2.
Proof. apply omap_app. Qed.

Lemma ledger_credit_calls ops : forall st,
  credit_entries (ledger ops st) = credit_calls ops st.
Proof.
  induction ops as [|op ops IH]; intros st; simpl; [done|].
  by rewrite credit_entries_app step_credit_entries IH.
Qed.

Lemma credit_entries_elem u ev log :
  (u, ev) ∈ credit_entries log <-> (u, Credit ev) ∈ log.
Proof.
  rewrite /credit_entries list_elem_of_omap. split.
  - intros ([v e] & Hin & He). simpl in He.
    destruct e as [ev'|wid a]; [|done]. by injection He as -> ->.
  - intros Hin. by exists (u, Credit ev).
Qed.

(** *** The debits along a run *)

Lemma debit_ids_elem wid log :
  wid ∈ debit_ids log <-> exists u a, (u, Debit wid a) ∈ log.
Proof.
  rewrite /debit_ids list_elem_of_omap. split.
  - intros ([u e] & Hin & He). simpl in He.
    destruct e as [ev|wid' a]; [done|]. injection He as ->. by exists u, a.
  - intros (u & a & Hin). by exists (u, Debit wid a).
Qed.

Lemma debits_match_frame db db' log :
  withdrawals db' = withdrawals db ->
  debits_match db log -> debits_match db' log.
Proof.
  intros Hw H u wid a. rewrite (approved_request_frame db db' u wid a Hw).
  apply H.
Qed.

(** A successful approval adds the request it names, and no other, to the
    approved ones. *)
Lemma approved_request_approve wid db row u wid' a :
  db_consistent db -> names_pending wid db row ->
  approved_request
    (set_withdrawals (map (approve_row wid))
       (set_earnings (alter (fun b => (b - w_amount row)%float)
                        (w_user_id row)) db)) u wid' a
  <-> approved_request db u wid' a
      \/ (wid' = wid /\ u = w_user_id row /\ a = w_amount row).
Proof.
  intros Hc (Hin & Hid & Hst). rewrite /approved_request /=. split.
  - intros (r' & Hin' & H1 & H2 & H3 & H4).
    apply list_elem_of_fmap in Hin' as (r0 & -> & Hin0).
    destruct (approve_row_fields wid r0) as (E1 & E2 & E3).
    rewrite E1 in H1. rewrite E2 in H2. rewrite E3 in H3.
    destruct (Nat.eqb_spec (w_id r0) wid) as [He|He].
    + right. assert (r0 = row).
      { apply (withdrawal_id_unique db); [done..|congruence]. }
      subst r0. split; [congruence|]. by split.
    + left. exists r0. rewrite /approve_row in H4.
      apply Nat.eqb_neq in He. by rewrite He in H4.
  - intros [(r0 & Hin0 & H1 & H2 & H3 & H4)|(-> & -> & ->)].
    + exists (approve_row wid r0).
      destruct (approve_row_fields wid r0) as (E1 & E2 & E3).
      split; [apply list_elem_of_fmap; by exists r0|].
      rewrite E1 E2 E3. do 3 (split; [done|]).
      rewrite /approve_row. by destruct (_ =? _).
    + exists (approve_row wid row).
      destruct (approve_row_fields wid row) as (E1 & E2 & E3).
      split; [apply list_elem_of_fmap; by exists row|].
      rewrite E1 E2 E3. do 3 (split; [done|]).
      by rewrite /approve_row Hid Nat.eqb_refl.
Qed.

Lemma step_debits op st log :
  state_consistent st ->
  debits_match (st_db st) log /\ NoDup (debit_ids log) ->
  debits_match (st_db (step op st)) (log ++ step_ledger op st)
  /\ NoDup (debit_ids (log ++ step_ledger op st)).
Proof.
  intros [Hc _] [H Hnd].
  assert (Hsame : forall db',
    withdrawals db' = withdrawals (st_db st) ->
    debits_match db' (log ++ []) /\ NoDup (debit_ids (log ++ []))).
  { intros db' Hw. rewrite app_nil_r. split; [|done].
    by apply (debits_match_frame (st_db st)). }
  destruct op; simpl.
  - apply Hsame.
    by destruct (sync_frame set_iter (fun i => clock (S i)) resp
      (ensure_user (clock 0) ADMIN_ID (Some (lit "admin")) (st_db st)))
      as (_ & _ & _ & ->).
  - by apply Hsame.
  - apply Hsame.
    by destruct (assign_frame user_id
      (ensure_user now user_id username (st_db st))) as (_ & _ & _ & ->).
  - by apply Hsame.
  - rewrite /cb_withdraw. destruct (PrimFloat.ltb _ _); [|destruct delivered];
      by apply Hsame.
  - rewrite app_nil_r. split; [|done].
    rewrite /handle_withdraw_text. destruct (negb _); [done|].
    destruct (user_states st !! user_id) as [[]|]; [|done].
    destruct (PrimFloat.ltb _ _), finished; simpl; try done;
      intros u wid a; rewrite approved_request_create; apply H.
  - rewrite /cmd_sync. destruct (negb _); [by apply Hsame|]. apply Hsame.
    simpl. by destruct (sync_frame set_iter clock resp (st_db st))
      as (_ & _ & _ & ->).
  - rewrite /cmd_approve. destruct (negb _); [by apply Hsame|]. simpl.
    pose proof (approve_withdrawal_cases wid (st_db st) Hc) as Hcases.
    destruct (List.find _ _) as [row|].
    + destruct Hcases as [Hp Hcases].
      destruct (PrimFloat.ltb _ _); rewrite Hcases /=; [by apply Hsame|].
      split.
      * intros u wid' a. rewrite approved_request_approve //.
        rewrite elem_of_app list_elem_of_singleton -(H u wid' a).
        split; (intros [?|?]; [by left|right]); [by simplify_eq|].
        destruct H0 as (-> & -> & ->). done.
      * rewrite /debit_ids omap_app /=. apply NoDup_app.
        split; [done|]. split; [|apply NoDup_singleton].
        intros x Hx ->%list_elem_of_singleton.
        apply debit_ids_elem in Hx as (u & a & Hin).
        apply H in Hin as (r' & Hin' & Hid' & _ & _ & Hst').
        destruct Hp as (Hin0 & Hid0 & Hst0).
        assert (r' = row).
        { apply (withdrawal_id_unique (st_db st)); [done..|congruence]. }
        congruence.
    + destruct Hcases as [_ ->]. by apply Hsame.
  - rewrite /poll_fetch. destruct (poll_results st); [|by apply Hsame].
    destruct (process_frame clock resp (st_db st)) as (_ & _ & _ & Hw).
    destruct (process_incoming_otps_single_scraper _ _ _).
    by apply Hsame.
  - rewrite /poll_credit. destruct (poll_results st) as [|ev rest];
      [by apply Hsame|].
    destruct (credit_of ev (st_db st)) as [owner|]; simpl;
      [|by apply Hsame].
    split.
    + intros u wid a. rewrite elem_of_app list_elem_of_singleton.
      rewrite (approved_request_frame (st_db st)
                 (credit_user owner EARN_PER_SMS (st_db st)) u wid a);
        [done|].
      rewrite -(H u wid a). split; [intros [?|?]; [done|congruence]|by left].
    + by rewrite /debit_ids omap_app /= app_nil_r.
Qed.

Lemma run_debits ops : forall st log,
  state_consistent st ->
  debits_match (st_db st) log /\ NoDup (debit_ids log) ->
  debits_match (st_db (run ops st)) (log ++ ledger ops st)
  /\ NoDup (debit_ids (log ++ ledger ops st)).
Proof.
  induction ops as [|op ops IH]; intros st log Hc H; simpl.
  - by rewrite app_nil_r.
  - rewrite app_assoc. apply IH; [by apply step_consistent|].
    by apply step_debits.
Qed.

(** *** Balances are not below zero *)

Section Nonneg.

Hypothesis reward_nonneg : (0 <=? EARN_PER_SMS)%float = true.

Lemma step_nonneg op st :
  balances_nonneg (st_db st) -> balances_nonneg (st_db (step op st)).
Proof.
  intros H. destruct op; simpl.
  - eapply balances_nonneg_frame; [|by apply ensure_user_nonneg].
    by destruct (sync_frame set_iter (fun i => clock (S i)) resp
      (ensure_user (clock 0) ADMIN_ID (Some (lit "admin")) (st_db st)))
      as (_ & -> & _).
  - by apply ensure_user_nonneg.
  - eapply balances_nonneg_frame; [|by apply ensure_user_nonneg].
    by destruct (assign_frame user_id
      (ensure_user now user_id username (st_db st))) as (_ & -> & _).
  - by apply ensure_user_nonneg.
  - rewrite /cb_withdraw. destruct (PrimFloat.ltb _ _); [|destruct delivered];
      by apply ensure_user_nonneg.
  - rewrite /handle_withdraw_text. destruct (negb _); [done|].
    destruct (user_states st !! user_id) as [[]|]; [|done].
    by destruct (PrimFloat.ltb _ _), finished.
  - rewrite /cmd_sync. destruct (negb _); [done|].
    eapply balances_nonneg_frame; [|done]. simpl.
    by destruct (sync_frame set_iter clock resp (st_db st))
      as (_ & -> & _).
  - rewrite /cmd_approve. destruct (negb _); [done|].
    by apply approve_nonneg.
  - rewrite /poll_fetch. destruct (poll_results st); [|done].
    destruct (process_frame clock resp (st_db st)) as (_ & He & _).
    destruct (process_incoming_otps_single_scraper _ _ _).
    by eapply balances_nonneg_frame.
  - rewrite /poll_credit. destruct (poll_results st) as [|ev rest]; [done|].
    destruct (credit_of ev (st_db st)); [|done].
    by apply credit_nonneg.
Qed.

End Nonneg.

(** *** Balances are numbers *)

Lemma step_numbers op st :
  (0 <=? EARN_PER_SMS)%float = true -> finite_request op = true ->
  ledger_numbers (st_db st) -> ledger_numbers (st_db (step op st)).
Proof.
  intros HE Hop H. destruct op; simpl.
  - eapply ledger_numbers_frame; [| |by apply ensure_user_numbers];
      by destruct (sync_frame set_iter (fun i => clock (S i)) resp
        (ensure_user (clock 0) ADMIN_ID (Some (lit "admin")) (st_db st)))
        as (_ & ? & _ & ?).
  - by apply ensure_user_numbers.
  - eapply ledger_numbers_frame; [| |by apply ensure_user_numbers];
      by destruct (assign_frame user_id
        (ensure_user now user_id username (st_db st))) as (_ & ? & _ & ?).
  - by apply ensure_user_numbers.
  - rewrite /cb_withdraw. destruct (PrimFloat.ltb _ _); [|destruct delivered];
      by apply ensure_user_numbers.
  - rewrite /handle_withdraw_text. destruct (negb _); [done|].
    destruct (user_states st !! user_id) as [[]|]; [|done].
    destruct (PrimFloat.ltb _ _), finished; simpl; try done;
      by apply create_withdrawal_numbers.
  - rewrite /cmd_sync. destruct (negb _); [done|].
    eapply ledger_numbers_frame; [| |done];
      by destruct (sync_frame set_iter clock resp (st_db st))
        as (_ & ? & _ & ?).
  - rewrite /cmd_approve. destruct (negb _); [done|].
    by apply approve_numbers.
  - rewrite /poll_fetch. destruct (poll_results st); [|done].
    destruct (process_frame clock resp (st_db st)) as (_ & He & _ & Hw).
    destruct (process_incoming_otps_single_scraper _ _ _).
    by eapply ledger_numbers_frame.
  - rewrite /poll_credit. destruct (poll_results st) as [|ev rest]; [done|].
    destruct (credit_of ev (st_db st)); [|done].
    by apply credit_numbers.
Qed.

Lemma run_numbers ops : forall st,
  (0 <=? EARN_PER_SMS)%float = true ->
  Forall (fun op => finite_request op = true) ops ->
  ledger_numbers (st_db st) -> ledger_numbers (st_db (run ops st)).
Proof.
  induction ops as [|op ops IH]; intros st HE Hops H; simpl; [done|].
  apply Forall_cons in Hops as [Hop Hops].
  apply IH; [done..|]. by apply step_numbers.
Qed.

Lemma step_owner op st n u :
  state_consistent st ->
  get_user_by_number n (st_db st) = Some u ->
  get_user_by_number n (st_db (step op st)) = Some u.
Proof.
  intros [Hc _] H. destruct op; simpl.
  - by apply sync_owner.
  - done.
  - by apply assign_owner; [apply ensure_user_consistent|].
  - done.
  - rewrite /cb_withdraw. by destruct (PrimFloat.ltb _ _), delivered.
  - rewrite /handle_withdraw_text. destruct (negb _); [done|].
    destruct (user_states st !! user_id) as [[]|]; [|done].
    by destruct (PrimFloat.ltb _ _), finished.
  - rewrite /cmd_sync. destruct (negb _); [done|]. by apply sync_owner.
  - rewrite /cmd_approve. destruct (negb _); [done|]. simpl.
    destruct (approve_frame wid (st_db st)) as (_ & Hn & _).
    by rewrite (get_user_by_number_ext _ _ Hn).
  - rewrite /poll_fetch. destruct (poll_results st); [|done].
    destruct (process_frame clock resp (st_db st)) as (_ & _ & Hn & _).
    destruct (process_incoming_otps_single_scraper _ _ _).
    by rewrite (get_user_by_number_ext _ _ Hn).
  - rewrite /poll_credit. destruct (poll_results st); [done|]. simpl.
    by destruct (credit_of _ _).
Qed.

Lemma step_history op st k :
  k ∈ map otp_key (otps (st_db st)) ->
  k ∈ map otp_key (otps (st_db (step op st))).
Proof.
  intros H.
  destruct (step_otps op st) as [->|(clock & resp & _ & ->)]; [done|].
  by apply process_history.
Qed.

(** A tuple held by the poll loop after a step was held before it or has
    just been recorded. *)
Lemma step_poll_results op st ev :
  ev ∈ poll_results (step op st) ->
  ev ∈ poll_results st
  \/ ev_key ev ∈ map otp_key (otps (st_db (step op st))).
Proof.
  destruct op; simpl; try by left.
  - by intros H%elem_of_nil.
  - rewrite /cb_withdraw. destruct (PrimFloat.ltb _ _), delivered; by left.
  - rewrite /handle_withdraw_text. destruct (negb _); [by left|].
    destruct (user_states st !! user_id) as [[]|]; [|by left].
    destruct (PrimFloat.ltb _ _), finished; by left.
  - rewrite /cmd_sync. destruct (negb _); by left.
  - rewrite /cmd_approve. destruct (negb _); by left.
  - rewrite /poll_fetch. destruct (poll_results st) eqn:Hp.
    + pose proof (process_results_recorded clock resp (st_db st) ev) as Hr.
      destruct (process_incoming_otps_single_scraper _ _ _); simpl in *.
      intros Hev. right. by apply Hr.
    + rewrite Hp. by left.
  - rewrite /poll_credit. destruct (poll_results st) as [|ev0 rest] eqn:Hp.
    + rewrite Hp. by left.
    + simpl. intros Hev. left. by right.
Qed.

Lemma step_justified op st log :
  state_consistent st ->
  credits_justified st log ->
  credits_justified (step op st) (log ++ step_credit op st).
Proof.
  intros Hc [Hlog Hpoll]. split.
  - intros u ev [Hin|Hin]%elem_of_app.
    + destruct (Hlog u ev Hin) as [H1 H2].
      split; [by apply step_owner|by apply step_history].
    + destruct op; try by apply elem_of_nil in Hin.
      simpl in Hin |- *. rewrite /poll_credit.
      destruct (poll_results st) as [|ev0 rest] eqn:Hp;
        [by apply elem_of_nil in Hin|].
      destruct (credit_of ev0 (st_db st)) as [owner|] eqn:Ho;
        [|by apply elem_of_nil in Hin].
      apply list_elem_of_singleton in Hin. injection Hin as -> ->.
      simpl. split.
      * by apply credit_of_owner.
      * apply Hpoll. left.
  - intros ev Hev. destruct (step_poll_results op st ev Hev) as [H|H];
      [|done].
    by apply step_history, Hpoll.
Qed.

Lemma run_justified ops : forall st log,
  state_consistent st ->
  credits_justified st log ->
  credits_justified (run ops st) (log ++ credit_calls ops st).
Proof.
  induction ops as [|op ops IH]; intros st log Hc Hj; simpl.
  - by rewrite app_nil_r.
  - rewrite app_assoc. apply IH.
    + by apply step_consistent.
    + by apply step_justified.
Qed.

Lemma run_nonneg ops : forall st,
  (0 <=? EARN_PER_SMS)%float = true ->
  balances_nonneg (st_db st) -> balances_nonneg (st_db (run ops st)).
Proof.
  induction ops as [|op ops IH]; intros st He H; simpl; [done|].
  apply IH; [done|]. by apply step_nonneg.
Qed.

(** C3, amended.  In every state the bot can reach from a new store the
    balance of each user [u] is what the ledger entries of [u] make of 0,
    applied in the order they happened and in double arithmetic: one
    addition of the reward per credit call, one subtraction of the amount
    per approval.  With a reward that is not negative the balance is not
    below zero.  Every credit call for [u] was made for a recorded tuple
    whose number [u] owns; and the debits are the approved requests, each
    debited once. *)
Theorem balance_is_running_ledger :
  forall ops,
    let st := run ops init_state in
    let log := ledger ops init_state in
    (forall u,
       get_balance u (st_db st) = replay u log
       /\ ((0 <=? EARN_PER_SMS)%float = true ->
           (get_balance u (st_db st) <? 0)%float = false)
       /\ (forall ev, (u, Credit ev) ∈ log ->
             get_user_by_number (ev_number ev) (st_db st) = Some u
             /\ ev_key ev ∈ map otp_key (otps (st_db st)))
       /\ (forall wid a,
             (u, Debit wid a) ∈ log <-> approved_request (st_db st) u wid a))
    /\ NoDup (debit_ids log).
Proof.
  intros ops st log.
  destruct (run_debits ops init_state []) as [Hd Hnd].
  { apply init_consistent. }
  { split; [|apply NoDup_nil_2]. intros u wid a. split.
    - by intros H%elem_of_nil.
    - intros (row & H%elem_of_nil & _). done. }
  split; [|done]. intros u. split; [|split; [|split]].
  - by apply (run_replay ops init_state []).
  - intros HE. apply run_nonneg; [done|]. intros v.
    by rewrite /get_balance /= lookup_empty.
  - intros ev Hev.
    destruct (run_justified ops init_state []) as [Hj _].
    + apply init_consistent.
    + split; [by intros ? ? Hnil%elem_of_nil|by intros ? Hnil%elem_of_nil].
    + apply Hj. simpl. rewrite -ledger_credit_calls.
      by apply credit_entries_elem.
  - apply Hd.
Qed.

(** *** Approval along a run *)




(** *** Recording and crediting along a run *)

(** The tuples a processing call emits are not in the history it starts
    from. *)
Lemma otp_loop_fresh clock text ms (keys : list (str * str)) :
  forall i db results,
  (forall k, k ∈ keys -> k ∈ map otp_key (otps db)) ->
  (forall k, k ∈ map ev_key results -> k ∉ keys) ->
  forall k, k ∈ map ev_key (snd (otp_loop clock text ms i db results)) ->
            k ∉ keys.
Proof.
  induction ms as [|m ms IH]; intros i db results Hsub Hres; simpl; [done|].
  destruct (occurrence text m) as [[[number otp] snippet]|];
    [|by apply IH].
  destruct (otp_exists number otp db) eqn:Hex; [by apply IH|].
  assert (Hnew : (number, otp) ∉ map otp_key (otps db)).
  { intros Hin. apply otp_exists_true in Hin. congruence. }
  apply IH; simpl.
  - intros k Hk. rewrite map_app elem_of_app. left. by apply Hsub.
  - intros k. rewrite map_app elem_of_app. intros [Hk|Hk]; [by apply Hres|].
    apply list_elem_of_singleton in Hk. subst k. intros Hin.
    by apply Hnew, Hsub.
Qed.

Lemma process_fresh clock resp db k :
  k ∈ map ev_key (snd (process_incoming_otps_single_scraper clock resp db)) ->
  k ∉ map otp_key (otps db).
Proof.
  rewrite /process_incoming_otps_single_scraper.
  destruct resp as [r|]; [|by intros H%elem_of_nil].
  destruct (negb _); [by intros H%elem_of_nil|].
  apply otp_loop_fresh; [done|]. by intros k' H%elem_of_nil.
Qed.

Lemma otp_loop_prefix clock text ms : forall i db results,
  otps db `prefix_of` otps (fst (otp_loop clock text ms i db results)).
Proof.
  induction ms as [|m ms IH]; intros i db results; simpl; [done|].
  destruct (occurrence text m) as [[[number otp] snippet]|]; [|apply IH].
  destruct (otp_exists number otp db); [apply IH|].
  etrans; [|apply IH]. simpl. by apply prefix_app_r.
Qed.

Lemma process_keeps_history clock resp db :
  otps db
    `prefix_of` otps (fst (process_incoming_otps_single_scraper clock resp db)).
Proof.
  rewrite /process_incoming_otps_single_scraper. destruct resp; [|done].
  destruct (negb _); [done|]. apply otp_loop_prefix.
Qed.

(** Handlers leave the tuples that the poll loop has not reached alone. *)
Lemma handler_keeps_poll_results op st :
  is_handler op = true -> poll_results (step op st) = poll_results st.
Proof.
  destruct op; simpl; try done; intros _.
  - rewrite /cb_withdraw. by destruct (PrimFloat.ltb _ _), delivered.
  - rewrite /handle_withdraw_text. destruct (negb _); [done|].
    destruct (user_states st !! user_id) as [[]|]; [|done].
    by destruct (PrimFloat.ltb _ _), finished.
  - rewrite /cmd_sync. by destruct (negb _).
  - rewrite /cmd_approve. by destruct (negb _).
Qed.

(** No tuple is credited twice, and none that the loop still holds has
    been credited. *)
Lemma step_credit_once op st log :
  credits_justified st log ->
  NoDup (map otp_key (otps (st_db st))) ->
  NoDup (map ev_key (map snd log ++ poll_results st)) ->
  NoDup (map ev_key (map snd (log ++ step_credit op st)
                     ++ poll_results (step op st))).
Proof.
  intros [Hlog Hpoll] Hh Hnd.
  assert (Hkeep : poll_results (step op st) = poll_results st ->
                  step_credit op st = [] ->
    NoDup (map ev_key (map snd (log ++ step_credit op st)
                       ++ poll_results (step op st)))).
  { intros -> ->. by rewrite app_nil_r. }
  assert (Hlogs : NoDup (map ev_key (map snd log))).
  { rewrite map_app in Hnd. by apply NoDup_app in Hnd as (? & _). }
  destruct op; try (apply Hkeep; [by apply handler_keeps_poll_results|done]).
  - simpl. by rewrite !app_nil_r.
  - simpl. rewrite /poll_fetch. destruct (poll_results st) eqn:Hp;
      [|by rewrite app_nil_r Hp].
    pose proof (process_unique clock resp (st_db st) Hh) as [_ Hr].
    pose proof (process_fresh clock resp (st_db st)) as Hf.
    destruct (process_incoming_otps_single_scraper _ _ _) as [db' res].
    simpl in *. rewrite !app_nil_r map_app. apply NoDup_app.
    split; [done|]. split; [|done].
    intros k Hk Hk'. apply (Hf k Hk').
    apply list_elem_of_fmap in Hk as (ev & -> & Hev).
    apply list_elem_of_fmap in Hev as ([u ev'] & -> & Hin).
    by apply (Hlog u ev').
  - simpl. rewrite /poll_credit.
    destruct (poll_results st) as [|ev rest] eqn:Hp;
      [by rewrite !app_nil_r Hp|].
    destruct (credit_of ev (st_db st)) as [owner|]; simpl.
    + by rewrite (map_app snd) /= -app_assoc.
    + rewrite app_nil_r. rewrite !map_app /= in Hnd |- *.
      apply NoDup_app in Hnd as (H1 & H2 & H3).
      apply NoDup_cons in H3 as [_ H3].
      apply NoDup_app. split; [done|]. split; [|done].
      intros k Hk Hk'. apply (H2 k Hk). by right.
Qed.

Lemma run_credit_once ops : forall st log,
  state_consistent st ->
  credits_justified st log ->
  NoDup (map otp_key (otps (st_db st))) ->
  NoDup (map ev_key (map snd log ++ poll_results st)) ->
  NoDup (map ev_key (map snd (log ++ credit_calls ops st)
                     ++ poll_results (run ops st))).
Proof.
  induction ops as [|op ops IH]; intros st log Hc Hj Hh Hnd; simpl.
  - by rewrite app_nil_r.
  - rewrite app_assoc. apply IH.
    + by apply step_consistent.
    + by apply step_justified.
    + by apply step_unique.
    + by apply step_credit_once.
Qed.

(** C2, amended.  Recording and crediting are two commits.  The head of a
    poll iteration records every tuple it emits and changes no balance.
    The credit comes when the loop reaches the tuple, whatever handlers ran
    in between (they leave the loop's list alone): then the user who owns
    the number at that moment, if any and other than id 0, gets the reward
    added to the balance, once and in double arithmetic, and nothing else
    changes.  Along every run no tuple is credited twice, none that the
    loop still holds has been credited, and every tuple credited or held
    is recorded. *)
Theorem record_then_credit :
  (forall st clock resp,
     poll_results st = [] ->
     let r := process_incoming_otps_single_scraper clock resp (st_db st) in
     let st1 := step (PollFetch clock resp) st in
     st_db st1 = fst r /\ poll_results st1 = snd r
     /\ Forall (fun ev => ev_key ev ∈ map otp_key (otps (st_db st1))) (snd r)
     /\ (otps (st_db st) `prefix_of` otps (st_db st1))
     /\ earnings (st_db st1) = earnings (st_db st))
  /\ (forall op st,
        is_handler op = true -> poll_results (step op st) = poll_results st)
  /\ (forall st ev rest,
        poll_results st = ev :: rest ->
        let st2 := step PollCredit st in
        poll_results st2 = rest
        /\ user_states st2 = user_states st
        /\ users (st_db st2) = users (st_db st)
        /\ otps (st_db st2) = otps (st_db st)
        /\ withdrawals (st_db st2) = withdrawals (st_db st)
        /\ available_numbers (st_db st2) = available_numbers (st_db st)
        /\ forall u,
             let owner_to_credit :=
               get_user_by_number (ev_number ev) (st_db st) = Some u
               /\ u <> 0%Z in
             (owner_to_credit ->
              get_balance u (st_db st2)
              = (get_balance u (st_db st) + EARN_PER_SMS)%float)
             /\ (~ owner_to_credit ->
                 get_balance u (st_db st2) = get_balance u (st_db st)))
  /\ (forall ops,
        let st := run ops init_state in
        let log := credit_calls ops init_state in
        NoDup (map ev_key (map snd log ++ poll_results st))
        /\ forall ev, ev ∈ map snd log ++ poll_results st ->
                      ev_key ev ∈ map otp_key (otps (st_db st))).
Proof.
  split; [|split; [|split]].
  - intros st clock resp Hp. cbv zeta. rewrite /= /poll_fetch Hp.
    pose proof (process_results_recorded clock resp (st_db st)) as Hrec.
    destruct (process_frame clock resp (st_db st)) as (_ & He & _).
    pose proof (process_keeps_history clock resp (st_db st)) as Hpre.
    destruct (process_incoming_otps_single_scraper clock resp (st_db st))
      as [db' res].
    simpl in *.
    do 2 (split; [done|]). split; [by apply Forall_forall|]. by split.
  - apply handler_keeps_poll_results.
  - intros st ev rest Hp st2. rewrite /st2 /= /poll_credit Hp.
    destruct (credit_of ev (st_db st)) as [owner|] eqn:Ho; simpl.
    + do 6 (split; [done|]). intros u. rewrite get_balance_credit. split.
      * intros Hu%credit_of_spec. rewrite Ho in Hu. injection Hu as ->.
        by rewrite Z.eqb_refl.
      * intros Hne. destruct (Z.eqb_spec u owner) as [->|_]; [|done].
        by apply credit_of_spec in Ho.
    + do 6 (split; [done|]). intros u. split; [|done].
      intros Hu%credit_of_spec. by rewrite Ho in Hu.
  - intros ops st log.
    destruct (run_justified ops init_state []) as [Hj1 Hj2].
    { apply init_consistent. }
    { split; [by intros ? ? Hnil%elem_of_nil|by intros ? Hnil%elem_of_nil]. }
    split.
    + apply (run_credit_once ops init_state []).
      * apply init_consistent.
      * split; [by intros ? ? Hnil%elem_of_nil|by intros ? Hnil%elem_of_nil].
      * apply NoDup_nil_2.
      * apply NoDup_nil_2.
    + intros ev [Hev|Hev]%elem_of_app; [|by apply Hj2].
      apply list_elem_of_fmap in Hev as ([u ev'] & -> & Hin).
      by apply (Hj1 u ev').
Qed.

End Runs.

(** ** Inventory sync *)

Lemma first_occurrences_order : set_order first_occurrences.
Proof.
  intros l. induction l as [|a l [IHnd IHin]]; simpl.
  - split; [apply NoDup_nil_2|done].
  - assert (Hf : forall x,
      x ∈ List.filter (fun y => negb (str_eqb y a)) (first_occurrences l)
      <-> x ∈ l /\ x <> a).
    { intros x. rewrite list_elem_of_In filter_In -list_elem_of_In IHin.
      rewrite /str_eqb negb_true_iff bool_decide_eq_false. done. }
    split.
    + apply NoDup_cons. split; [rewrite Hf; tauto|].
      apply NoDup_ListNoDup, List.NoDup_filter, NoDup_ListNoDup, IHnd.
    + intros x. rewrite !elem_of_cons Hf.
      destruct (decide (x = a)); tauto.
Qed.

Lemma sync_loop_count clock nums : forall i db added,
  snd (sync_loop clock nums i db added) = added + length nums.
Proof.
  induction nums as [|num rest IH]; intros i db added; simpl; [lia|].
  rewrite IH. lia.
Qed.

(** A number of the inventory stays in it. *)
Lemma sync_loop_keeps clock nums x : forall i db added,
  x ∈ inventory db -> x ∈ inventory (fst (sync_loop clock nums i db added)).
Proof.
  induction nums as [|num rest IH]; intros i db added H; simpl; [done|].
  apply IH. rewrite /add_available_number.
  destruct (find_number _ _); [done|].
  rewrite /inventory /= map_app elem_of_app. by left.
Qed.

(** Every number the loop goes through is in the inventory afterwards. *)
Lemma sync_loop_covers clock nums x : forall i db added,
  x ∈ nums -> x ∈ inventory (fst (sync_loop clock nums i db added)).
Proof.
  induction nums as [|num rest IH]; intros i db added H; simpl.
  - by apply elem_of_nil in H.
  - apply elem_of_cons in H as [->|H]; [|by apply IH].
    apply sync_loop_keeps. rewrite /add_available_number.
    destruct (find_number num (available_numbers db)) eqn:Hf.
    + destruct (decide (num ∈ inventory db)) as [|Hn]; [done|].
      apply find_number_None in Hn. congruence.
    + rewrite /inventory /= map_app elem_of_app. right. simpl. left.
Qed.

(** Going through numbers that are all in the inventory changes nothing. *)
Lemma sync_loop_present clock nums : forall i db added,
  (forall x, x ∈ nums -> x ∈ inventory db) ->
  fst (sync_loop clock nums i db added) = db.
Proof.
  induction nums as [|num rest IH]; intros i db added H; simpl; [done|].
  assert (Hadd : add_available_number (clock i) num (lit "UNKNOWN") db = db).
  { rewrite /add_available_number.
    destruct (find_number num (available_numbers db)) eqn:Hf; [done|].
    apply find_number_None in Hf. exfalso. apply Hf, H. left. }
  rewrite Hadd. apply IH. intros x Hx. apply H. by right.
Qed.

(** The loop only appends rows: unowned ones, for numbers it was given
    and that the inventory did not hold. *)
Lemma sync_loop_appends clock nums : forall i db added,
  exists new,
    available_numbers (fst (sync_loop clock nums i db added))
    = available_numbers db ++ new
    /\ Forall (fun r => nr_assigned_to r = None /\ nr_number r ∈ nums
                        /\ nr_number r ∉ inventory db) new.
Proof.
  induction nums as [|num rest IH]; intros i db added; simpl.
  - exists []. by rewrite app_nil_r.
  - destruct (IH (S i) (add_available_number (clock i) num (lit "UNKNOWN") db)
                (S added)) as (new & -> & Hnew).
    rewrite /add_available_number.
    destruct (find_number num (available_numbers db)) eqn:Hf.
    + exists new. split; [done|]. eapply Forall_impl; [exact Hnew|].
      intros r (H1 & H2 & H3). rewrite /add_available_number Hf in H3.
      repeat split; [done| |done]. by right.
    + apply find_number_None in Hf.
      exists (mkNumberRow num (lit "UNKNOWN") None (clock i) :: new).
      split; [by rewrite /= -app_assoc|].
      apply Forall_cons. split; [repeat split; [left|done]|].
      eapply Forall_impl; [exact Hnew|].
      intros r (H1 & H2 & H3). rewrite /add_available_number in H3.
      apply find_number_None in Hf. rewrite Hf in H3.
      repeat split; [done|by right|]. intros Hin. apply H3.
      rewrite /inventory /= map_app elem_of_app. by left.
Qed.

(** C8. Syncing twice on the same response adds nothing the second time:
    the store after the second call is the store after the first, whatever
    order the sets are iterated in and whatever the clock says.  The first
    call leaves every row of the inventory as it was and appends only
    unowned rows, for numbers the inventory did not hold. *)
Theorem sync_twice_adds_nothing :
  forall set_iter1 set_iter2 clock1 clock2 resp db,
    set_order set_iter1 -> set_order set_iter2 ->
    let db1 := fst (sync_numbers_from_ivasms set_iter1 clock1 resp db) in
    let db2 := fst (sync_numbers_from_ivasms set_iter2 clock2 resp db1) in
    db2 = db1
    /\ exists new,
         available_numbers db1 = available_numbers db ++ new
         /\ Forall (fun r => nr_assigned_to r = None
                             /\ nr_number r ∉ inventory db) new.
Proof.
  intros f1 f2 c1 c2 resp db H1 H2 db1 db2. rewrite /db2 /db1.
  rewrite /sync_numbers_from_ivasms. destruct resp as [r|].
  - split.
    + apply sync_loop_present. intros x Hx. apply sync_loop_covers.
      destruct (H1 (findall_number (r_text r))) as [_ Hin1].
      destruct (H2 (findall_number (r_text r))) as [_ Hin2].
      by apply Hin1, Hin2.
    + destruct (sync_loop_appends c1 (f1 (findall_number (r_text r))) 0 db 0)
        as (new & Hnew & Hall).
      exists new. split; [done|]. eapply Forall_impl; [exact Hall|].
      by intros row (Ha & _ & Hb).
  - split; [done|]. exists []. by rewrite app_nil_r.
Qed.

Lemma sync_twice_adds_nothing_witness :
  set_order first_occurrences /\ set_order first_occurrences
  /\ let resp := Some (mkResponse 200
                         (lit "+8801700000000 code 4821 and 1555000111")) in
     let db1 := fst (sync_numbers_from_ivasms first_occurrences
                       (fun i => i) resp init_db) in
     let db2 := fst (sync_numbers_from_ivasms first_occurrences
                       (fun i => 10 + i) resp db1) in
     db2 = db1
     /\ exists new,
          available_numbers db1 = available_numbers init_db ++ new
          /\ Forall (fun r => nr_assigned_to r = None
                              /\ nr_number r ∉ inventory init_db) new.
Proof.
  split; [apply first_occurrences_order|].
  split; [apply first_occurrences_order|].
  apply (sync_twice_adds_nothing first_occurrences first_occurrences
           (fun i => i) (fun i => 10 + i)
           (Some (mkResponse 200
                    (lit "+8801700000000 code 4821 and 1555000111")))
           init_db);
    apply first_occurrences_order.
Defined.

(** C9. The count [sync_numbers_from_ivasms] returns is the number of
    distinct matches in the text, whether or not the inventory held them:
    a second call on the same response returns the same count again, and
    for the one-number text below both calls return 1 although the second
    adds nothing. *)
Theorem sync_count_ignores_presence :
  (forall set_iter clock1 clock2 r db,
     let first := sync_numbers_from_ivasms set_iter clock1 (Some r) db in
     let second :=
       sync_numbers_from_ivasms set_iter clock2 (Some r) (fst first) in
     snd first = length (set_iter (findall_number (r_text r)))
     /\ snd second = snd first)
  /\ let r := mkResponse 200 (lit "+8801700000000") in
     let first :=
       sync_numbers_from_ivasms first_occurrences (fun i => i) (Some r)
         init_db in
     let second :=
       sync_numbers_from_ivasms first_occurrences (fun i => i) (Some r)
         (fst first) in
     inventory (fst first) = [lit "+8801700000000"]
     /\ snd first = 1
     /\ fst second = fst first
     /\ snd second = 1.
Proof.
  split.
  - intros f c1 c2 r db first second. rewrite /second /first /=.
    by rewrite !sync_loop_count.
  - by vm_compute.
Qed.

(** ** The code pattern finds the leftmost code *)

Lemma is_digit_word c : is_digit c = true -> is_word c = true.
Proof. rewrite /is_word. by intros ->. Qed.

Lemma digit_run_le s : digit_run s <= length s.
Proof.
  induction s as [|c s IH]; simpl; [done|]. destruct (is_digit c); lia.
Qed.

(** The characters below [digit_run s] are digits. *)
Lemma digit_run_lookup s : forall j,
  j < digit_run s -> exists c, s !! j = Some c /\ is_digit c = true.
Proof.
  induction s as [|c s IH]; intros j Hj; simpl in *; [lia|].
  destruct (is_digit c) eqn:Hc; [|lia].
  destruct j as [|j]; [by exists c|]. apply IH. lia.
Qed.

(** The character at [digit_run s], if any, is not a digit. *)
Lemma digit_run_stop s c :
  s !! digit_run s = Some c -> is_digit c = false.
Proof.
  induction s as [|a s IH]; simpl; [done|].
  destruct (is_digit a) eqn:Ha; simpl; [done|]. by intros [= <-].
Qed.

Lemma digit_run_take s k :
  k <= digit_run s <->
  length (take k s) = k /\ Forall (fun c => is_digit c = true) (take k s).
Proof.
  revert k. induction s as [|c s IH]; intros k; simpl.
  - destruct k; simpl; [|split; [lia|intros [? _]; lia]].
    split; [done|lia].
  - destruct k as [|k]; simpl; [split; [done|lia]|].
    destruct (is_digit c) eqn:Hc.
    + rewrite -Nat.succ_le_mono IH Forall_cons.
      split; [intros [Hl Hf]; by rewrite Hl|].
      intros [Hl [_ Hf]]. split; [lia|done].
    + split; [lia|]. intros [_ H]. apply Forall_cons in H as [H _].
      congruence.
Qed.

(** One try of the quantifier: the count [k] fits exactly when it is the
    whole run of digits and no word character follows. *)
Lemma count_fits s k :
  1 <= k ->
  (k <=? digit_run s) && word_boundary (s !! (k - 1)) (s !! k)
  = (k =? digit_run s) && negb (is_word_opt (s !! k)).
Proof.
  intros Hk. destruct (Nat.leb_spec k (digit_run s)) as [Hle|Hgt]; simpl.
  - destruct (digit_run_lookup s (k - 1)) as (c & -> & Hc); [lia|].
    rewrite /word_boundary /= (is_digit_word _ Hc) /=.
    destruct (Nat.eqb_spec k (digit_run s)) as [->|Hne]; [done|].
    destruct (digit_run_lookup s k) as (c' & -> & Hc'); [lia|].
    by rewrite /= (is_digit_word _ Hc').
  - symmetry. apply andb_false_intro1, Nat.eqb_neq. lia.
Qed.

Lemma first_count_run s ks :
  Forall (fun k => 1 <= k) ks ->
  first_count s ks
  = if existsb (fun k => k =? digit_run s) ks
       && negb (is_word_opt (s !! digit_run s))
    then Some (digit_run s) else None.
Proof.
  induction ks as [|k ks IH]; intros Hks; simpl; [done|].
  apply Forall_cons in Hks as [Hk Hks]. rewrite count_fits // IH //.
  destruct (Nat.eqb_spec k (digit_run s)) as [->|Hne]; simpl; [|done].
  destruct (is_word_opt (s !! digit_run s)); simpl; [|done].
  by rewrite andb_false_r.
Qed.

Lemma otp_match_at_code prev s :
  otp_match_at prev s
  = if code_here prev s then Some (take (digit_run s) s) else None.
Proof.
  rewrite /otp_match_at /code_here first_count_run.
  { repeat (apply Forall_cons; split; [lia|]). done. }
  set (d := digit_run s).
  assert (Hin : existsb (fun k => k =? d) [8; 7; 6; 5; 4]
                = (4 <=? d) && (d <=? 8)).
  { simpl. destruct d as [|[|[|[|[|[|[|[|[|d]]]]]]]]]; done. }
  rewrite Hin. destruct ((4 <=? d) && (d <=? 8)) eqn:Hd; simpl.
  - assert (Hhead : is_word_opt (head s) = true).
    { apply andb_prop in Hd as [Hd _]. apply Nat.leb_le in Hd.
      destruct (digit_run_lookup s 0) as (c & Hc & Hdig); [fold d; lia|].
      destruct s; [done|]. simpl in *. injection Hc as ->.
      by apply is_digit_word. }
    rewrite /word_boundary Hhead.
    destruct (is_word_opt prev); simpl; [done|].
    by destruct (is_word_opt (s !! d)).
  - by destruct (word_boundary prev (head s)).
Qed.

Lemma code_from_cons prev c r i :
  code_from prev (c :: r) (S i) = code_from (Some c) r i.
Proof. rewrite /code_from. by destruct i. Qed.

(** The search returns the code at the first offset that passes the test,
    and nothing when no offset does. *)
Lemma otp_search_from_first s : forall prev,
  match otp_search_from prev s with
  | Some c =>
      exists i, code_from prev s i = true
                /\ (forall j, j < i -> code_from prev s j = false)
                /\ c = take (digit_run (drop i s)) (drop i s)
  | None => forall i, code_from prev s i = false
  end.
Proof.
  induction s as [|a r IH]; intros prev; simpl; rewrite otp_match_at_code.
  - rewrite /code_here /=. intros i. by rewrite /code_from drop_nil.
  - destruct (code_here prev (a :: r)) eqn:H0.
    + exists 0. split; [done|]. split; [intros j Hj; lia|done].
    + specialize (IH (Some a)).
      destruct (otp_search_from (Some a) r) as [c|].
      * destruct IH as (i & Hi & Hfirst & ->). exists (S i).
        rewrite code_from_cons. split; [done|]. split; [|done].
        intros [|j] Hj; [done|]. rewrite code_from_cons. apply Hfirst. lia.
      * intros [|i]; [done|]. by rewrite code_from_cons.
Qed.

Lemma code_at_from w i k :
  code_at w i k <-> code_from None w i = true /\ k = digit_run (drop i w).
Proof.
  rewrite /code_at /code_from /code_here.
  change (match i with 0 => None | S j => w !! j end) with (char_before w i).
  split.
  - intros (Hk & Hlen & Hdigits & Hb & Ha).
    assert (Hrun : k <= digit_run (drop i w)) by by apply digit_run_take.
    assert (Hd : k = digit_run (drop i w)).
    { destruct (decide (k = digit_run (drop i w))) as [|Hne]; [done|].
      destruct (digit_run_lookup (drop i w) k) as (c & Hc & Hdig); [lia|].
      rewrite lookup_drop in Hc. rewrite Hc /= in Ha.
      by rewrite (is_digit_word _ Hdig) in Ha. }
    split; [|done]. rewrite -Hd lookup_drop Hb Ha.
    change (negb false) with true. rewrite !andb_true_r.
    apply andb_true_intro. split; apply Nat.leb_le; lia.
  - intros [H ->]. apply andb_prop in H as [H Ha].
    apply andb_prop in H as [H Hb]. apply andb_prop in H as [H4 H8].
    apply Nat.leb_le in H4, H8. apply negb_true_iff in Ha, Hb.
    rewrite lookup_drop in Ha.
    destruct (proj1 (digit_run_take (drop i w) (digit_run (drop i w))))
      as [Hlen Hdigits]; [done|].
    done.
Qed.

Lemma otp_search_first w i k :
  first_code_at w i k -> otp_search w = Some (take k (drop i w)).
Proof.
  intros [Hcode Hfirst]. apply code_at_from in Hcode as [Hi ->].
  pose proof (otp_search_from_first w None) as Hs. rewrite /otp_search.
  destruct (otp_search_from None w) as [c|].
  - destruct Hs as (i0 & Hi0 & Hlt & ->).
    destruct (Nat.lt_trichotomy i0 i) as [Hlt'|[->|Hgt]]; [|done|].
    + exfalso. apply (Hfirst i0 (digit_run (drop i0 w)) Hlt').
      by apply code_at_from.
    + apply Hlt in Hgt. congruence.
  - by rewrite Hs in Hi.
Qed.

Lemma otp_search_none w :
  (forall i k, ~ code_at w i k) -> otp_search w = None.
Proof.
  intros Hno. pose proof (otp_search_from_first w None) as Hs.
  rewrite /otp_search. destruct (otp_search_from None w) as [c|]; [|done].
  destruct Hs as (i & Hi & _). exfalso.
  apply (Hno i (digit_run (drop i w))). by apply code_at_from.
Qed.

(** Conversely, what the search returns is the leftmost code. *)
Lemma otp_search_Some w c :
  otp_search w = Some c ->
  exists i k, first_code_at w i k /\ c = take k (drop i w).
Proof.
  intros H. pose proof (otp_search_from_first w None) as Hs.
  rewrite /otp_search in H. rewrite H in Hs.
  destruct Hs as (i & Hi & Hlt & ->).
  exists i, (digit_run (drop i w)). split; [|done]. split.
  - by apply code_at_from.
  - intros j k' Hj [Hc _]%code_at_from. apply Hlt in Hj. congruence.
Qed.

Lemma otp_search_no_code w :
  otp_search w = None -> forall i k, ~ code_at w i k.
Proof.
  intros H i k [Hc _]%code_at_from.
  pose proof (otp_search_from_first w None) as Hs.
  rewrite /otp_search in H. rewrite H in Hs. by rewrite Hs in Hc.
Qed.

(** ** What one occurrence yields *)

Lemma occurrence_forward text m i k :
  first_code_at (slice text (snd m) (snd m + 400)) i k ->
  occurrence text m
  = Some (slice text (fst m) (snd m),
          take k (drop i (slice text (snd m) (snd m + 400))),
          snippet_of (slice text (snd m) (snd m + 400)) []).
Proof.
  intros H. apply otp_search_first in H. by rewrite /occurrence H.
Qed.

Lemma occurrence_backward text m i k :
  (forall j k', ~ code_at (slice text (snd m) (snd m + 400)) j k') ->
  first_code_at (slice text (fst m - 200) (fst m)) i k ->
  occurrence text m
  = Some (slice text (fst m) (snd m),
          take k (drop i (slice text (fst m - 200) (fst m))),
          snippet_of (slice text (snd m) (snd m + 400))
            (slice text (fst m - 200) (fst m))).
Proof.
  intros Hno H. apply otp_search_none in Hno. apply otp_search_first in H.
  by rewrite /occurrence Hno H.
Qed.

Lemma occurrence_nothing text m :
  (forall i k, ~ code_at (slice text (snd m) (snd m + 400)) i k) ->
  (forall i k, ~ code_at (slice text (fst m - 200) (fst m)) i k) ->
  occurrence text m = None.
Proof.
  intros H1 H2. apply otp_search_none in H1, H2.
  by rewrite /occurrence H1 H2.
Qed.

(** The code of an occurrence is the leftmost code of one of its windows. *)
Lemma occurrence_code text m n o sn :
  occurrence text m = Some (n, o, sn) ->
  n = slice text (fst m) (snd m)
  /\ exists w i k, first_code_at w i k /\ o = take k (drop i w).
Proof.
  rewrite /occurrence.
  destruct (otp_search (slice text (snd m) (snd m + 400))) as [c|] eqn:Hf.
  - intros [= <- <- <-]. split; [done|].
    apply otp_search_Some in Hf as (i & k & H & ->).
    by exists (slice text (snd m) (snd m + 400)), i, k.
  - destruct (otp_search (slice text (fst m - 200) (fst m))) as [c|] eqn:Hb;
      [|done].
    intros [= <- <- <-]. split; [done|].
    apply otp_search_Some in Hb as (i & k & H & ->).
    by exists (slice text (fst m - 200) (fst m)), i, k.
Qed.


(** ** From occurrences to results *)

Lemma otp_loop_results clock text (P : Event -> Prop) ms :
  (forall m n o sn, occurrence text m = Some (n, o, sn) ->
     P (mkEvent n o sn (detect_service sn) (lit "UNKNOWN"))) ->
  forall i db results,
    Forall P results -> Forall P (snd (otp_loop clock text ms i db results)).
Proof.
  intros HP. induction ms as [|m ms IH]; intros i db results H; simpl;
    [done|].
  destruct (occurrence text m) as [[[n o] sn]|] eqn:Hocc; [|by apply IH].
  destruct (otp_exists n o db); [by apply IH|].
  apply IH, Forall_app. split; [done|].
  apply Forall_cons. split; [by apply (HP m)|done].
Qed.

Lemma otp_loop_results_in clock text (P : Event -> Prop) ms :
  (forall m n o sn, m ∈ ms -> occurrence text m = Some (n, o, sn) ->
     P (mkEvent n o sn (detect_service sn) (lit "UNKNOWN"))) ->
  forall i db results,
    Forall P results -> Forall P (snd (otp_loop clock text ms i db results)).
Proof.
  induction ms as [|m ms IH]; intros HP i db results H; simpl; [done|].
  assert (HP' : forall m0 n o sn, m0 ∈ ms ->
    occurrence text m0 = Some (n, o, sn) ->
    P (mkEvent n o sn (detect_service sn) (lit "UNKNOWN"))).
  { intros m0 n o sn Hin. apply HP. by right. }
  destruct (occurrence text m) as [[[n o] sn]|] eqn:Hocc; [|by apply IH].
  destruct (otp_exists n o db); [by apply IH|].
  apply IH; [done|]. apply Forall_app. split; [done|].
  constructor; [|done]. apply (HP m); [left|done].
Qed.

Lemma otp_loop_results_mono clock text ms k : forall i db results,
  k ∈ map ev_key results ->
  k ∈ map ev_key (snd (otp_loop clock text ms i db results)).
Proof.
  induction ms as [|m ms IH]; intros i db results H; simpl; [done|].
  destruct (occurrence text m) as [[[n o] sn]|]; [|by apply IH].
  destruct (otp_exists n o db); [by apply IH|].
  apply IH. rewrite map_app elem_of_app. by left.
Qed.

(** The pair of an occurrence is recorded when the loop ends, and it is
    among the results unless the history [keys0] of the start had it. *)
Lemma otp_loop_emits clock text m n o sn (keys0 : list (str * str)) ms :
  forall i db results,
  m ∈ ms -> occurrence text m = Some (n, o, sn) ->
  (forall k, k ∈ map otp_key (otps db) ->
     k ∈ keys0 \/ k ∈ map ev_key results) ->
  (n, o) ∈ map otp_key (otps (fst (otp_loop clock text ms i db results)))
  /\ ((n, o) ∉ keys0 ->
      (n, o) ∈ map ev_key (snd (otp_loop clock text ms i db results))).
Proof.
  induction ms as [|m0 ms IH]; intros i db results Hin Hocc Hinv.
  - by apply elem_of_nil in Hin.
  - simpl. apply elem_of_cons in Hin as [<-|Hin].
    + rewrite Hocc. destruct (otp_exists n o db) eqn:Hex.
      * apply otp_exists_true in Hex. split.
        -- by apply otp_loop_history.
        -- intros Hnew. apply otp_loop_results_mono.
           by destruct (Hinv _ Hex).
      * split.
        -- apply otp_loop_history. simpl. rewrite map_app elem_of_app.
           right. simpl. left.
        -- intros _. apply otp_loop_results_mono.
           rewrite map_app elem_of_app. right. simpl. left.
    + destruct (occurrence text m0) as [[[n0 o0] sn0]|]; [|by apply IH].
      destruct (otp_exists n0 o0 db); [by apply IH|].
      apply IH; [done..|]. intros k. simpl.
      rewrite !map_app !elem_of_app. intros [Hk|Hk]; [|right; by right].
      destruct (Hinv k Hk); [by left|right; by left].
Qed.

(** C7, amended.  For an occurrence [m] of a number in [text]: when the
    400 characters after the match hold a code (4 to 8 digits with no
    word character next to them inside these 400 characters, whose ends
    count as delimiters), the occurrence yields the number with the
    leftmost such code; the pair is then in the history after the call, and
    among the results unless the history already had it.  When neither the
    400 characters after the match nor the 200 before it hold a code, the
    occurrence yields nothing. *)
Theorem matcher_window_policy :
  forall clock text m db,
    let number := slice text (fst m) (snd m) in
    let window := slice text (snd m) (snd m + 400) in
    let back_window := slice text (fst m - 200) (fst m) in
    let r := process_incoming_otps_single_scraper clock
               (Some (mkResponse 200 text)) db in
    m ∈ finditer_number text ->
    (forall i k,
       first_code_at window i k ->
       let code := take k (drop i window) in
       occurrence text m = Some (number, code, snippet_of window [])
       /\ (number, code) ∈ map otp_key (otps (fst r))
       /\ ((number, code) ∉ map otp_key (otps db) ->
           (number, code) ∈ map ev_key (snd r)))
    /\ ((forall i k, ~ code_at window i k) ->
        (forall i k, ~ code_at back_window i k) ->
        occurrence text m = None).
Proof.
  intros clock text m db number window back_window r Hm. split.
  - intros i k Hfirst code.
    pose proof (occurrence_forward text m i k Hfirst) as Hocc.
    split; [done|].
    apply (otp_loop_emits clock text m number code
             (snippet_of window []) (map otp_key (otps db))
             (finditer_number text) 0 db []); [done..|].
    intros key Hkey. by left.
  - apply occurrence_nothing.
Qed.

Lemma near_code_first :
  first_code_at (slice near_code_text 14 (14 + 400)) 18 4.
Proof.
  split.
  - split; [lia|]. split; [done|]. split; [|done].
    repeat (apply Forall_cons; split; [done|]). done.
  - intros j k' Hj [Hc _]%code_at_from.
    do 18 (destruct j as [|j]; [by vm_compute in Hc|]). lia.
Qed.

Lemma far_code_no_code :
  (forall i k, ~ code_at (slice far_code_text 14 (14 + 400)) i k)
  /\ (forall i k, ~ code_at (slice far_code_text (0 - 200) 0) i k).
Proof. split; by apply otp_search_no_code. Qed.

Lemma matcher_window_policy_witness :
  (head_occurrence ∈ finditer_number near_code_text
   /\ occurrence near_code_text head_occurrence
      = Some (lit "+8801700000000", lit "4821",
              lit " ... Your code is 4821 ..."))
  /\ (head_occurrence ∈ finditer_number far_code_text
      /\ occurrence far_code_text head_occurrence = None).
Proof.
  assert (H1 : head_occurrence ∈ finditer_number near_code_text)
    by (vm_compute; left).
  assert (H2 : head_occurrence ∈ finditer_number far_code_text).
  { change (finditer_number far_code_text)
      with (finditer_from far_code_text 0 0).
    rewrite /far_code_text /=. left. }
  split; split; [done| |done|].
  - exact (proj1 (proj1 (matcher_window_policy (fun i => i) near_code_text
                           head_occurrence init_db H1) 18 4
                    near_code_first)).
  - exact (proj2 (matcher_window_policy (fun i => i) far_code_text
                    head_occurrence init_db H2)
             (proj1 far_code_no_code) (proj2 far_code_no_code)).
Defined.

(** C7, as stated, fails on both sides.  In [cut_run_text] the only run of
    4 to 8 digits starts 406 characters after the number at the head, and
    nothing stands before the number; yet the occurrence yields the code
    1234, the head of a run of nine digits that the slice of 400
    characters cuts.  In [glued_code_text] the run 4821 lies within 400
    characters after the number, glued to letters, and the occurrence
    yields nothing. *)
Lemma window_policy_fails :
  (head_occurrence ∈ finditer_number cut_run_text
   /\ runs_4_8 cut_run_text = [(420, 4)]
   /\ snd head_occurrence + 400 < 420
   /\ option_map fst (occurrence cut_run_text head_occurrence)
      = Some (lit "+8801700000000", lit "1234")
   /\ (lit "+8801700000000", lit "1234")
      ∈ map ev_key
          (snd (process_incoming_otps_single_scraper (fun i => i)
                  (Some (mkResponse 200 cut_run_text)) init_db)))
  /\ (finditer_number glued_code_text = [head_occurrence]
      /\ runs_4_8 glued_code_text = [(18, 4)]
      /\ slice glued_code_text 18 (18 + 4) = lit "4821"
      /\ 18 + 4 <= snd head_occurrence + 400
      /\ occurrence glued_code_text head_occurrence = None
      /\ snd (process_incoming_otps_single_scraper (fun i => i)
                (Some (mkResponse 200 glued_code_text)) init_db) = []).
Proof.
  split.
  - split; [vm_compute; left|]. split; [by vm_compute|].
    split; [simpl; lia|]. split; [by vm_compute|]. vm_compute. left.
  - split; [by vm_compute|]. split; [by vm_compute|].
    split; [by vm_compute|]. split; [simpl; lia|].
    split; by vm_compute.
Qed.

(** ** The shape of an emitted code *)

Lemma digit_run_all s :
  Forall (fun c => is_digit c = true) s -> digit_run s = length s.
Proof.
  induction 1 as [|c s Hc _ IH]; simpl; [done|]. by rewrite Hc IH.
Qed.

Lemma match_number_digit_head c r :
  is_digit c = true -> match_number (c :: r) = match_digits_6_15 (c :: r).
Proof.
  intros Hc. rewrite /match_number.
  destruct c as [[] [] [] [] [] [] [] []]; try done.
Qed.

(** A string of at most 15 digits has the phone-number shape exactly when
    it has 6 digits or more. *)
Lemma phone_shaped_digits s :
  Forall (fun c => is_digit c = true) s -> length s <= 15 ->
  phone_shaped s = (6 <=? length s).
Proof.
  intros Hs Hlen. rewrite /phone_shaped.
  assert (Hm : match_number s = match_digits_6_15 s).
  { destruct s as [|c r]; [done|]. apply match_number_digit_head.
    by apply Forall_cons in Hs as [Hc _]. }
  rewrite Hm /match_digits_6_15 (digit_run_all _ Hs).
  destruct (6 <=? length s); [|done].
  apply Nat.eqb_eq. lia.
Qed.




(** ** The end-to-end scenario *)

Lemma balance_is_running_ledger_witness :
  (0 <=? 1)%float = true
  /\ let st := run 1%Z 1%float 250%float first_occurrences scenario_ops
                 init_state in
     let log := ledger 1%Z 1%float 250%float first_occurrences scenario_ops
                  init_state in
     (forall u,
        get_balance u (st_db st) = replay 1%float u log
        /\ (get_balance u (st_db st) <? 0)%float = false
        /\ (forall ev, (u, Credit ev) ∈ log ->
              get_user_by_number (ev_number ev) (st_db st) = Some u
              /\ ev_key ev ∈ map otp_key (otps (st_db st)))
        /\ (forall wid a,
              (u, Debit wid a) ∈ log
              <-> approved_request (st_db st) u wid a))
     /\ NoDup (debit_ids log).
Proof.
  split; [done|]. intros st log.
  pose proof (balance_is_running_ledger 1%Z 1%float 250%float
                first_occurrences scenario_ops) as [H Hnd].
  split; [|exact Hnd]. intros u.
  destruct (H u) as (H1 & H2 & H3 & H4).
  split; [exact H1|]. split; [apply H2; reflexivity|]. by split.
Defined.

(** The scenario itself: one record, one credit of the reward to user 7,
    and nothing more on the repeated poll. *)
Example scenario_outcome :
  let st := run 1%Z 1%float 250%float first_occurrences scenario_ops
              init_state in
  map otp_key (otps (st_db st)) = [(lit "1555000111", lit "9321")]
  /\ get_balance 7 (st_db st) = 1%float
  /\ credit_calls 1%Z 1%float 250%float first_occurrences scenario_ops
       init_state
     = [(7%Z, mkEvent (lit "1555000111") (lit "9321") (lit " ... OTP 9321")
                (lit "Service") (lit "UNKNOWN"))].
Proof. by vm_compute. Qed.

(** C3, as stated, fails, in two ways.  Balances are doubles: at a reward
    of 0.1, after three credits and an approved request for 0.3 the stored
    balance of user 7 is 2^-54, while the credits minus the debit, taken
    exactly on the doubles involved, make 2^-55.  And nothing keeps the
    configured reward from being negative: at a reward of -1 the balance
    of user 7 after the scenario is -1. *)
Lemma balance_off_exact_ledger :
  (let st := run 1%Z 0.1%float 0.2%float first_occurrences rounding_ops
               init_state in
   let log := credit_calls 1%Z 0.1%float 0.2%float first_occurrences
                rounding_ops init_state in
   credited 7 log = 3
   /\ map (fun r => (w_user_id r, w_amount r, w_status r))
        (withdrawals (st_db st)) = [(7%Z, 0.3%float, approved)]
   /\ get_balance 7 (st_db st) = 0x1p-54%float
   /\ (exact_value (get_balance 7 (st_db st)) == 1 # 2 ^ 54)%Q
   /\ (3 * exact_value 0.1 - exact_value 0.3 == 1 # 2 ^ 55)%Q
   /\ ~ (exact_value (get_balance 7 (st_db st))
         == 3 * exact_value 0.1 - exact_value 0.3)%Q)
  /\ (let st := run 1%Z (-1)%float 250%float first_occurrences scenario_ops
                  init_state in
      get_balance 7 (st_db st) = (-1)%float
      /\ (get_balance 7 (st_db st) <? 0)%float = true).
Proof.
  split; [|by vm_compute].
  do 5 (split; [by vm_compute|]).
  intros H. vm_compute in H. discriminate H.
Qed.

(** ** Recording and crediting are two steps *)

(** C2, as stated, fails.  With user 7 owning 1555000111 and a reward of 1,
    the state right after the processing call has the record in the
    history while the owner's balance is still 0 and no credit call has
    been made; the poll loop then waits on a notification.  If the process
    is restarted there, the next poll iteration finds the pair recorded and
    the credit is never made. *)
Lemma recorded_but_uncredited :
  let run := run 1%Z 1%float 250%float first_occurrences in
  let ops := [Startup (fun i => i) scenario_response;
              CbGetNumber 5 7%Z None;
              PollFetch (fun i => 10 + i) scenario_response] in
  let restart := [Startup (fun i => 20 + i) scenario_response;
                  PollFetch (fun i => 30 + i) scenario_response;
                  PollCredit] in
  let st := run ops init_state in
  let st' := run restart st in
  (map otp_key (otps (st_db st)) = [(lit "1555000111", lit "9321")]
   /\ get_user_by_number (lit "1555000111") (st_db st) = Some 7%Z
   /\ get_balance 7 (st_db st) = 0%float)
  /\ (map otp_key (otps (st_db st')) = [(lit "1555000111", lit "9321")]
      /\ get_balance 7 (st_db st') = 0%float
      /\ poll_results st' = []
      /\ credit_calls 1%Z 1%float 250%float first_occurrences
           (ops ++ restart) init_state = []).
Proof. by vm_compute. Qed.

(** The credit of a tuple that waited while other handlers ran: user 7,
    at 300, asks for 200; a poll records a tuple for the user's number;
    the admin approves the request, which leaves 100; then the loop
    reaches the tuple and the balance is 100 + 300. *)
Lemma record_then_credit_witness :
  let st := run 1%Z 300%float 250%float first_occurrences interleaved_ops
              init_state in
  let ev := mkEvent (lit "1555000111") (lit "4444") (lit " ... OTP 4444")
              (lit "Service") (lit "UNKNOWN") in
  let st2 := step 1%Z 300%float 250%float first_occurrences PollCredit st in
  (poll_results st = [ev]
   /\ get_user_by_number (ev_number ev) (st_db st) = Some 7%Z
   /\ get_balance 7 (st_db st) = 100%float)
  /\ poll_results st2 = []
  /\ get_balance 7 (st_db st2) = (get_balance 7 (st_db st) + 300)%float.
Proof.
  intros st ev st2.
  assert (Hp : poll_results st = [ev]) by by vm_compute.
  assert (Ho : get_user_by_number (ev_number ev) (st_db st) = Some 7%Z)
    by by vm_compute.
  assert (Hb : get_balance 7 (st_db st) = 100%float) by by vm_compute.
  pose proof (proj1 (proj2 (proj2
    (record_then_credit 1%Z 300%float 250%float first_occurrences)))
    st ev [] Hp) as H.
  destruct H as (H1 & _ & _ & _ & _ & _ & H2).
  assert (Hn : 7%Z <> 0%Z) by lia.
  exact (conj (conj Hp (conj Ho Hb))
           (conj H1 (proj1 (H2 7%Z) (conj Ho Hn)))).
Defined.

(** ** Submitting a withdrawal *)

(** The handler never touches a balance, and it adds a request only for a
    user whose flag is set and whose balance is not below the amount. *)
Lemma handle_withdraw_text_effect now u method target amount finished st :
  let st' := handle_withdraw_text now u method target amount finished st in
  earnings (st_db st') = earnings (st_db st)
  /\ (withdrawals (st_db st') = withdrawals (st_db st)
      \/ (withdrawals (st_db st')
          = withdrawals (st_db st)
            ++ [mkWithdrawalRow (S (length (withdrawals (st_db st)))) u
                  amount (lower method) target pending now]
          /\ user_states st !! u = Some awaiting_withdraw
          /\ (get_balance u (st_db st) <? amount)%float = false)).
Proof.
  rewrite /handle_withdraw_text. destruct (negb _); [by split; [|left]|].
  destruct (user_states st !! u) as [[]|] eqn:Hu; [|by split; [|left]].
  destruct (PrimFloat.ltb _ _) eqn:Hlt.
  - destruct finished; by split; [|left].
  - destruct finished; (split; [done|by right]).
Qed.

(** C5 at the failing input.  The reward is 300 and the minimum
    withdrawal 250; after the scenario user 7 has a balance of 300, opens
    the withdrawal dialogue and asks for 10.  The request is recorded as
    pending although 10 is below the minimum, and the balance stays 300. *)
Theorem withdrawal_below_minimum_accepted :
  let st := run 1%Z 300%float 250%float first_occurrences scenario_ops
              init_state in
  let st1 := cb_withdraw 250%float 30 7%Z None true st in
  let st2 := handle_withdraw_text 31 7%Z (lit "bkash") (lit "01700000000")
               10%float true st1 in
  get_balance 7 (st_db st) = 300%float
  /\ user_states st1 !! 7%Z = Some awaiting_withdraw
  /\ (10 <? 250)%float = true
  /\ withdrawals (st_db st2)
     = [mkWithdrawalRow 1 7%Z 10%float (lit "bkash") (lit "01700000000")
          pending 31]
  /\ get_balance 7 (st_db st2) = get_balance 7 (st_db st).
Proof. by vm_compute. Qed.

(** * Further properties of the code *)

(** ** The phone-number pattern *)

Lemma match_number_other c r :
  c <> "+"%char -> match_number (c :: r) = match_digits_6_15 (c :: r).
Proof.
  intros Hc. rewrite /match_number.
  destruct c as [[] [] [] [] [] [] [] []]; try done.
Qed.

Lemma digit_run_full s :
  digit_run s = length s -> Forall (fun c => is_digit c = true) s.
Proof.
  intros H.
  destruct (proj1 (digit_run_take s (length s))) as [_ Hd]; [lia|].
  by rewrite firstn_all in Hd.
Qed.

Lemma match_digits_length s n :
  match_digits_6_15 s = Some n ->
  6 <= n <= 15 /\ n <= digit_run s
  /\ (n = digit_run s \/ (n = 15 /\ 15 < digit_run s)).
Proof.
  rewrite /match_digits_6_15.
  destruct (Nat.leb_spec 6 (digit_run s)) as [H6|]; [|done].
  intros [= <-]. lia.
Qed.

Lemma phone_shaped_digits_plus s d :
  s = d \/ s = "+"%char :: d ->
  Forall (fun c => is_digit c = true) d ->
  6 <= length d <= 15 ->
  phone_shaped s = true.
Proof.
  intros [->| ->] Hd Hlen.
  - rewrite phone_shaped_digits //; [lia|]. apply Nat.leb_le. lia.
  - rewrite /phone_shaped /= /match_digits_6_15 (digit_run_all _ Hd).
    destruct (Nat.leb_spec 6 (length d)) as [_|]; [|lia].
    apply Nat.eqb_eq. lia.
Qed.

(** X1. A string has the shape of the number pattern exactly when it is 6
    to 15 digits, with or without a plus sign in front. *)
Theorem phone_shaped_iff s :
  phone_shaped s = true <->
  exists d, (s = d \/ s = "+"%char :: d)
            /\ Forall (fun c => is_digit c = true) d
            /\ 6 <= length d <= 15.
Proof.
  split.
  - rewrite /phone_shaped.
    destruct (match_number s) as [n|] eqn:Hm; [|done].
    intros Hn%Nat.eqb_eq. subst n.
    destruct s as [|c r]; [done|].
    destruct (decide (c = "+"%char)) as [->|Hc].
    + simpl in Hm. destruct (match_digits_6_15 r) as [k|] eqn:Hk.
      * injection Hm as Hlen.
        apply match_digits_length in Hk as (Hk1 & Hk2 & Hk3).
        pose proof (digit_run_le r) as Hle.
        exists r. split; [by right|]. split; [|lia].
        apply digit_run_full. lia.
      * by rewrite /match_digits_6_15 in Hm.
    + rewrite match_number_other // in Hm.
      apply match_digits_length in Hm as (Hk1 & Hk2 & Hk3).
      pose proof (digit_run_le (c :: r)) as Hle.
      exists (c :: r). split; [by left|]. split; [|lia].
      apply digit_run_full. lia.
  - intros (d & Hs & Hd & Hlen). by apply (phone_shaped_digits_plus s d).
Qed.

(** What the pattern matches at the head of a string has its shape. *)
Lemma match_number_shape s n :
  match_number s = Some n ->
  6 <= n <= 16 /\ n <= length s /\ phone_shaped (take n s) = true.
Proof.
  intros Hm. destruct s as [|c r]; [done|].
  destruct (decide (c = "+"%char)) as [->|Hc].
  - simpl in Hm. destruct (match_digits_6_15 r) as [k|] eqn:Hk;
      [|by rewrite /match_digits_6_15 in Hm].
    injection Hm as <-.
    apply match_digits_length in Hk as (Hk1 & Hk2 & _).
    pose proof (digit_run_le r) as Hle.
    split; [lia|]. split; [simpl; lia|].
    apply digit_run_take in Hk2 as [Hlen Hdig].
    apply (phone_shaped_digits_plus _ (take k r)); [by right|done|].
    by rewrite Hlen.
  - rewrite match_number_other // in Hm.
    apply match_digits_length in Hm as (Hk1 & Hk2 & _).
    pose proof (digit_run_le (c :: r)) as Hle.
    split; [lia|]. split; [lia|].
    apply digit_run_take in Hk2 as [Hlen Hdig].
    apply (phone_shaped_digits_plus _ (take n (c :: r))); [by left|done|].
    by rewrite Hlen.
Qed.

#[local] Arguments match_number : simpl never.

Lemma finditer_from_matches s : forall pos skip,
  Forall (fun m => pos + skip <= fst m
                   /\ snd m <= pos + length s
                   /\ match_number (drop (fst m - pos) s)
                      = Some (snd m - fst m))
    (finditer_from s pos skip)
  /\ chained (finditer_from s pos skip).
Proof.
  induction s as [|c r IH]; intros pos skip; simpl; [done|].
  destruct skip as [|k].
  - destruct (match_number (c :: r)) as [n|] eqn:Hm.
    + destruct (match_number_shape _ _ Hm) as (Hn & Hlen & _).
      destruct (IH (S pos) (n - 1)) as [Hall Hch]. simpl in Hlen.
      split.
      * constructor.
        { simpl. replace (pos - pos) with 0 by lia.
          replace (pos + n - pos) with n by lia. split; [lia|].
          split; [lia|done]. }
        eapply Forall_impl; [exact Hall|]. intros m (H1 & H2 & H3).
        split; [lia|]. split; [lia|].
        by replace (fst m - pos) with (S (fst m - S pos)) by lia.
      * simpl. split; [|done].
        destruct (finditer_from r (S pos) (n - 1)) as [|m2 rest]; [done|].
        apply Forall_cons in Hall as [(H1 & _) _]. simpl. lia.
    + destruct (IH (S pos) 0) as [Hall Hch]. split; [|done].
      eapply Forall_impl; [exact Hall|]. intros m (H1 & H2 & H3).
      split; [lia|]. split; [lia|].
      by replace (fst m - pos) with (S (fst m - S pos)) by lia.
  - destruct (IH (S pos) k) as [Hall Hch]. split; [|done].
    eapply Forall_impl; [exact Hall|]. intros m (H1 & H2 & H3).
    split; [lia|]. split; [lia|].
    by replace (fst m - pos) with (S (fst m - S pos)) by lia.
Qed.

Lemma finditer_number_shapes text :
  Forall (fun m => fst m < snd m /\ snd m <= length text
                   /\ 6 <= snd m - fst m <= 16
                   /\ phone_shaped (slice text (fst m) (snd m)) = true)
    (finditer_number text).
Proof.
  destruct (finditer_from_matches text 0 0) as [Hall Hch].
  eapply Forall_impl; [exact Hall|].
  intros m (_ & H2 & H3). rewrite Nat.sub_0_r in H3.
  destruct (match_number_shape _ _ H3) as (Hn & _ & Hshape).
  rewrite /slice. split; [lia|]. split; [lia|]. split; [lia|done].
Qed.

(** X2. The occurrences [re.finditer] reports lie inside the text, come
    left to right without overlapping, span 6 to 16 characters, and each
    spans a string of the number shape. *)
Theorem finditer_number_matches text :
  Forall (fun m => fst m < snd m /\ snd m <= length text
                   /\ 6 <= snd m - fst m <= 16
                   /\ phone_shaped (slice text (fst m) (snd m)) = true)
    (finditer_number text)
  /\ chained (finditer_number text).
Proof.
  split; [apply finditer_number_shapes|].
  by destruct (finditer_from_matches text 0 0).
Qed.

(** X3. [OTP_RE.search] returns a string exactly when that string is the
    leftmost code of the searched string, and nothing exactly when the
    string holds no code. *)
Theorem otp_search_leftmost_code w :
  (forall c, otp_search w = Some c <->
             exists i k, first_code_at w i k /\ c = take k (drop i w))
  /\ (otp_search w = None <-> forall i k, ~ code_at w i k).
Proof.
  split.
  - intros c. split; [apply otp_search_Some|].
    intros (i & k & Hfirst & ->). by apply otp_search_first.
  - split; [apply otp_search_no_code|apply otp_search_none].
Qed.

(** ** The service guess *)

Lemma starts_with_app p b : starts_with p (p ++ b) = true.
Proof.
  induction p as [|c p IH]; simpl; [done|].
  by rewrite bool_decide_true.
Qed.

Lemma contains_head p s : starts_with p s = true -> contains p s = true.
Proof. intros H. destruct s; simpl; by rewrite H. Qed.

Lemma contains_app p a b : contains p (a ++ p ++ b) = true.
Proof.
  induction a as [|c a IH]; simpl.
  - apply contains_head, starts_with_app.
  - rewrite IH. apply orb_true_r.
Qed.

Lemma services_capitalized s :
  s ∈ services ->
  capitalize s ∈ map lit ["Whatsapp"; "Facebook"; "Telegram"; "Google";
                          "Instagram"; "Tiktok"; "Netflix"; "Clerk"]%string
  /\ capitalize s <> lit "Service".
Proof.
  rewrite /services. intros H.
  repeat (apply elem_of_cons in H as [->|H];
          [split; [vm_compute; set_solver|by vm_compute]|]).
  by apply elem_of_nil in H.
Qed.

(** X4. The service guess is one of the eight capitalized keywords or the
    placeholder.  A keyword is recognised in any mix of letter cases and
    wherever it stands in the text; the placeholder is then never the
    answer, and for the first keyword of the list, whatsapp, the answer is
    Whatsapp whatever else the text holds. *)
Theorem detect_service_keywords text :
  detect_service text
    ∈ map lit ["Whatsapp"; "Facebook"; "Telegram"; "Google"; "Instagram";
               "Tiktok"; "Netflix"; "Clerk"; "Service"]%string
  /\ (forall a k b,
        text = a ++ k ++ b -> lower k = lit "whatsapp" ->
        detect_service text = lit "Whatsapp")
  /\ (forall kw a k b,
        kw ∈ services -> text = a ++ k ++ b -> lower k = kw ->
        detect_service text <> lit "Service").
Proof.
  split; [|split].
  - rewrite /detect_service.
    destruct (List.find _ services) as [s|] eqn:Hf.
    + apply find_some in Hf as [Hin _]. apply list_elem_of_In in Hin.
      destruct (services_capitalized s Hin) as [Hc _].
      simpl in Hc |- *. rewrite !elem_of_cons in Hc |- *. tauto.
    + simpl. rewrite !elem_of_cons. tauto.
  - intros a k b -> Hk. rewrite /detect_service /lower !map_app.
    fold (lower k). rewrite Hk /services /=.
    by rewrite (contains_app (lit "whatsapp")).
  - intros kw a k b Hkw -> Hk. rewrite /detect_service /lower !map_app.
    fold (lower k). rewrite Hk.
    destruct (List.find _ services) as [s|] eqn:Hf.
    + apply find_some in Hf as [Hin _]. apply list_elem_of_In in Hin.
      by destruct (services_capitalized s Hin) as [_ Hne].
    + apply list_elem_of_In in Hkw.
      pose proof (find_none _ _ Hf _ Hkw) as Hno. simpl in Hno.
      by rewrite contains_app in Hno.
Qed.

Lemma detect_service_keywords_witness :
  lit "Your WhatsApp code" = lit "Your " ++ lit "WhatsApp" ++ lit " code"
  /\ lower (lit "WhatsApp") = lit "whatsapp"
  /\ detect_service (lit "Your WhatsApp code") = lit "Whatsapp".
Proof.
  split; [by vm_compute|]. split; [by vm_compute|].
  destruct (detect_service_keywords (lit "Your WhatsApp code"))
    as (_ & H & _).
  apply (H (lit "Your ") (lit "WhatsApp") (lit " code")); by vm_compute.
Defined.

(** ** The fields of an emitted tuple *)

Lemma otp_search_nonempty w c : otp_search w = Some c -> w <> [].
Proof. by intros H ->. Qed.

Lemma slice_length s i j : length (slice s i j) <= j - i.
Proof. rewrite /slice length_take. lia. Qed.

(** The snippet of an occurrence is the start of the forward window
    whenever that window is not empty, also when the code was found in the
    backward window. *)
Lemma occurrence_snippet text m n o sn :
  occurrence text m = Some (n, o, sn) ->
  sn = (if truthy (slice text (snd m) (snd m + 400))
        then take 300 (slice text (snd m) (snd m + 400))
        else slice text (fst m - 200) (fst m))
  /\ 1 <= length sn <= 300.
Proof.
  rewrite /occurrence.
  set (window := slice text (snd m) (snd m + 400)).
  set (back := slice text (fst m - 200) (fst m)).
  assert (Htake : forall w : str, w <> [] -> 1 <= length (take 300 w) <= 300).
  { intros w Hw. destruct w as [|a w']; [done|].
    rewrite length_take. cbn [length]. lia. }
  destruct (otp_search window) as [c|] eqn:Hf.
  - intros [= <- <- <-]. apply otp_search_nonempty in Hf.
    rewrite /snippet_of /py_or. destruct window as [|a w] eqn:Hw; [done|].
    split; [done|]. by apply Htake.
  - destruct (otp_search back) as [c|] eqn:Hb; [|done].
    intros [= <- <- <-]. apply otp_search_nonempty in Hb.
    pose proof (slice_length text (fst m - 200) (fst m)) as Hlen.
    fold back in Hlen.
    rewrite /snippet_of /py_or. destruct window as [|a w] eqn:Hw.
    + destruct back as [|a' b'] eqn:Hback; [done|].
      assert (Hlast : last_n 300 (a' :: b') = a' :: b').
      { rewrite /last_n. replace (length (a' :: b') - 300) with 0 by lia.
        done. }
      cbn [truthy take orb]. cbv iota. rewrite Hlast.
      split; [done|]. cbn [length] in Hlen |- *. lia.
    + split; [done|]. by apply Htake.
Qed.

(** X5. Every tuple a processing call emits belongs to an occurrence of the
    number pattern in the text: its number is the matched string and has
    the number shape, its snippet is the occurrence's snippet and has 1 to
    300 characters, its service is the guess made from that snippet, and
    its country is UNKNOWN. *)
Theorem emitted_tuple_fields clock r db :
  Forall (fun ev =>
            (exists m,
               m ∈ finditer_number (r_text r)
               /\ ev_number ev = slice (r_text r) (fst m) (snd m)
               /\ ev_snippet ev
                  = (if truthy (slice (r_text r) (snd m) (snd m + 400))
                     then take 300 (slice (r_text r) (snd m) (snd m + 400))
                     else slice (r_text r) (fst m - 200) (fst m)))
            /\ phone_shaped (ev_number ev) = true
            /\ 1 <= length (ev_snippet ev) <= 300
            /\ ev_service ev = detect_service (ev_snippet ev)
            /\ ev_country ev = lit "UNKNOWN")
    (snd (process_incoming_otps_single_scraper clock (Some r) db)).
Proof.
  rewrite /process_incoming_otps_single_scraper.
  destruct (negb _); [done|].
  apply otp_loop_results_in; [|done].
  intros m n o sn Hm Hocc. simpl.
  destruct (occurrence_snippet _ _ _ _ _ Hocc) as [Hsn Hlen].
  apply occurrence_code in Hocc as [-> _].
  pose proof (finditer_number_shapes (r_text r)) as Hall.
  rewrite Forall_forall in Hall.
  destruct (Hall m Hm) as (_ & _ & _ & Hshape).
  split; [by exists m|]. done.
Qed.

(** ** What a processing call writes *)

Lemma otp_loop_writes clock text ms : forall i db results,
  exists new,
    snd (otp_loop clock text ms i db results) = results ++ new
    /\ map otp_fields (otps (fst (otp_loop clock text ms i db results)))
       = map otp_fields (otps db) ++ map ev_fields new
    /\ map o_id (otps (fst (otp_loop clock text ms i db results)))
       = map o_id (otps db) ++ seq (S (length (otps db))) (length new).
Proof.
  induction ms as [|m ms IH]; intros i db results; simpl.
  - exists []. by rewrite !app_nil_r.
  - destruct (occurrence text m) as [[[n o] sn]|]; [|apply IH].
    destruct (otp_exists n o db); [apply IH|].
    set (ev := mkEvent n o sn (detect_service sn) (lit "UNKNOWN")).
    set (db1 := save_otp (clock i) n o sn (detect_service sn)
                  (lit "UNKNOWN") db).
    destruct (IH (S i) db1 (results ++ [ev])) as (new & H1 & H2 & H3).
    exists (ev :: new). rewrite H1 H2 H3 -app_assoc /=.
    split; [done|].
    rewrite /db1 /= !map_app /= length_app /= -!app_assoc /=.
    split; [done|]. by rewrite Nat.add_1_r.
Qed.

(** X6. A processing call appends to the history one record per emitted
    tuple, in the order of emission and with the fields of the tuple, and
    writes nothing else there; the new records get the next row ids. *)
Theorem process_appends_results clock resp db :
  let r := process_incoming_otps_single_scraper clock resp db in
  map otp_fields (otps (fst r))
  = map otp_fields (otps db) ++ map ev_fields (snd r)
  /\ map o_id (otps (fst r))
     = map o_id (otps db)
       ++ seq (S (length (otps db))) (length (snd r))
  /\ length (otps (fst r)) = length (otps db) + length (snd r).
Proof.
  simpl. rewrite /process_incoming_otps_single_scraper.
  assert (Hnil : map otp_fields (otps db)
                 = map otp_fields (otps db) ++ map ev_fields []
                 /\ map o_id (otps db)
                    = map o_id (otps db)
                      ++ seq (S (length (otps db))) (length (@nil Event))
                 /\ length (otps db) = length (otps db) + 0).
  { rewrite /= !app_nil_r. split; [done|]. split; [done|lia]. }
  destruct resp as [r|]; [|done]. destruct (negb _); [done|].
  destruct (otp_loop_writes clock (r_text r) (finditer_number (r_text r))
              0 db []) as (new & H1 & H2 & H3).
  simpl in H1. rewrite H1 H2 H3. split; [done|]. split; [done|].
  apply (f_equal length) in H2. by rewrite !length_app !length_map in H2.
Qed.

(** When the history holds the pair of every occurrence, the loop writes
    and emits nothing. *)
Lemma otp_loop_all_known clock text ms : forall i db results,
  (forall m n o sn, m ∈ ms -> occurrence text m = Some (n, o, sn) ->
     (n, o) ∈ map otp_key (otps db)) ->
  otp_loop clock text ms i db results = (db, results).
Proof.
  induction ms as [|m ms IH]; intros i db results Hknown; simpl; [done|].
  assert (Hrest : otp_loop clock text ms (S i) db results = (db, results)).
  { apply IH. intros m0 n o sn Hin. apply Hknown. by right. }
  destruct (occurrence text m) as [[[n o] sn]|] eqn:Hocc; [|done].
  assert (Hex : otp_exists n o db = true).
  { apply otp_exists_true, (Hknown m n o sn); [left|done]. }
  by rewrite Hex.
Qed.

(** X7. A processing call repeated on the same response, right after the
    first and whatever the clock says, emits no tuple and leaves the store
    as the first call left it. *)
Theorem process_repeated clock clock' resp db :
  let first := process_incoming_otps_single_scraper clock resp db in
  process_incoming_otps_single_scraper clock' resp (fst first)
  = (fst first, []).
Proof.
  simpl. rewrite /process_incoming_otps_single_scraper.
  destruct resp as [r|]; [|done]. destruct (negb _); [done|].
  apply otp_loop_all_known. intros m n o sn Hm Hocc.
  apply (otp_loop_emits clock (r_text r) m n o sn (map otp_key (otps db))
           (finditer_number (r_text r)) 0 db []); [done..|].
  intros k Hk. by left.
Qed.

(** ** Recording and looking up a pair *)

(** X8. After [save_otp] the saved pair exists, and any other pair exists
    exactly when it did before. *)
Theorem save_otp_then_exists now n o f s c n' o' db :
  otp_exists n o (save_otp now n o f s c db) = true
  /\ otp_exists n' o' (save_otp now n o f s c db)
     = otp_exists n' o' db || (str_eqb n n' && str_eqb o o').
Proof.
  rewrite /otp_exists /save_otp /= !existsb_app /= !orb_false_r.
  split; [|done]. rewrite /str_eqb !bool_decide_true //.
  apply orb_true_r.
Qed.

(** ** Debiting a balance *)

(** X9. [debit_user] refuses, and changes nothing, exactly when the user
    has no balance row or the balance is below the amount; otherwise it
    lowers that balance by the amount, which cannot bring it below zero,
    and leaves every other balance and table alone. *)
Theorem debit_user_cases u a db :
  let r := debit_user u a db in
  if snd r then
    is_Some (earnings db !! u)
    /\ (get_balance u db <? a)%float = false
    /\ get_balance u (fst r) = (get_balance u db - a)%float
    /\ (get_balance u (fst r) <? 0)%float = false
    /\ (forall v, v <> u -> get_balance v (fst r) = get_balance v db)
    /\ users (fst r) = users db
    /\ available_numbers (fst r) = available_numbers db
    /\ otps (fst r) = otps db
    /\ withdrawals (fst r) = withdrawals db
  else
    fst r = db
    /\ (earnings db !! u = None \/ (get_balance u db <? a)%float = true).
Proof.
  simpl. rewrite /debit_user /get_balance.
  destruct (earnings db !! u) as [b|] eqn:Hb; simpl; [|by split; [|left]].
  destruct (b <? a)%float eqn:Hlt; simpl.
  - split; [done|]. by right.
  - rewrite lookup_alter_eq Hb /=.
    split; [done|]. split; [done|]. split; [done|].
    split; [by apply sub_not_below|].
    split; [|done]. intros v Hv. by rewrite lookup_alter_ne.
Qed.

(** ** Assigning a number *)

Lemma find_split {A} (f : A -> bool) l x :
  List.find f l = Some x ->
  exists pre post, l = pre ++ x :: post
                   /\ Forall (fun y => f y = false) pre /\ f x = true.
Proof.
  induction l as [|a l IH]; simpl; [done|].
  destruct (f a) eqn:Ha.
  - intros [= ->]. by exists [], l.
  - intros H. destruct (IH H) as (pre & post & -> & Hpre & Hx).
    exists (a :: pre), post. split; [done|]. split; [|done].
    by constructor.
Qed.

Lemma find_all_false {A} (f : A -> bool) l :
  List.find f l = None -> Forall (fun y => f y = false) l.
Proof.
  intros H. apply Forall_forall. intros y Hy.
  apply (find_none _ _ H). by apply list_elem_of_In.
Qed.

(** Rows whose number is not [n] are left alone by the [UPDATE]. *)
Lemma assign_rows_other u n rows :
  n ∉ map nr_number rows -> map (assign_row u n) rows = rows.
Proof.
  intros Hn. rewrite -{2}(map_id rows). apply map_ext_in. intros r Hr.
  rewrite /assign_row /str_eqb. case_bool_decide as Heq; [|done].
  exfalso. apply Hn. rewrite -Heq. apply list_elem_of_fmap. exists r.
  split; [done|]. by apply list_elem_of_In.
Qed.

(** With distinct numbers in the inventory, the [UPDATE] changes the row
    that was picked and no other. *)
Lemma assign_picked u db row :
  NoDup (inventory db) ->
  List.find is_free (available_numbers db) = Some row ->
  exists pre post,
    available_numbers db = pre ++ row :: post
    /\ Forall (fun r => is_free r = false) pre
    /\ nr_assigned_to row = None
    /\ map (assign_row u (nr_number row)) (available_numbers db)
       = pre ++ mkNumberRow (nr_number row) (nr_country row) (Some u)
                  (nr_added_at row) :: post
    /\ nr_number row ∉ map nr_number pre.
Proof.
  intros Hnd Hf. destruct (find_split _ _ _ Hf) as (pre & post & Hrows & Hpre
    & Hfree).
  exists pre, post. rewrite /inventory Hrows map_app /= in Hnd.
  apply NoDup_app in Hnd as (_ & Hdisj & Hnd).
  apply NoDup_cons in Hnd as [Hpost _].
  assert (Hnpre : nr_number row ∉ map nr_number pre).
  { intros Hin. apply (Hdisj _ Hin). left. }
  split; [done|]. split; [done|].
  split; [rewrite /is_free in Hfree; by destruct (nr_assigned_to row)|].
  split; [|done].
  rewrite Hrows map_app /= assign_rows_other // assign_rows_other //.
  by rewrite /assign_row /str_eqb bool_decide_true.
Qed.

(** X11. On an inventory of distinct numbers, [assign_number_to_user]
    returns nothing and changes nothing when no number is free.
    Otherwise it returns the number of the oldest free row, and in the
    returned store that row, and no other, has changed: it now has the
    user as its owner, so that the number maps back to the user. *)
Theorem assign_number_to_user_cases u db :
  NoDup (inventory db) ->
  let r := assign_number_to_user u db in
  match snd r with
  | None =>
      fst r = db
      /\ Forall (fun row => is_free row = false) (available_numbers db)
  | Some n =>
      (exists pre row post,
         available_numbers db = pre ++ row :: post
         /\ Forall (fun r => is_free r = false) pre
         /\ nr_number row = n /\ nr_assigned_to row = None
         /\ available_numbers (fst r)
            = pre ++ mkNumberRow n (nr_country row) (Some u)
                       (nr_added_at row) :: post)
      /\ get_user_by_number n (fst r) = Some u
      /\ same_but_numbers db (fst r)
  end.
Proof.
  intros Hnd. simpl. rewrite /assign_number_to_user.
  destruct (List.find is_free (available_numbers db)) as [row|] eqn:Hf.
  - destruct (assign_picked u db row Hnd Hf)
      as (pre & post & Hrows & Hpre & Hnone & Hmap & Hnpre).
    simpl. split; [|split; [|done]].
    + by exists pre, row, post.
    + rewrite /get_user_by_number /= Hmap find_number_app.
      apply find_number_None in Hnpre. rewrite Hnpre /find_number /=.
      by rewrite /str_eqb bool_decide_true.
  - simpl. split; [done|]. by apply find_all_false.
Qed.

Lemma two_numbers_distinct : NoDup (inventory two_numbers_db).
Proof.
  pose proof init_consistent as [Hc _].
  by destruct (sync_consistent first_occurrences (fun i => i)
    (Some (mkResponse 200 (lit "+8801700000000 and 1555000111")))
    init_db Hc) as (_ & _ & _ & _ & Hnd).
Qed.

Lemma assign_number_to_user_cases_witness :
  NoDup (inventory two_numbers_db)
  /\ let r := assign_number_to_user 7 two_numbers_db in
     match snd r with
     | None =>
         fst r = two_numbers_db
         /\ Forall (fun row => is_free row = false)
              (available_numbers two_numbers_db)
     | Some n =>
         (exists pre row post,
            available_numbers two_numbers_db = pre ++ row :: post
            /\ Forall (fun r => is_free r = false) pre
            /\ nr_number row = n /\ nr_assigned_to row = None
            /\ available_numbers (fst r)
               = pre ++ mkNumberRow n (nr_country row) (Some 7%Z)
                          (nr_added_at row) :: post)
         /\ get_user_by_number n (fst r) = Some 7%Z
         /\ same_but_numbers two_numbers_db (fst r)
     end.
Proof.
  split; [apply two_numbers_distinct|].
  apply (assign_number_to_user_cases 7 two_numbers_db).
  apply two_numbers_distinct.
Defined.

(** The counts after an assignment. *)
Lemma assign_counts u db :
  NoDup (inventory db) ->
  length (available_numbers (fst (assign_number_to_user u db)))
  = length (available_numbers db)
  /\ count_free (fst (assign_number_to_user u db)) = count_free db - 1.
Proof.
  intros Hnd. rewrite /assign_number_to_user.
  destruct (List.find is_free (available_numbers db)) as [row|] eqn:Hf.
  - destruct (assign_picked u db row Hnd Hf)
      as (pre & post & Hrows & Hpre & Hnone & Hmap & _).
    rewrite /count_free /= Hmap Hrows !length_app /= !List.filter_app /=.
    rewrite /is_free /= Hnone /= !length_app /=. split; [done|]. lia.
  - simpl. split; [done|]. apply find_all_false in Hf.
    rewrite /count_free. induction Hf as [|r rows Hr _ IH]; [done|].
    simpl. by rewrite Hr.
Qed.

Lemma find_number_unique rows r :
  NoDup (map nr_number rows) -> r ∈ rows ->
  find_number (nr_number r) rows = Some r.
Proof.
  intros Hnd Hin. destruct (find_number (nr_number r) rows) as [r'|] eqn:Hf.
  - apply find_number_Some in Hf as [Hin' Heq]. f_equal.
    apply list_elem_of_lookup in Hin as [i Hi], Hin' as [j Hj].
    assert (j = i); [|by simplify_eq].
    eapply NoDup_lookup; [exact Hnd|..].
    + by rewrite list_lookup_fmap Hj.
    + by rewrite list_lookup_fmap Hi /= Heq.
  - apply find_number_None in Hf. exfalso. apply Hf.
    apply list_elem_of_fmap. by exists r.
Qed.

(** With distinct numbers, the account view and the owner lookup agree. *)
Lemma account_numbers_owner u n db :
  NoDup (inventory db) ->
  n ∈ account_numbers u db <-> get_user_by_number n db = Some u.
Proof.
  intros Hnd. rewrite /account_numbers /get_user_by_number. split.
  - intros (r & -> & Hr)%list_elem_of_fmap.
    apply list_elem_of_In, filter_In in Hr as [Hin Hown].
    apply list_elem_of_In in Hin.
    rewrite (find_number_unique _ r Hnd Hin).
    rewrite /owned_by in Hown. destruct (nr_assigned_to r) as [v|]; [|done].
    apply Z.eqb_eq in Hown. by subst.
  - destruct (find_number n (available_numbers db)) as [r|] eqn:Hf; [|done].
    apply find_number_Some in Hf as [Hin <-]. intros Hu.
    apply list_elem_of_fmap. exists r. split; [done|].
    apply list_elem_of_In, filter_In. split; [by apply list_elem_of_In|].
    by rewrite /owned_by Hu Z.eqb_refl.
Qed.

(** ** Further properties of runs *)

Section MoreRuns.

Variable ADMIN_ID : Z.
Variable EARN_PER_SMS : float.
Variable MIN_WITHDRAWAL : float.
Variable set_iter : list str -> list str.

Local Abbreviation step :=
  (step ADMIN_ID EARN_PER_SMS MIN_WITHDRAWAL set_iter).
Local Abbreviation run :=
  (run ADMIN_ID EARN_PER_SMS MIN_WITHDRAWAL set_iter).
Local Abbreviation credit_calls :=
  (credit_calls ADMIN_ID EARN_PER_SMS MIN_WITHDRAWAL set_iter).

Lemma run_app ops1 ops2 : forall st,
  run (ops1 ++ ops2) st = run ops2 (run ops1 st).
Proof. induction ops1 as [|op ops1 IH]; intros st; simpl; [done|apply IH]. Qed.

Lemma credit_calls_app ops1 ops2 : forall st,
  credit_calls (ops1 ++ ops2) st
  = credit_calls ops1 st ++ credit_calls ops2 (run ops1 st).
Proof.
  induction ops1 as [|op ops1 IH]; intros st; simpl; [done|].
  by rewrite IH app_assoc.
Qed.

Lemma run_owner ops n u : forall st,
  state_consistent st ->
  get_user_by_number n (st_db st) = Some u ->
  get_user_by_number n (st_db (run ops st)) = Some u.
Proof.
  induction ops as [|op ops IH]; intros st Hc H; simpl; [done|].
  apply IH; [by apply step_consistent|by apply step_owner].
Qed.

Lemma reachable_distinct ops :
  NoDup (inventory (st_db (run ops init_state))).
Proof.
  by destruct (reachable_consistent ADMIN_ID EARN_PER_SMS MIN_WITHDRAWAL
                 set_iter ops) as [(_ & _ & _ & _ & Hnd) _].
Qed.

(** X12. In every state the bot can reach, a request for a number leaves
    the count of numbers as it is, lowers the count of free numbers by one
    (it stays 0 when none is free) and raises the count of users by one
    exactly when the requester was not registered. *)
Theorem stats_after_get_number ops now u name :
  let st := run ops init_state in
  let st' := cb_get_number now u name st in
  let '(total, free, registered) := stats (st_db st) in
  free <= total
  /\ stats (st_db st')
     = (total, free - 1,
        match users (st_db st) !! u with
        | Some _ => registered
        | None => S registered
        end).
Proof.
  simpl. set (st := run ops init_state). rewrite /stats. split.
  { rewrite /count_free. induction (available_numbers (st_db st))
      as [|r rows IH]; simpl; [done|]. destruct (is_free r); simpl; lia. }
  pose proof (reachable_distinct ops) as Hnd. fold st in Hnd.
  set (db1 := ensure_user now u name (st_db st)).
  assert (Hnd1 : NoDup (inventory db1)) by done.
  destruct (assign_counts u db1 Hnd1) as [Htot Hfree].
  destruct (assign_frame u db1) as (Hu & _).
  rewrite /cb_get_number /=. fold db1. rewrite Htot Hfree Hu.
  rewrite /db1 /count_free /ensure_user /= /insert_or_ignore.
  destruct (users (st_db st) !! u) eqn:Hlk; [done|].
  by rewrite map_size_insert_None.
Qed.

(** X13. In every state the bot can reach, the numbers listed in a user's
    account are exactly the numbers whose owner lookup gives that user; no
    number is listed twice and no number is listed for two users. *)
Theorem account_numbers_exclusive ops :
  let db := st_db (run ops init_state) in
  (forall u n, n ∈ account_numbers u db <->
               get_user_by_number n db = Some u)
  /\ (forall u, NoDup (account_numbers u db))
  /\ (forall u1 u2 n,
        n ∈ account_numbers u1 db -> n ∈ account_numbers u2 db -> u1 = u2).
Proof.
  simpl. pose proof (reachable_distinct ops) as Hnd.
  split; [|split].
  - intros u n. by apply account_numbers_owner.
  - intros u. rewrite /account_numbers. rewrite /inventory in Hnd.
    induction (available_numbers (st_db (run ops init_state)))
      as [|r rows IH]; simpl; [apply NoDup_nil_2|].
    simpl in Hnd. apply NoDup_cons in Hnd as [Hr Hnd].
    destruct (owned_by u r); simpl; [|by apply IH].
    apply NoDup_cons. split; [|by apply IH].
    intros (r' & Heq & Hin)%list_elem_of_fmap. apply Hr. rewrite Heq.
    apply list_elem_of_fmap. exists r'. split; [done|].
    apply list_elem_of_In, filter_In in Hin as [Hin _].
    by apply list_elem_of_In.
  - intros u1 u2 n H1%account_numbers_owner H2%account_numbers_owner;
      [congruence|done..].
Qed.

(** X14. Ownership is permanent: a number that has an owner in a reachable
    state has the same owner after any further steps, restarts included,
    and stays listed in that owner's account. *)
Theorem owner_permanent ops ops' n u :
  get_user_by_number n (st_db (run ops init_state)) = Some u ->
  get_user_by_number n (st_db (run (ops ++ ops') init_state)) = Some u
  /\ n ∈ account_numbers u (st_db (run (ops ++ ops') init_state)).
Proof.
  intros H.
  assert (Hlater : get_user_by_number n
                     (st_db (run (ops ++ ops') init_state)) = Some u).
  { rewrite run_app. apply run_owner; [|done].
    apply reachable_consistent. }
  split; [done|]. apply account_numbers_owner; [|done].
  apply reachable_distinct.
Qed.

End MoreRuns.

Lemma account_numbers_exclusive_witness :
  let ops := [Startup (fun i => i) scenario_response;
              CbGetNumber 5 7%Z None] in
  let db := st_db (run 1%Z 1%float 250%float first_occurrences ops
                     init_state) in
  get_user_by_number (lit "1555000111") db = Some 7%Z
  /\ lit "1555000111" ∈ account_numbers 7 db.
Proof.
  split; [by vm_compute|].
  destruct (account_numbers_exclusive 1%Z 1%float 250%float first_occurrences
              [Startup (fun i => i) scenario_response;
               CbGetNumber 5 7%Z None]) as (H & _).
  apply H. by vm_compute.
Defined.

Lemma owner_permanent_witness :
  let run := run 1%Z 1%float 250%float first_occurrences in
  let ops := [Startup (fun i => i) scenario_response;
              CbGetNumber 5 7%Z None] in
  let ops' := [Startup (fun i => 40 + i) None; CbGetNumber 50 8%Z None] in
  get_user_by_number (lit "1555000111") (st_db (run ops init_state))
  = Some 7%Z
  /\ get_user_by_number (lit "1555000111")
       (st_db (run (ops ++ ops') init_state)) = Some 7%Z
  /\ lit "1555000111"
       ∈ account_numbers 7 (st_db (run (ops ++ ops') init_state)).
Proof.
  split; [by vm_compute|].
  by apply (owner_permanent 1%Z 1%float 250%float first_occurrences).
Defined.

(** ** The list of pending requests *)

Lemma pending_after_approve wid rows :
  List.filter (fun r => Status_eqb (w_status r) pending)
    (map (approve_row wid) rows)
  = List.filter (fun r => negb (w_id r =? wid))
      (List.filter (fun r => Status_eqb (w_status r) pending) rows).
Proof.
  induction rows as [|r rows IH]; simpl; [done|].
  rewrite {1 2}/approve_row. destruct (w_id r =? wid) eqn:Hid; simpl.
  - destruct (Status_eqb (w_status r) pending); simpl; [|done].
    by rewrite Hid.
  - destruct (Status_eqb (w_status r) pending); simpl; [|done].
    by rewrite Hid /= IH.
Qed.

Section WithdrawalRuns.

Variable ADMIN_ID : Z.
Variable EARN_PER_SMS : float.
Variable MIN_WITHDRAWAL : float.
Variable set_iter : list str -> list str.

Local Abbreviation run :=
  (run ADMIN_ID EARN_PER_SMS MIN_WITHDRAWAL set_iter).

(** X15. In every state the bot can reach: creating a request returns an
    id no request had, and the pending list grows by that one request at
    its end; approving an id that succeeds removes exactly that request
    from the pending list, and an approval that fails leaves the list as
    it is. *)
Theorem pending_list_changes ops :
  let db := st_db (run ops init_state) in
  (forall now u a m t,
     let r := create_withdrawal now u a m t db in
     (snd r ∉ map w_id (withdrawals db))
     /\ list_pending_withdrawals (fst r)
        = list_pending_withdrawals db
          ++ [mkWithdrawalRow (snd r) u a m t pending now])
  /\ (forall wid,
        let r := approve_withdrawal wid db in
        list_pending_withdrawals (fst r)
        = if snd r
          then List.filter (fun row => negb (w_id row =? wid))
                 (list_pending_withdrawals db)
          else list_pending_withdrawals db).
Proof.
  simpl. set (db := st_db (run ops init_state)).
  destruct (reachable_consistent ADMIN_ID EARN_PER_SMS MIN_WITHDRAWAL
              set_iter ops) as [Hc _]. fold db in Hc.
  split.
  - intros now u a m t. split.
    + destruct Hc as (_ & _ & _ & Hid & _). rewrite Hid.
      intros Hin%list_elem_of_In%in_seq. lia.
    + by rewrite /list_pending_withdrawals /= List.filter_app.
  - intros wid. rewrite /approve_withdrawal /list_pending_withdrawals.
    destruct (List.find _ _) as [row|]; [|done].
    destruct (earnings db !! w_user_id row); [|done].
    destruct (PrimFloat.ltb _ _); [done|]. simpl. apply pending_after_approve.
Qed.

(** X16. Two pending requests of one user, where the balance is not below
    the first amount and what the first debit leaves of it, in double
    arithmetic, is below the second: in a reachable state, approving the
    first succeeds, and approving the second right after fails and leaves
    it pending. *)
Theorem second_approval_fails ops w1 w2 r1 r2 :
  let db := st_db (run ops init_state) in
  names_pending w1 db r1 -> names_pending w2 db r2 ->
  w1 <> w2 -> w_user_id r1 = w_user_id r2 ->
  (get_balance (w_user_id r1) db <? w_amount r1)%float = false ->
  (get_balance (w_user_id r1) db - w_amount r1 <? w_amount r2)%float
  = true ->
  let db1 := fst (approve_withdrawal w1 db) in
  snd (approve_withdrawal w1 db) = true
  /\ approve_withdrawal w2 db1 = (db1, false)
  /\ names_pending w2 db1 r2.
Proof.
  simpl. set (db := st_db (run ops init_state)).
  intros Hp1 Hp2 Hne Hu Hle Hlt.
  destruct (reachable_consistent ADMIN_ID EARN_PER_SMS MIN_WITHDRAWAL
              set_iter ops) as [Hc _]. fold db in Hc.
  pose proof (approve_consistent w1 db Hc) as Hc1.
  pose proof (approve_withdrawal_cases w1 db Hc) as H1.
  destruct (List.find (is_pending_id w1) (withdrawals db)) as [row|] eqn:Hf;
    [|destruct H1 as [Hno _]; by destruct (Hno r1)].
  destruct H1 as [Hrow H1].
  assert (row = r1) as ->.
  { destruct Hp1 as (Hin & Hid & _), Hrow as (Hin' & Hid' & _).
    apply (withdrawal_id_unique db); [done..|congruence]. }
  rewrite Hle in H1. rewrite H1 /=.
  rewrite H1 /= in Hc1.
  set (db1 := set_withdrawals (map (approve_row w1))
                (set_earnings
                   (alter (fun b => (b - w_amount r1)%float)
                      (w_user_id r1))
                   db)) in *.
  assert (Hp2' : names_pending w2 db1 r2).
  { destruct Hp2 as (Hin & Hid & Hst). split; [|done].
    rewrite /db1 /=. apply list_elem_of_fmap. exists r2. split; [|done].
    rewrite /approve_row. destruct (Nat.eqb_spec (w_id r2) w1); [|done].
    congruence. }
  split; [done|]. split; [|done].
  pose proof (approve_withdrawal_cases w2 db1 Hc1) as H2.
  destruct (List.find (is_pending_id w2) (withdrawals db1)) as [row|]
    eqn:Hf2; [|by destruct H2 as [_ H2]].
  destruct H2 as [Hrow2 H2].
  assert (row = r2) as ->.
  { destruct Hp2' as (Hin & Hid & _), Hrow2 as (Hin' & Hid' & _).
    apply (withdrawal_id_unique db1); [done..|congruence]. }
  assert (Hbal : get_balance (w_user_id r2) db1
                 = (get_balance (w_user_id r1) db - w_amount r1)%float).
  { destruct Hc as (_ & _ & Hw & _). destruct Hp1 as (Hin & _).
    destruct (Hw r1 Hin) as [b Hb].
    by rewrite -Hu /db1 /get_balance /= lookup_alter_eq Hb. }
  rewrite Hbal in H2. by rewrite Hlt in H2.
Qed.

End WithdrawalRuns.

Lemma second_approval_fails_witness :
  let db := st_db (run 1%Z 300%float 250%float first_occurrences
                     two_requests_ops init_state) in
  let r1 := mkWithdrawalRow 1 7%Z 200%float (lit "bkash") (lit "017")
              pending 31 in
  let r2 := mkWithdrawalRow 2 7%Z 200%float (lit "nagad") (lit "018")
              pending 32 in
  names_pending 1 db r1 /\ names_pending 2 db r2
  /\ 1 <> 2 /\ w_user_id r1 = w_user_id r2
  /\ (get_balance (w_user_id r1) db <? w_amount r1)%float = false
  /\ (get_balance (w_user_id r1) db - w_amount r1 <? w_amount r2)%float
     = true
  /\ let db1 := fst (approve_withdrawal 1 db) in
     snd (approve_withdrawal 1 db) = true
     /\ approve_withdrawal 2 db1 = (db1, false)
     /\ names_pending 2 db1 r2.
Proof.
  intros db r1 r2.
  assert (H1 : names_pending 1 db r1).
  { split; [|done]. vm_compute. left. }
  assert (H2 : names_pending 2 db r2).
  { split; [|done]. vm_compute. right. left. }
  assert (H3 : (get_balance (w_user_id r1) db <? w_amount r1)%float
               = false) by by vm_compute.
  assert (H4 : (get_balance (w_user_id r1) db - w_amount r1
                <? w_amount r2)%float = true) by by vm_compute.
  do 2 (split; [done|]). split; [lia|]. do 3 (split; [done|]).
  by apply (second_approval_fails 1%Z 300%float 250%float first_occurrences
              two_requests_ops 1 2 r1 r2).
Defined.

(** ** Nothing is deleted *)

Lemma db_grows_refl db : db_grows db db.
Proof. by rewrite /db_grows. Qed.

Lemma db_grows_trans db1 db2 db3 :
  db_grows db1 db2 -> db_grows db2 db3 -> db_grows db1 db3.
Proof.
  intros (A1 & A2 & A3 & A4 & A5) (B1 & B2 & B3 & B4 & B5).
  split; [by etrans|]. split; [by etrans|]. split; [by etrans|].
  split; [by etrans|]. intros u Hu. by apply B5, A5.
Qed.

Lemma insert_or_ignore_subseteq {V} k (v : V) (t : gmap Z V) :
  t ⊆ insert_or_ignore k v t.
Proof.
  rewrite /insert_or_ignore. destruct (t !! k) eqn:Hk; [done|].
  by apply insert_subseteq.
Qed.

Lemma ensure_user_grows now u n db : db_grows db (ensure_user now u n db).
Proof.
  rewrite /db_grows /ensure_user /=. do 3 (split; [done|]).
  split; [apply insert_or_ignore_subseteq|].
  intros v Hv. apply insert_or_ignore_is_Some. by right.
Qed.

Lemma credit_user_grows u a db : db_grows db (credit_user u a db).
Proof.
  rewrite /db_grows /credit_user /=. do 4 (split; [done|]).
  intros v Hv. rewrite lookup_alter_is_Some insert_or_ignore_is_Some.
  by right.
Qed.

Lemma add_available_number_grows now num c db :
  db_grows db (add_available_number now num c db).
Proof.
  rewrite /add_available_number. destruct (find_number _ _);
    [apply db_grows_refl|].
  rewrite /db_grows /=. split; [done|]. split; [|done].
  rewrite map_app. by apply prefix_app_r.
Qed.

Lemma sync_loop_grows clock nums : forall i db added,
  db_grows db (fst (sync_loop clock nums i db added)).
Proof.
  induction nums as [|num rest IH]; intros i db added; simpl;
    [apply db_grows_refl|].
  eapply db_grows_trans; [apply add_available_number_grows|apply IH].
Qed.

Lemma sync_grows f clock resp db :
  db_grows db (fst (sync_numbers_from_ivasms f clock resp db)).
Proof.
  rewrite /sync_numbers_from_ivasms.
  destruct resp; [apply sync_loop_grows|apply db_grows_refl].
Qed.

Lemma assign_row_core u n r : nr_core (assign_row u n r) = nr_core r.
Proof. rewrite /assign_row. by destruct (str_eqb _ _). Qed.

Lemma assign_grows u db : db_grows db (fst (assign_number_to_user u db)).
Proof.
  rewrite /assign_number_to_user. destruct (List.find _ _);
    [|apply db_grows_refl].
  rewrite /db_grows /=. split; [done|]. split; [|done].
  rewrite map_map (map_ext _ nr_core) //. intros r. apply assign_row_core.
Qed.

Lemma create_withdrawal_grows now u a m t db :
  db_grows db (fst (create_withdrawal now u a m t db)).
Proof.
  rewrite /db_grows /=. do 2 (split; [done|]). split; [|done].
  rewrite map_app. by apply prefix_app_r.
Qed.

Lemma approve_row_core wid r : w_core (approve_row wid r) = w_core r.
Proof. rewrite /approve_row. by destruct (_ =? _). Qed.

Lemma approve_grows wid db : db_grows db (fst (approve_withdrawal wid db)).
Proof.
  rewrite /approve_withdrawal.
  destruct (List.find _ _) as [row|]; [|apply db_grows_refl].
  destruct (earnings db !! w_user_id row); [|apply db_grows_refl].
  destruct (PrimFloat.ltb _ _); [apply db_grows_refl|].
  rewrite /db_grows /=. do 2 (split; [done|]). split; [|split; [done|]].
  - rewrite map_map (map_ext _ w_core) //. intros r.
    apply approve_row_core.
  - intros u Hu. by rewrite lookup_alter_is_Some.
Qed.

Lemma otp_loop_grows clock text ms : forall i db results,
  db_grows db (fst (otp_loop clock text ms i db results)).
Proof.
  induction ms as [|m ms IH]; intros i db results; simpl;
    [apply db_grows_refl|].
  destruct (occurrence text m) as [[[n o] sn]|]; [|apply IH].
  destruct (otp_exists n o db); [apply IH|].
  eapply db_grows_trans; [|apply IH].
  rewrite /db_grows /=. split; [by apply prefix_app_r|done].
Qed.

Lemma process_grows clock resp db :
  db_grows db (fst (process_incoming_otps_single_scraper clock resp db)).
Proof.
  rewrite /process_incoming_otps_single_scraper.
  destruct resp; [|apply db_grows_refl].
  destruct (negb _); [apply db_grows_refl|apply otp_loop_grows].
Qed.

Section LedgerRuns.

Variable ADMIN_ID : Z.
Variable EARN_PER_SMS : float.
Variable MIN_WITHDRAWAL : float.
Variable set_iter : list str -> list str.

Local Abbreviation step :=
  (step ADMIN_ID EARN_PER_SMS MIN_WITHDRAWAL set_iter).
Local Abbreviation run :=
  (run ADMIN_ID EARN_PER_SMS MIN_WITHDRAWAL set_iter).
Local Abbreviation credit_calls :=
  (credit_calls ADMIN_ID EARN_PER_SMS MIN_WITHDRAWAL set_iter).

Lemma step_grows op st : db_grows (st_db st) (st_db (step op st)).
Proof.
  destruct op; simpl.
  - eapply db_grows_trans; [apply ensure_user_grows|apply sync_grows].
  - apply ensure_user_grows.
  - eapply db_grows_trans; [apply ensure_user_grows|apply assign_grows].
  - apply ensure_user_grows.
  - rewrite /cb_withdraw. destruct (PrimFloat.ltb _ _); [|destruct delivered];
      apply ensure_user_grows.
  - rewrite /handle_withdraw_text. destruct (negb _); [apply db_grows_refl|].
    destruct (user_states st !! user_id) as [[]|]; [|apply db_grows_refl].
    destruct (PrimFloat.ltb _ _), finished; simpl;
      first [apply db_grows_refl|apply create_withdrawal_grows].
  - rewrite /cmd_sync. destruct (negb _); [apply db_grows_refl|].
    apply sync_grows.
  - rewrite /cmd_approve. destruct (negb _); [apply db_grows_refl|].
    apply approve_grows.
  - rewrite /poll_fetch. destruct (poll_results st); [|apply db_grows_refl].
    pose proof (process_grows clock resp (st_db st)) as H.
    by destruct (process_incoming_otps_single_scraper _ _ _).
  - rewrite /poll_credit. destruct (poll_results st); [apply db_grows_refl|].
    simpl. destruct (credit_of _ _); [apply credit_user_grows|].
    apply db_grows_refl.
Qed.

(** X17. Nothing is ever deleted.  Along any run, from any state, the
    history records stay as they are and in place; inventory rows and
    requests stay in place with their number, country, amount, requester
    and times unchanged; and every user row and every balance row is
    kept, the user row with its username and creation time. *)
Theorem nothing_deleted ops : forall st,
  db_grows (st_db st) (st_db (run ops st)).
Proof.
  induction ops as [|op ops IH]; intros st; simpl; [apply db_grows_refl|].
  eapply db_grows_trans; [apply step_grows|apply IH].
Qed.

(** X18. No credit call is ever made for user id 0: a number assigned to
    that id earns nothing. *)
Theorem user_zero_never_credited ops : forall st,
  Forall (fun c => fst c <> 0%Z) (credit_calls ops st).
Proof.
  induction ops as [|op ops IH]; intros st; simpl; [done|].
  apply Forall_app. split; [|apply IH].
  destruct op; try done. simpl.
  destruct (poll_results st) as [|ev rest]; [done|].
  destruct (credit_of ev (st_db st)) as [owner|] eqn:Ho; [|done].
  constructor; [|done]. simpl. rewrite /credit_of /truthy_owner in Ho.
  destruct (get_user_by_number _ _) as [v|]; [|done].
  destruct (Z.eqb_spec v 0); [done|]. by injection Ho as <-.
Qed.

(** X19. A step other than an approval by the admin lowers no balance and
    leaves every request as it is, when the reward is not negative. *)
Theorem only_approval_debits op st :
  (0 <=? EARN_PER_SMS)%float = true ->
  (forall wid, op <> CmdApprove ADMIN_ID wid) ->
  (forall u, (get_balance u (st_db (step op st))
              <? get_balance u (st_db st))%float = false)
  /\ (withdrawals (st_db st) `prefix_of` withdrawals (st_db (step op st))).
Proof.
  intros HE Hop.
  assert (Hsame : forall db', earnings db' = earnings (st_db st) ->
    withdrawals db' = withdrawals (st_db st) ->
    (forall u, (get_balance u db' <? get_balance u (st_db st))%float = false)
    /\ (withdrawals (st_db st) `prefix_of` withdrawals db')).
  { intros db' He Hw. split; [|by rewrite Hw].
    intros u. rewrite (get_balance_ext _ _ He). apply ltb_irrefl. }
  assert (Hens : forall now u n db',
    earnings db' = earnings (ensure_user now u n (st_db st)) ->
    withdrawals db' = withdrawals (st_db st) ->
    (forall v, (get_balance v db' <? get_balance v (st_db st))%float = false)
    /\ (withdrawals (st_db st) `prefix_of` withdrawals db')).
  { intros now u n db' He Hw. split; [|by rewrite Hw].
    intros v. rewrite (get_balance_ext _ _ He) get_balance_ensure_user.
    apply ltb_irrefl. }
  destruct op; simpl.
  - apply (Hens (clock 0) ADMIN_ID (Some (lit "admin")));
      by destruct (sync_frame set_iter (fun i => clock (S i)) resp
        (ensure_user (clock 0) ADMIN_ID (Some (lit "admin")) (st_db st)))
        as (_ & ? & _ & ?).
  - by apply (Hens now user_id username
                (ensure_user now user_id username (st_db st))).
  - apply (Hens now user_id username);
      by destruct (assign_frame user_id
        (ensure_user now user_id username (st_db st))) as (_ & ? & _ & ?).
  - by apply (Hens now user_id username
                (ensure_user now user_id username (st_db st))).
  - rewrite /cb_withdraw. destruct (PrimFloat.ltb _ _); [|destruct delivered];
      by apply (Hens now user_id username
                  (ensure_user now user_id username (st_db st))).
  - rewrite /handle_withdraw_text. destruct (negb _); [by apply Hsame|].
    destruct (user_states st !! user_id) as [[]|]; [|by apply Hsame].
    destruct (PrimFloat.ltb _ _), finished; simpl; try by apply Hsame.
    + split; [intros u; apply ltb_irrefl|by apply prefix_app_r].
    + split; [intros u; apply ltb_irrefl|by apply prefix_app_r].
  - rewrite /cmd_sync. destruct (negb _); [by apply Hsame|].
    apply Hsame; by destruct (sync_frame set_iter clock resp (st_db st))
      as (_ & ? & _ & ?).
  - rewrite /cmd_approve. destruct (Z.eqb_spec sender ADMIN_ID) as [->|Hs];
      simpl; [by destruct (Hop wid)|by apply Hsame].
  - rewrite /poll_fetch. destruct (poll_results st); [|by apply Hsame].
    destruct (process_frame clock resp (st_db st)) as (_ & He & _ & Hw).
    destruct (process_incoming_otps_single_scraper _ _ _).
    by apply Hsame.
  - rewrite /poll_credit. destruct (poll_results st); [by apply Hsame|].
    simpl. destruct (credit_of _ _) as [owner|]; [|by apply Hsame].
    split; [|done]. intros u. rewrite get_balance_credit.
    destruct (Z.eqb_spec u owner) as [->|_];
      [by apply add_not_lower|apply ltb_irrefl].
Qed.

(** X25. With a reward that is at least zero, and as long as no
    withdrawal message asks for an amount that is infinite as a double,
    every balance in every reachable state is a number, never a NaN, and
    at least zero; and so is every requested amount below infinity. *)
Theorem balances_are_numbers ops :
  (0 <=? EARN_PER_SMS)%float = true ->
  Forall (fun op => finite_request op = true) ops ->
  let db := st_db (run ops init_state) in
  (forall u, (0 <=? get_balance u db)%float = true)
  /\ (forall row, row ∈ withdrawals db ->
                  (w_amount row <? infinity)%float = true).
Proof.
  intros HE Hops.
  apply (run_numbers ADMIN_ID EARN_PER_SMS MIN_WITHDRAWAL set_iter ops
           init_state HE Hops).
  split; [|by intros row Hrow%elem_of_nil].
  intros u. by rewrite /get_balance /= lookup_empty.
Qed.

End LedgerRuns.

Lemma only_approval_debits_witness :
  let st := run 1%Z 1%float 250%float first_occurrences
              [Startup (fun i => i) scenario_response;
               CbGetNumber 5 7%Z None;
               PollFetch (fun i => 10 + i) scenario_response]
              init_state in
  let st' := step 1%Z 1%float 250%float first_occurrences PollCredit st in
  (0 <=? 1)%float = true
  /\ (forall wid, PollCredit <> CmdApprove 1%Z wid)
  /\ (forall u, (get_balance u (st_db st') <? get_balance u (st_db st))%float
                = false)
  /\ (withdrawals (st_db st) `prefix_of` withdrawals (st_db st')).
Proof.
  intros st st'. split; [done|]. split; [done|].
  by apply (only_approval_debits 1%Z 1%float 250%float first_occurrences
              PollCredit st).
Defined.

Lemma balances_are_numbers_witness :
  let db := st_db (run 1%Z 300%float 250%float first_occurrences
                     two_requests_ops init_state) in
  (0 <=? 300)%float = true
  /\ Forall (fun op => finite_request op = true) two_requests_ops
  /\ (forall u, (0 <=? get_balance u db)%float = true)
  /\ (forall row, row ∈ withdrawals db ->
                  (w_amount row <? infinity)%float = true).
Proof.
  intros db.
  assert (H : Forall (fun op => finite_request op = true) two_requests_ops)
    by (repeat constructor).
  split; [done|]. split; [exact H|].
  by apply (balances_are_numbers 1%Z 300%float 250%float first_occurrences
              two_requests_ops).
Defined.

(** ** The withdrawal dialogue *)

(** X21. A message handled to its end closes the dialogue: the user's
    flag is gone, at most one request was added, and any further
    withdrawal message of that user is ignored until the dialogue is
    opened again. *)
Theorem dialogue_closed_after_message now u m t a st :
  (0 <=? a)%float = true ->
  let st1 := handle_withdraw_text now u m t a true st in
  user_states st1 !! u = None
  /\ length (withdrawals (st_db st1)) <= S (length (withdrawals (st_db st)))
  /\ forall now' m' t' a' finished,
       handle_withdraw_text now' u m' t' a' finished st1 = st1.
Proof.
  intros Ha. simpl.
  assert (Hclosed : forall st1 : State,
    user_states st1 !! u = None ->
    forall now' m' t' a' finished,
      handle_withdraw_text now' u m' t' a' finished st1 = st1).
  { intros st1 Hnone now' m' t' a' f'. rewrite /handle_withdraw_text Hnone.
    by destruct (negb _). }
  assert (Hfirst :
    user_states (handle_withdraw_text now u m t a true st) !! u = None
    /\ length (withdrawals
                 (st_db (handle_withdraw_text now u m t a true st)))
       <= S (length (withdrawals (st_db st)))).
  { rewrite /handle_withdraw_text Ha /=.
    destruct (user_states st !! u) as [[]|] eqn:Hu; [|split; [done|lia]].
    destruct (PrimFloat.ltb _ _); simpl;
      rewrite lookup_delete_eq ?length_app /=; (split; [done|lia]). }
  destruct Hfirst as [Hnone Hlen]. split; [done|]. split; [done|].
  by apply Hclosed.
Qed.

Lemma dialogue_closed_after_message_witness :
  let st := cb_withdraw 250%float 30 7%Z None true
              (run 1%Z 300%float 250%float first_occurrences scenario_ops
                 init_state) in
  (0 <=? 200)%float = true
  /\ let st1 := handle_withdraw_text 31 7%Z (lit "bkash") (lit "017")
                  200%float true st in
     user_states st1 !! 7%Z = None
     /\ length (withdrawals (st_db st1))
        <= S (length (withdrawals (st_db st)))
     /\ forall now' m' t' a' finished,
          handle_withdraw_text now' 7%Z m' t' a' finished st1 = st1.
Proof.
  intros st. split; [done|].
  by apply (dialogue_closed_after_message 31 7%Z (lit "bkash") (lit "017")
              200%float st).
Defined.

(** ** What a sync puts into the inventory *)

Lemma add_available_number_distinct now num c db :
  NoDup (inventory db) ->
  NoDup (inventory (add_available_number now num c db)).
Proof.
  intros Hnd. rewrite /add_available_number.
  destruct (find_number num (available_numbers db)) eqn:Hf; [done|].
  apply find_number_None in Hf. rewrite /inventory /= map_app.
  apply NoDup_app. split; [done|]. split; [|apply NoDup_singleton].
  intros x Hx ->%list_elem_of_singleton. by apply Hf.
Qed.

Lemma sync_loop_distinct clock nums : forall i db added,
  NoDup (inventory db) ->
  NoDup (inventory (fst (sync_loop clock nums i db added))).
Proof.
  induction nums as [|num rest IH]; intros i db added H; simpl; [done|].
  by apply IH, add_available_number_distinct.
Qed.

(** The inventory after the loop holds what it held and the numbers the
    loop went through, and nothing else. *)
Lemma sync_loop_elements clock nums i db added x :
  x ∈ inventory (fst (sync_loop clock nums i db added))
  <-> x ∈ inventory db \/ x ∈ nums.
Proof.
  split.
  - destruct (sync_loop_appends clock nums i db added)
      as (new & Hnew & Hall).
    rewrite /inventory Hnew map_app elem_of_app.
    intros [Hx|Hx]; [by left|right].
    apply list_elem_of_fmap in Hx as (r & -> & Hr).
    rewrite Forall_forall in Hall. by destruct (Hall r Hr) as (_ & Hin & _).
  - intros [Hx|Hx]; [by apply sync_loop_keeps|by apply sync_loop_covers].
Qed.

(** X22. With Python's guarantee on set iteration, after a sync the
    inventory holds exactly the numbers it held and the matches of the
    pattern in the text; numbers stay distinct; and every number that had
    an owner keeps it. *)
Theorem sync_covers_text f clock r db :
  set_order f ->
  let db' := fst (sync_numbers_from_ivasms f clock (Some r) db) in
  (forall x, x ∈ inventory db' <->
             x ∈ inventory db \/ x ∈ findall_number (r_text r))
  /\ (NoDup (inventory db) -> NoDup (inventory db'))
  /\ (forall n u, get_user_by_number n db = Some u ->
                  get_user_by_number n db' = Some u).
Proof.
  intros Hf. simpl. rewrite /sync_numbers_from_ivasms.
  destruct (Hf (findall_number (r_text r))) as [_ Hin].
  split; [|split].
  - intros x. by rewrite sync_loop_elements Hin.
  - apply sync_loop_distinct.
  - intros n u. apply sync_loop_owner.
Qed.

Lemma sync_covers_text_witness :
  set_order first_occurrences
  /\ let r := mkResponse 200 (lit "+8801700000000 and 1555000111") in
     let db' := fst (sync_numbers_from_ivasms first_occurrences
                       (fun i => i) (Some r) init_db) in
     (forall x, x ∈ inventory db' <->
                x ∈ inventory init_db \/ x ∈ findall_number (r_text r))
     /\ (NoDup (inventory init_db) -> NoDup (inventory db'))
     /\ (forall n u, get_user_by_number n init_db = Some u ->
                     get_user_by_number n db' = Some u).
Proof.
  split; [apply first_occurrences_order|].
  apply (sync_covers_text first_occurrences (fun i => i)
           (mkResponse 200 (lit "+8801700000000 and 1555000111")) init_db).
  apply first_occurrences_order.
Defined.

Lemma findall_number_shapes text :
  Forall (fun n => phone_shaped n = true) (findall_number text).
Proof.
  rewrite /findall_number Forall_fmap.
  eapply Forall_impl; [apply finditer_number_shapes|].
  by intros m (_ & _ & _ & H).
Qed.

Lemma sync_shapes f clock resp db :
  (forall l x, x ∈ f l -> x ∈ l) ->
  Forall (fun n => phone_shaped n = true) (inventory db) ->
  Forall (fun n => phone_shaped n = true)
    (inventory (fst (sync_numbers_from_ivasms f clock resp db))).
Proof.
  intros Hf Hdb. rewrite /sync_numbers_from_ivasms.
  destruct resp as [r|]; [|done].
  apply Forall_forall. intros x [Hx|Hx]%sync_loop_elements.
  - rewrite Forall_forall in Hdb. by apply Hdb.
  - pose proof (findall_number_shapes (r_text r)) as Hs.
    rewrite Forall_forall in Hs. by apply Hs, Hf.
Qed.

Lemma assign_inventory u db :
  inventory (fst (assign_number_to_user u db)) = inventory db.
Proof.
  rewrite /assign_number_to_user. destruct (List.find _ _); [|done].
  rewrite /inventory /= map_map. apply map_ext. intros r.
  apply assign_row_number.
Qed.

Section InventoryRuns.

Variable ADMIN_ID : Z.
Variable EARN_PER_SMS : float.
Variable MIN_WITHDRAWAL : float.
Variable set_iter : list str -> list str.

Local Abbreviation step :=
  (step ADMIN_ID EARN_PER_SMS MIN_WITHDRAWAL set_iter).
Local Abbreviation run :=
  (run ADMIN_ID EARN_PER_SMS MIN_WITHDRAWAL set_iter).

Hypothesis set_iter_order : set_order set_iter.

Lemma step_shapes op st :
  Forall (fun n => phone_shaped n = true) (inventory (st_db st)) ->
  Forall (fun n => phone_shaped n = true) (inventory (st_db (step op st))).
Proof.
  intros H.
  assert (Hf : forall l x, x ∈ set_iter l -> x ∈ l).
  { intros l x. by destruct (set_iter_order l) as [_ ->]. }
  assert (Hsame : forall db', available_numbers db'
                              = available_numbers (st_db st) ->
    Forall (fun n => phone_shaped n = true) (inventory db')).
  { intros db' He. by rewrite /inventory He. }
  destruct op; simpl.
  - by apply sync_shapes.
  - by apply Hsame.
  - rewrite assign_inventory. by apply Hsame.
  - by apply Hsame.
  - rewrite /cb_withdraw. destruct (PrimFloat.ltb _ _); [|destruct delivered];
      by apply Hsame.
  - rewrite /handle_withdraw_text. destruct (negb _); [done|].
    destruct (user_states st !! user_id) as [[]|]; [|done].
    destruct (PrimFloat.ltb _ _), finished; by apply Hsame.
  - rewrite /cmd_sync. destruct (negb _); [done|]. by apply sync_shapes.
  - rewrite /cmd_approve. destruct (negb _); [done|]. apply Hsame.
    by destruct (approve_frame wid (st_db st)) as (_ & ? & _).
  - rewrite /poll_fetch. destruct (poll_results st); [|done].
    destruct (process_frame clock resp (st_db st)) as (_ & _ & Hn & _).
    destruct (process_incoming_otps_single_scraper _ _ _).
    by apply Hsame.
  - rewrite /poll_credit. destruct (poll_results st); [done|]. simpl.
    destruct (credit_of _ _); by apply Hsame.
Qed.

(** X23. With Python's guarantee on set iteration, every number the
    inventory holds in a reachable state has the number shape, and so has
    every number handed out to a user. *)
Theorem inventory_phone_shaped ops :
  let db := st_db (run ops init_state) in
  Forall (fun n => phone_shaped n = true) (inventory db)
  /\ forall u,
       match snd (assign_number_to_user u db) with
       | Some n => phone_shaped n = true
       | None => True
       end.
Proof.
  simpl.
  assert (Hall : forall ops0 st,
    Forall (fun n => phone_shaped n = true) (inventory (st_db st)) ->
    Forall (fun n => phone_shaped n = true)
      (inventory (st_db (run ops0 st)))).
  { induction ops0 as [|op ops0 IH]; intros st H; simpl; [done|].
    by apply IH, step_shapes. }
  assert (Hinv : Forall (fun n => phone_shaped n = true)
                   (inventory (st_db (run ops init_state)))).
  { by apply Hall. }
  split; [done|]. intros u. rewrite /assign_number_to_user.
  destruct (List.find is_free _) as [row|] eqn:Hf; [|done]. simpl.
  apply find_some in Hf as [Hin _]. rewrite Forall_forall in Hinv.
  apply Hinv, list_elem_of_fmap. exists row. split; [done|].
  by apply list_elem_of_In.
Qed.

End InventoryRuns.

Lemma inventory_phone_shaped_witness :
  set_order first_occurrences
  /\ let db := st_db (run 1%Z 1%float 250%float first_occurrences scenario_ops
                        init_state) in
     Forall (fun n => phone_shaped n = true) (inventory db)
     /\ forall u,
          match snd (assign_number_to_user u db) with
          | Some n => phone_shaped n = true
          | None => True
          end.
Proof.
  split; [apply first_occurrences_order|].
  apply (inventory_phone_shaped 1%Z 1%float 250%float first_occurrences).
  apply first_occurrences_order.
Defined.

(** ** The session probe *)

(** X24. The probe accepts only responses with status 200.  It accepts
    every such response whose final URL is the inbox URL, whatever the
    page says, and every such response whose page has the letters otp or
    sms in any mix of cases, whatever the URL; for a response that ended
    on the login URL the answer depends on the page alone. *)
Theorem session_probe_accepts :
  (forall status text url,
     session_valid status text url = true -> status = 200)
  /\ (forall text, session_valid 200 text MY_SMS_URL = true)
  /\ (forall a k b url,
        lower k = lit "otp" \/ lower k = lit "sms" ->
        session_valid 200 (a ++ k ++ b) url = true)
  /\ (forall text,
        session_valid 200 text LOGIN_URL
        = contains (lit "otp") (lower text)
          || contains (lit "sms") (lower text)).
Proof.
  split; [|split; [|split]].
  - intros status text url [H _]%andb_prop. by apply Nat.eqb_eq.
  - intros text. rewrite /session_valid Nat.eqb_refl.
    assert (Hp : contains (lit "portal") MY_SMS_URL = true) by by vm_compute.
    rewrite Hp. by rewrite !orb_true_r.
  - intros a k b url Hk. rewrite /session_valid Nat.eqb_refl.
    assert (Hl : lower (a ++ k ++ b) = lower a ++ lower k ++ lower b).
    { by rewrite /lower !map_app. }
    rewrite Hl. destruct Hk as [-> | ->]; rewrite contains_app //.
    by rewrite orb_true_r.
  - intros text. rewrite /session_valid Nat.eqb_refl.
    assert (H1 : contains (lit "my_sms") LOGIN_URL = false) by by vm_compute.
    assert (H2 : contains (lit "portal") LOGIN_URL = false) by by vm_compute.
    by rewrite H1 H2 !orb_false_r.
Qed.

Lemma session_probe_accepts_witness :
  (lower (lit "SMS") = lit "otp" \/ lower (lit "SMS") = lit "sms")
  /\ session_valid 200 (lit "IVA" ++ lit "SMS" ++ lit " - Login") LOGIN_URL
     = true.
Proof.
  split; [by right|].
  destruct session_probe_accepts as (_ & _ & H & _).
  apply H. by right.
Defined.
